(** * Episode replay with operator control: a model of the replay scripts

    The development embeds the replay controllers of
    [src/lerobot/replay_all_episodes.py], [src/lerobot/demo_episode_replay.py],
    [src/lerobot/replay_moving_tape_dataset.py] and
    [src/lerobot/replay_with_real_robot.py].

    Conventions of the embedding.
    - Python [int] is [Z]; Python [float] (times, joint targets) is idealised
      as an exact rational [Q].
    - A Python [str] is a [string] whose characters are code points; the
      lines that the operator types are those of code points below 256, on
      which [strip] and [lower] are Python's.
    - The replayer object [self], the robot, the operator's terminal and the
      record of everything the program did form one [World] that is threaded
      through a state-and-exception monad [M].
    - The operator's terminal is a schedule: a list of batches of input
      items.  The input thread is the only writer of [is_paused] and
      [should_stop], each of its handlers writes at most one flag, once, and
      the main thread only reads them; so a run is determined by which input
      items the input thread has handled between two consecutive reads of a
      shared flag by the main thread.  Batch [k] holds the items handled
      just before the [k]-th such read.  When the schedule is exhausted the
      operator stays silent for ever.
    - A polling loop whose condition can never change again is reported as
      the result [Hang]; see [pause_loop_hangs_only_when_frozen].
    - A call of [send_action] is one entry of the record.  Calls of the two
      threads that overlap in time are the subject of the module
      [Threads], where a call is entered and returned from in two steps. *)

From Stdlib Require Import ZArith QArith Bool List String Ascii Lia.
Import ListNotations.

Local Open Scope Z_scope.

(** ** Python helpers *)

Module Py.

(** A character of a [str] is its code point, and a [string] of the model
    is a [str] whose code points are all below 256; the table of
    [str.isspace] and the table of [str.lower] are those of Python 3 on
    these code points. *)

(** [str.isspace]: TAB..CR, FS..US, the blank, NEXT LINE (U+0085) and the
    no-break space (U+00A0). *)
Definition is_space (c : ascii) : bool :=
  let n := nat_of_ascii c in
  (((9 <=? n) && (n <=? 13)) || ((28 <=? n) && (n <=? 32))
   || (n =? 133) || (n =? 160))%nat.

(** [str.lower] of one character: [A]..[Z], and the capital letters
    U+00C0..U+00DE of Latin-1 but for the multiplication sign U+00D7, are
    32 code points below their small letters. *)
Definition lower_char (c : ascii) : ascii :=
  let n := nat_of_ascii c in
  if (((65 <=? n) && (n <=? 90))
      || ((192 <=? n) && (n <=? 222) && negb (n =? 215)))%nat
  then ascii_of_nat (n + 32) else c.

Fixpoint lower (s : string) : string :=
  match s with
  | EmptyString => EmptyString
  | String c s' => String (lower_char c) (lower s')
  end.

Fixpoint lstrip (s : string) : string :=
  match s with
  | EmptyString => EmptyString
  | String c s' => if is_space c then lstrip s' else s
  end.

Fixpoint rstrip (s : string) : string :=
  match s with
  | EmptyString => EmptyString
  | String c s' =>
      match rstrip s' with
      | EmptyString => if is_space c then EmptyString else String c EmptyString
      | r => String c r
      end
  end.

(** [s.strip()] *)
Definition strip (s : string) : string := rstrip (lstrip s).

(** [range(lo, hi)] over integers. *)
Definition range (lo hi : Z) : list Z :=
  map (fun i => lo + Z.of_nat i) (seq 0 (Z.to_nat (hi - lo))).

(** [max(a, b)] of two numbers: the first argument unless the second is
    strictly larger. *)
Definition max (a b : Q) : Q := if Qlt_le_dec a b then b else a.

(** [min(a, b)] on integers: the first argument unless the second is
    strictly smaller. *)
Definition min (a b : Z) : Z := if b <? a then b else a.

(** A [dict] with string keys in insertion order; assignment to a key that
    is present overwrites its value in place. *)
Definition dict (V : Type) : Type := list (string * V).

Fixpoint dict_set {V : Type} (k : string) (v : V) (d : dict V) : dict V :=
  match d with
  | [] => [(k, v)]
  | (k', v') :: d' =>
      if String.eqb k k' then (k, v) :: d' else (k', v') :: dict_set k v d'
  end.

(** [d[k]]; [None] stands for [KeyError]. *)
Fixpoint dict_get {V : Type} (k : string) (d : dict V) : option V :=
  match d with
  | [] => None
  | (k', v) :: d' => if String.eqb k k' then Some v else dict_get k d'
  end.

(** [l[i]] on a list: a negative index counts from the end; [None] stands
    for [IndexError]. *)
Definition getitem {A : Type} (l : list A) (i : Z) : option A :=
  let n := Z.of_nat (List.length l) in
  if (i <? 0)%Z then
    if (n + i <? 0)%Z then None else nth_error l (Z.to_nat (n + i))
  else nth_error l (Z.to_nat i).

End Py.

(** ** The frame scheduler

    [sleep_time = max(1 / self.dataset.fps - dt_s, 0)]
    (demo_episode_replay.py, replay_moving_tape_dataset.py). *)

Definition target_period (fps : Z) : Q := 1 / inject_Z fps.

Definition sleep_time (fps : Z) (dt_s : Q) : Q :=
  Py.max (target_period fps - dt_s) 0.

(** ** Episode range of [setup_robot_and_dataset]
    (replay_all_episodes.py, lines 97-111) *)

Inductive value_error : Type :=
| RobotNotConnected
| StartGeTotal (start_ep total : Z)
| StartGtEnd (start_ep end_ep : Z)
| NegativeSleep.                   (* "sleep length must be non-negative" *)

(** [end_ep] before the validation block. *)
Definition default_end (cfg_end total : Z) : Z :=
  if cfg_end >=? 0 then cfg_end else total - 1.

(** The validation block: the error raised, or the pair
    [(self.current_episode, self.end_episode)]. *)
Definition episode_range (cfg_start cfg_end total : Z)
  : value_error + Z * Z :=
  let start_ep := cfg_start in
  let end_ep := default_end cfg_end total in
  if start_ep >=? total then inl (StartGeTotal start_ep total)
  else
    let end_ep := if end_ep >=? total then total - 1 else end_ep in
    if start_ep >? end_ep then inl (StartGtEnd start_ep end_ep)
    else inr (start_ep, end_ep).

(** The end of the range as the validation block leaves it. *)
Definition normalized_end (cfg_end total : Z) : Z :=
  let end_ep := default_end cfg_end total in
  if end_ep >=? total then total - 1 else end_ep.

(** ** Exceptions, operator input, actions and the record of a run *)

Inductive exn : Type :=
| ValueError (e : value_error)
| RobotError (msg : string)        (* raised inside the robot driver *)
| DatasetError (msg : string)      (* raised by [LeRobotDataset(...)] *)
| ZeroDivisionError
| IndexError
| KeyError (key : string)
| EOFError
| AttributeError.                  (* a field of [None] *)

(** What one call of [input()] yields. *)
Inductive input_item : Type :=
| Line (s : string)
| EOF                              (* [EOFError] *)
| Interrupt.                       (* [KeyboardInterrupt] *)

(** The dictionary passed to [send_action]: joint name to target. *)
Definition action : Type := Py.dict Q.

(** Where a call of [send_action] comes from. *)
Inductive sender : Type :=
| Frame (episode_idx : Z) (frame_idx : nat)
| Home.

(** The places where the main thread reads [self.should_stop]. *)
Inductive checkpoint : Type :=
| EpisodeTop          (* [if self.should_stop: break] in [run] *)
| FrameTop            (* first test of the frame loop *)
| PausePoll           (* condition of the pause loop *)
| AfterPause          (* second test of the frame loop *)
| BetweenEpisodes     (* [episode_idx < end and not self.should_stop] *)
| WaitPoll            (* [while not self.should_stop] between episodes *)
| Final.              (* [if not self.should_stop] after the loop *)

Inductive message : Type :=
| MsgStopping                       (* "Stopping replay..." *)
| MsgPaused                         (* "Replay paused" *)
| MsgResumed                        (* "Replay resumed" *)
| MsgMovingNext                     (* "Moving to next episode..." *)
| MsgAlreadyPlaying                 (* "Already playing, use 'p' to pause first" *)
| MsgSkipping                       (* "Skipping current episode..." *)
| MsgHelp                           (* the text of [print_help] *)
| MsgUnknown                        (* "Unknown command. Type 'h' for help." *)
| MsgResetting                      (* "Resetting robot to home position..." *)
| MsgMovingHome                     (* "Moving to home position..." *)
| MsgResetDone                      (* "Robot reset to home position" *)
| MsgResetError (e : exn)           (* "Error resetting robot: {e}" *)
| MsgSetup (start_ep end_ep : Z)    (* the banner of [setup_robot_and_dataset] *)
| MsgDatasetLoaded
| MsgDatasetError (e : exn)         (* "Error loading dataset: {e}" *)
| MsgRobotConnected
| MsgConnectError (e : exn)         (* "Error connecting to robot: {e}" *)
| MsgStarting                       (* "Starting episode replay..." *)
| MsgEpisode (episode_idx : Z)      (* "Episode {i+1}/{n} ..." *)
| MsgReplaying (episode_idx : Z)    (* "Replaying Episode {i+1}/{n}" *)
| MsgEpisodeFrames (episode_idx : Z) (num_frames : nat)
| MsgSafety                         (* the safety warning before an episode *)
| MsgCancelled                      (* "Replay cancelled by user" *)
| MsgProgress (frame_idx : nat)     (* "Frame {i+1}/{n} (..%)" *)
| MsgSendError (e : exn)            (* "Error sending action to robot: {e}" *)
| MsgEpisodeCompleted (episode_idx : Z)
| MsgWaiting (delay : Q)            (* "Waiting {d}s before next episode..." *)
| MsgPressEnter                     (* "Press Enter to continue ..." *)
| MsgAllCompleted                   (* "All episodes completed successfully!" *)
| MsgStoppedByUser                  (* "Replay stopped by user." *)
| MsgError (e : exn)                (* "Error during replay: {e}" *)
| MsgRobotDisconnected.             (* "Robot disconnected." *)

(** One entry per interaction with a collaborator, in the order of
    occurrence. *)
Inductive event : Type :=
| EMakeRobot
| EConnect
| EDisconnect
| ESendAction (src : sender) (a : action) (failure : option exn)
| ELoadDataset (episodes : option Z)
| ESay (episode_idx : Z)                  (* [log_say(..., blocking=True)] *)
| EPrompt (answer : input_item)           (* [input()] on the main thread *)
| ESleep (secs : Q)                       (* [time.sleep] *)
| EBusyWait (secs : Q)                    (* [busy_wait] *)
| EReadStop (cp : checkpoint) (v : bool)  (* main thread reads [should_stop] *)
| EReadPaused (v : bool)                  (* main thread reads [is_paused] *)
| EPrint (m : message).

(** ** Collaborators and configuration *)

(** One episode as [LeRobotDataset(..., episodes=[i])] presents it:
    [features["action"]["names"]] and the rows of the action column. *)
Record EpisodeData : Type := mkEpisodeData {
  action_names : list string;
  actions : list (list Q)
}.

Definition num_frames (d : EpisodeData) : nat := List.length (actions d).

Record DatasetMeta : Type := mkDatasetMeta {
  num_episodes : Z;
  fps : Z
}.

(** The outside of the program: robot driver, dataset store, clock, and what
    the main thread's own [input()] (the safety prompt of
    replay_with_real_robot.py) receives before each episode.
    [connected_after_connect] is what the driver reports as [is_connected]
    after [connect()] returned or raised; as with [MockRobot], it stays so
    until [disconnect()].  [send_result] may depend on everything that
    happened before the call. *)
Record Env : Type := mkEnv {
  make_robot_raises : option exn;
  connect_raises : option exn;
  connected_after_connect : bool;
  send_result : list event -> action -> option exn;
  open_dataset : exn + DatasetMeta;
  open_episode : Z -> exn + EpisodeData;
  prompt_answer : Z -> input_item;
  elapsed : Z -> nat -> Q
}.

Record DatasetReplayConfig : Type := mkDatasetReplayConfig {
  repo_id : string;
  cfg_fps : Z;
  start_episode : Z;
  cfg_end_episode : Z
}.

Record ReplayAllConfig : Type := mkReplayAllConfig {
  dataset_cfg : DatasetReplayConfig;
  play_sounds : bool;
  episode_delay : Q;
  auto_advance : bool
}.

(** ** The world: the replayer object, the robot, the terminal, the record *)

Inductive thread_status : Type :=
| NotStarted
| Listening       (* inside the [while] loop of [input_listener] *)
| Exited.

Record World : Type := mkWorld {
  current_episode : Z;
  end_episode : Z;
  total_episodes : Z;
  is_paused : bool;
  should_stop : bool;
  robot : option bool;             (* [None], or a robot and its [is_connected] *)
  dataset : option DatasetMeta;
  input_thread : thread_status;
  stdin : list (list input_item);
  trace : list event
}.

Definition emit (e : event) (w : World) : World :=
  mkWorld (current_episode w) (end_episode w) (total_episodes w) (is_paused w)
    (should_stop w) (robot w) (dataset w) (input_thread w) (stdin w)
    (trace w ++ [e]).

Definition set_is_paused (b : bool) (w : World) : World :=
  mkWorld (current_episode w) (end_episode w) (total_episodes w) b
    (should_stop w) (robot w) (dataset w) (input_thread w) (stdin w) (trace w).

Definition set_should_stop (b : bool) (w : World) : World :=
  mkWorld (current_episode w) (end_episode w) (total_episodes w) (is_paused w)
    b (robot w) (dataset w) (input_thread w) (stdin w) (trace w).

Definition set_robot (r : option bool) (w : World) : World :=
  mkWorld (current_episode w) (end_episode w) (total_episodes w) (is_paused w)
    (should_stop w) r (dataset w) (input_thread w) (stdin w) (trace w).

Definition set_dataset (d : option DatasetMeta) (w : World) : World :=
  mkWorld (current_episode w) (end_episode w) (total_episodes w) (is_paused w)
    (should_stop w) (robot w) d (input_thread w) (stdin w) (trace w).

Definition set_input_thread (t : thread_status) (w : World) : World :=
  mkWorld (current_episode w) (end_episode w) (total_episodes w) (is_paused w)
    (should_stop w) (robot w) (dataset w) t (stdin w) (trace w).

Definition set_stdin (s : list (list input_item)) (w : World) : World :=
  mkWorld (current_episode w) (end_episode w) (total_episodes w) (is_paused w)
    (should_stop w) (robot w) (dataset w) (input_thread w) s (trace w).

Definition set_total_episodes (total : Z) (w : World) : World :=
  mkWorld (current_episode w) (end_episode w) total (is_paused w)
    (should_stop w) (robot w) (dataset w) (input_thread w) (stdin w) (trace w).

Definition set_range (cur fin : Z) (w : World) : World :=
  mkWorld cur fin (total_episodes w) (is_paused w) (should_stop w) (robot w)
    (dataset w) (input_thread w) (stdin w) (trace w).

(** [__init__] of the replayers. *)
Definition init_world (start_ep : Z) (schedule : list (list input_item))
  : World :=
  mkWorld start_ep 0 0 false false None None NotStarted schedule [].

(** ** The monad of the main thread *)

Inductive result (A : Type) : Type :=
| Ok (a : A)
| Raise (e : exn)
| Hang.

Arguments Ok {A} a.
Arguments Raise {A} e.
Arguments Hang {A}.

Definition M (A : Type) : Type := World -> result A * World.

Definition ret {A : Type} (a : A) : M A := fun w => (Ok a, w).

Definition bind {A B : Type} (m : M A) (f : A -> M B) : M B :=
  fun w =>
    match m w with
    | (Ok a, w') => f a w'
    | (Raise e, w') => (Raise e, w')
    | (Hang, w') => (Hang, w')
    end.

Definition raise {A : Type} (e : exn) : M A := fun w => (Raise e, w).

Definition hang {A : Type} : M A := fun w => (Hang, w).

(** [try: body except Exception as e: handler(e)] *)
Definition try_except {A : Type} (body : M A) (handler : exn -> M A) : M A :=
  fun w =>
    match body w with
    | (Raise e, w') => handler e w'
    | other => other
    end.

(** [try: body finally: cleanup].  A body that hangs never reaches the
    cleanup; an exception of the cleanup replaces the body's result. *)
Definition try_finally {A : Type} (body : M A) (cleanup : M unit) : M A :=
  fun w =>
    match body w with
    | (Hang, w') => (Hang, w')
    | (r, w') =>
        match cleanup w' with
        | (Ok _, w'') => (r, w'')
        | (Raise e, w'') => (Raise e, w'')
        | (Hang, w'') => (Hang, w'')
        end
    end.

Declare Scope replay_scope.
Delimit Scope replay_scope with replay.

Notation "x <- m ;; k" := (bind m (fun x => k))
  (at level 100, m at next level, right associativity) : replay_scope.
Notation "m ;; k" := (bind m (fun _ => k))
  (at level 100, right associativity) : replay_scope.

Local Open Scope replay_scope.

Definition get {A : Type} (f : World -> A) : M A := fun w => (Ok (f w), w).

Definition modify (f : World -> World) : M unit := fun w => (Ok tt, f w).

Definition log (e : event) : M unit := modify (emit e).

Definition print (m : message) : M unit := log (EPrint m).

(** [time.sleep(secs)]: a negative argument raises [ValueError] before any
    time passes. *)
Definition sleep (secs : Q) : M unit :=
  if Qle_bool 0 secs then log (ESleep secs)
  else raise (ValueError NegativeSleep).

Definition busy_wait (secs : Q) : M unit := log (EBusyWait secs).

(** ** The input thread

    The four scripts carry the same [input_listener]; the one of
    replay_with_real_robot.py has one more branch, for ['r'] or ['reset'],
    given here by [on_reset]. *)

Local Open Scope string_scope.
Local Open Scope list_scope.

(** [cmd = input().strip().lower()] *)
Definition command (s : string) : string := Py.lower (Py.strip s).

(** [cmd == a or cmd == b] *)
Definition is_cmd (cmd a b : string) : bool :=
  String.eqb cmd a || String.eqb cmd b.

(** The [if]/[elif] chain on one command.  [break] leaves the loop: the
    thread is [Exited]. *)
Definition handle_command (on_reset : option (World -> World))
    (cmd : string) (w : World) : World :=
  if is_cmd cmd "q" "quit" then
    emit (EPrint MsgStopping) (set_should_stop true w)
  else if is_cmd cmd "p" "pause" then
    let w1 := set_is_paused (negb (is_paused w)) w in
    emit (EPrint (if is_paused w1 then MsgPaused else MsgResumed)) w1
  else if is_cmd cmd "n" "next" then
    if is_paused w then emit (EPrint MsgMovingNext) (set_is_paused false w)
    else emit (EPrint MsgAlreadyPlaying) w
  else if is_cmd cmd "s" "skip" then
    set_input_thread Exited (emit (EPrint MsgSkipping) w)
  else if is_cmd cmd "h" "help" then
    emit (EPrint MsgHelp) w
  else
    match on_reset with
    | Some reset_robot =>
        if is_cmd cmd "r" "reset" then
          reset_robot (emit (EPrint MsgResetting) w)
        else emit (EPrint MsgUnknown) w
    | None => emit (EPrint MsgUnknown) w
    end.

(** The body of the [try] with its two [except] clauses. *)
Definition handle_item (on_reset : option (World -> World))
    (item : input_item) (w : World) : World :=
  match item with
  | Line s => handle_command on_reset (command s) w
  | EOF => set_input_thread Exited w
  | Interrupt => set_input_thread Exited (set_should_stop true w)
  end.

(** [while not self.should_stop: ...] on the items the terminal offers;
    with no item left the thread is blocked in [input()]. *)
Fixpoint input_listener (on_reset : option (World -> World))
    (items : list input_item) (w : World) : World :=
  match input_thread w with
  | Listening =>
      if should_stop w then set_input_thread Exited w
      else
        match items with
        | [] => w
        | item :: rest =>
            input_listener on_reset rest (handle_item on_reset item w)
        end
  | _ => w
  end.

(** [threading.Thread(target=input_listener, daemon=True).start()] *)
Definition start_input_listener : M unit :=
  modify (set_input_thread Listening).

(** The input thread runs on the next batch of the schedule. *)
Definition deliver (on_reset : option (World -> World)) (w : World) : World :=
  match stdin w with
  | [] => w
  | batch :: rest => input_listener on_reset batch (set_stdin rest w)
  end.

(** The main thread reads a shared flag. *)
Definition read_should_stop (on_reset : option (World -> World))
    (cp : checkpoint) : M bool :=
  fun w =>
    let w1 := deliver on_reset w in
    (Ok (should_stop w1), emit (EReadStop cp (should_stop w1)) w1).

Definition read_is_paused (on_reset : option (World -> World)) : M bool :=
  fun w =>
    let w1 := deliver on_reset w in
    (Ok (is_paused w1), emit (EReadPaused (is_paused w1)) w1).

(** Number of polls after which the schedule is certainly exhausted. *)
Definition poll_budget : M nat := get (fun w => List.length (stdin w)).

(** ** Calls to the collaborators *)

Section Collaborators.

Variable env : Env.

(** [self.robot = make_robot_from_config(...)] *)
Definition make_robot_from_config : M unit :=
  log EMakeRobot ;;
  match make_robot_raises env with
  | Some e => raise e
  | None => modify (set_robot (Some false))
  end.

(** [self.robot.connect()] *)
Definition connect : M unit :=
  log EConnect ;;
  modify (set_robot (Some (connected_after_connect env))) ;;
  match connect_raises env with
  | Some e => raise e
  | None => ret tt
  end.

(** [self.robot.is_connected]; the robot is [None] before
    [make_robot_from_config]. *)
Definition is_connected : M bool :=
  r <- get robot ;;
  match r with
  | Some c => ret c
  | None => raise AttributeError
  end.

(** [self.robot.disconnect()] *)
Definition disconnect : M unit :=
  log EDisconnect ;; modify (set_robot (Some false)).

(** [self.robot.send_action(action)] *)
Definition send_action (src : sender) (a : action) : M unit :=
  fun w =>
    match send_result env (trace w) a with
    | None => (Ok tt, emit (ESendAction src a None) w)
    | Some e => (Raise e, emit (ESendAction src a (Some e)) w)
    end.

(** [LeRobotDataset(repo_id, root=root)] *)
Definition LeRobotDataset : M DatasetMeta :=
  log (ELoadDataset None) ;;
  match open_dataset env with
  | inl e => raise e
  | inr meta => ret meta
  end.

(** [LeRobotDataset(repo_id, root=root, episodes=[episode_idx])] *)
Definition LeRobotDataset_episode (episode_idx : Z) : M EpisodeData :=
  log (ELoadDataset (Some episode_idx)) ;;
  match open_episode env episode_idx with
  | inl e => raise e
  | inr d => ret d
  end.

(** [self.dataset.fps] *)
Definition dataset_fps : M Z :=
  d <- get dataset ;;
  match d with
  | Some meta => ret (fps meta)
  | None => raise AttributeError
  end.

(** [self.dataset.num_episodes] *)
Definition dataset_num_episodes : M Z :=
  d <- get dataset ;;
  match d with
  | Some meta => ret (num_episodes meta)
  | None => raise AttributeError
  end.

(** [1 / fps - dt_s] *)
Definition frame_budget (fps_ : Z) (dt_s : Q) : M Q :=
  if (fps_ =? 0)%Z then raise ZeroDivisionError
  else ret (target_period fps_ - dt_s)%Q.

End Collaborators.

(** [action = {}; for i, name in enumerate(names): action[name] = row[i]] *)
Fixpoint build_action (names : list string) (i : nat) (row : list Q)
    (acc : action) : option action :=
  match names with
  | [] => Some acc
  | name :: rest =>
      match nth_error row i with
      | Some v => build_action rest (S i) row (Py.dict_set name v acc)
      | None => None
      end
  end.

Definition make_action (names : list string) (row : list Q) : M action :=
  match build_action names 0 row [] with
  | Some a => ret a
  | None => raise IndexError
  end.

(** [while self.is_paused and not self.should_stop: time.sleep(0.1)] *)
Fixpoint pause_loop (on_reset : option (World -> World)) (budget : nat)
  : M unit :=
  p <- read_is_paused on_reset ;;
  if p then
    s <- read_should_stop on_reset PausePoll ;;
    if s then ret tt
    else
      sleep (1 # 10)%Q ;;
      match budget with
      | O => hang
      | S k => pause_loop on_reset k
      end
  else ret tt.

(** [while not self.should_stop:
       time.sleep(0.1)
       if not self.is_paused: break] *)
Fixpoint wait_loop (on_reset : option (World -> World)) (budget : nat)
  : M unit :=
  s <- read_should_stop on_reset WaitPoll ;;
  if s then ret tt
  else
    sleep (1 # 10)%Q ;;
    p <- read_is_paused on_reset ;;
    if negb p then ret tt
    else
      match budget with
      | O => hang
      | S k => wait_loop on_reset k
      end.

(** ** replay_all_episodes.py: [EpisodeReplayer] *)

Module ReplayAll.

Section Replayer.

Variable env : Env.
Variable cfg : ReplayAllConfig.

(** This script has no reset command. *)
Definition on_reset : option (World -> World) := None.

Definition setup_robot_and_dataset : M unit :=
  make_robot_from_config env ;;
  connect env ;;
  c <- is_connected ;;
  if negb c then raise (ValueError RobotNotConnected)
  else
    meta <- LeRobotDataset env ;;
    modify (set_dataset (Some meta)) ;;
    modify (set_total_episodes (num_episodes meta)) ;;
    match episode_range (start_episode (dataset_cfg cfg))
            (cfg_end_episode (dataset_cfg cfg)) (num_episodes meta) with
    | inl e => raise (ValueError e)
    | inr (start_ep, end_ep) =>
        modify (set_range start_ep end_ep) ;;
        print (MsgSetup start_ep end_ep)
    end.

(** [for frame_idx in range(num_frames): ...] followed by the two lines
    after the loop; [rows] are the frames still to play and [frame_idx] the
    index of the first of them. *)
Fixpoint frame_loop (episode_idx : Z) (names : list string)
    (rows : list (list Q)) (frame_idx : nat) : M bool :=
  match rows with
  | [] =>
      print (MsgEpisodeCompleted episode_idx) ;;
      ret true
  | row :: rest =>
      s <- read_should_stop on_reset FrameTop ;;
      if s then print MsgStopping ;; ret false
      else
        budget <- poll_budget ;;
        pause_loop on_reset budget ;;
        s <- read_should_stop on_reset AfterPause ;;
        if s then ret false
        else
          a <- make_action names row ;;
          send_action env (Frame episode_idx frame_idx) a ;;
          fps_ <- dataset_fps ;;
          secs <- frame_budget fps_ (elapsed env episode_idx frame_idx) ;;
          busy_wait secs ;;
          (if (frame_idx mod 10 =? 0)%nat then print (MsgProgress frame_idx)
           else ret tt) ;;
          frame_loop episode_idx names rest (S frame_idx)
  end.

Definition replay_single_episode (episode_idx : Z) : M bool :=
  print (MsgReplaying episode_idx) ;;
  episode_dataset <- LeRobotDataset_episode env episode_idx ;;
  print (MsgEpisodeFrames episode_idx (num_frames episode_dataset)) ;;
  (if play_sounds cfg then log (ESay episode_idx) else ret tt) ;;
  frame_loop episode_idx (action_names episode_dataset)
    (actions episode_dataset) 0.

(** The delay between two episodes. *)
Definition between_episodes (episode_idx : Z) : M unit :=
  end_ep <- get end_episode ;;
  if (episode_idx <? end_ep)%Z then
    s <- read_should_stop on_reset BetweenEpisodes ;;
    if negb s then
      if auto_advance cfg then
        print (MsgWaiting (episode_delay cfg)) ;;
        sleep (episode_delay cfg)
      else
        print MsgPressEnter ;;
        budget <- poll_budget ;;
        wait_loop on_reset budget
    else ret tt
  else ret tt.

(** [for episode_idx in range(self.current_episode, self.end_episode + 1)];
    [break] ends the recursion. *)
Fixpoint episode_loop (episodes : list Z) : M unit :=
  match episodes with
  | [] => ret tt
  | episode_idx :: rest =>
      s <- read_should_stop on_reset EpisodeTop ;;
      if s then ret tt
      else
        print (MsgEpisode episode_idx) ;;
        success <- replay_single_episode episode_idx ;;
        if negb success then ret tt
        else
          between_episodes episode_idx ;;
          episode_loop rest
  end.

(** The episode loop of [run] with the lines around it. *)
Definition play : M unit :=
  print MsgStarting ;;
  first_ep <- get current_episode ;;
  end_ep <- get end_episode ;;
  episode_loop (Py.range first_ep (end_ep + 1)) ;;
  s <- read_should_stop on_reset Final ;;
  if negb s then print MsgAllCompleted
  else print MsgStoppedByUser.

(** The body of the [try] of [run]. *)
Definition run_body : M unit :=
  setup_robot_and_dataset ;;
  start_input_listener ;;
  play.

(** The [finally] of [run]: [if self.robot and self.robot.is_connected]. *)
Definition cleanup : M unit :=
  r <- get robot ;;
  match r with
  | Some true => disconnect ;; print MsgRobotDisconnected
  | _ => ret tt
  end.

Definition run : M unit :=
  try_finally
    (try_except run_body (fun e => print (MsgError e)))
    cleanup.

(** A whole run of the script from [EpisodeReplayer(cfg)] on. *)
Definition replay_all_episodes (schedule : list (list input_item))
  : result unit * World :=
  run (init_world (start_episode (dataset_cfg cfg)) schedule).

End Replayer.

End ReplayAll.

(** ** demo_episode_replay.py: [MockDataset], [MockRobot], [EpisodeReplayer] *)

Module Demo.

(** [MockAction(joint1=0.1 * frame_idx + ep_idx * 0.5, ...)] *)
Definition MockAction (ep_idx frame_idx : nat) : action :=
  let f := inject_Z (Z.of_nat frame_idx) in
  let e := inject_Z (Z.of_nat ep_idx) in
  [ ("joint1", (1 # 10) * f + e * (1 # 2));
    ("joint2", (2 # 10) * f + e * (3 # 10));
    ("joint3", (15 # 100) * f + e * (4 # 10));
    ("joint4", (25 # 100) * f + e * (2 # 10));
    ("joint5", (3 # 10) * f + e * (6 # 10));
    ("joint6", (5 # 100) * f + e * (1 # 10)) ]%Q.

Record MockDataset : Type := mkMockDataset {
  mock_num_episodes : nat;
  frames_per_episode : nat;
  mock_fps : Z;
  episodes : list (list action)
}.

(** [MockDataset.__init__] *)
Definition new_MockDataset (n frames : nat) : MockDataset :=
  mkMockDataset n frames 30
    (map (fun ep_idx => map (MockAction ep_idx) (seq 0 frames)) (seq 0 n)).

(** [MockDataset.get_episode]: [self.episodes[episode_idx]]. *)
Definition get_episode (d : MockDataset) (episode_idx : Z)
  : M (list action) :=
  match Py.getitem (episodes d) episode_idx with
  | Some ep => ret ep
  | None => raise IndexError
  end.

(** [MockRobot]: [connect] sets [is_connected], [send_action] stores the
    action, neither raises. *)
Definition MockRobot (clock : Z -> nat -> Q) : Env :=
  mkEnv None None true (fun _ _ => None)
    (inl (DatasetError "unused")) (fun _ => inl (DatasetError "unused"))
    (fun _ => EOF) clock.

Section Replayer.

Variable mock_dataset : MockDataset.
Variable clock : Z -> nat -> Q.

Definition on_reset : option (World -> World) := None.

Fixpoint frame_loop (episode_idx : Z) (rows : list action) (frame_idx : nat)
  : M bool :=
  match rows with
  | [] =>
      print (MsgEpisodeCompleted episode_idx) ;;
      ret true
  | a :: rest =>
      s <- read_should_stop on_reset FrameTop ;;
      if s then print MsgStopping ;; ret false
      else
        budget <- poll_budget ;;
        pause_loop on_reset budget ;;
        s <- read_should_stop on_reset AfterPause ;;
        if s then ret false
        else
          send_action (MockRobot clock) (Frame episode_idx frame_idx) a ;;
          (if (frame_idx mod 10 =? 0)%nat then print (MsgProgress frame_idx)
           else ret tt) ;;
          (if (mock_fps mock_dataset =? 0)%Z then raise ZeroDivisionError
           else ret tt) ;;
          sleep (sleep_time (mock_fps mock_dataset)
                   (clock episode_idx frame_idx)) ;;
          frame_loop episode_idx rest (S frame_idx)
  end.

Definition replay_single_episode (episode_idx : Z) : M bool :=
  print (MsgReplaying episode_idx) ;;
  acts <- get_episode mock_dataset episode_idx ;;
  print (MsgEpisodeFrames episode_idx (List.length acts)) ;;
  frame_loop episode_idx acts 0.

Fixpoint episode_loop (episodes : list Z) : M unit :=
  match episodes with
  | [] => ret tt
  | episode_idx :: rest =>
      s <- read_should_stop on_reset EpisodeTop ;;
      if s then ret tt
      else
        print (MsgEpisode episode_idx) ;;
        success <- replay_single_episode episode_idx ;;
        if negb success then ret tt
        else
          (if (episode_idx <? Z.of_nat (mock_num_episodes mock_dataset) - 1)%Z
           then
             s <- read_should_stop on_reset BetweenEpisodes ;;
             if negb s then print (MsgWaiting 2) ;; sleep 2 else ret tt
           else ret tt) ;;
          episode_loop rest
  end.

Definition run_body : M unit :=
  connect (MockRobot clock) ;;
  c <- is_connected ;;
  if negb c then raise (ValueError RobotNotConnected)
  else
    start_input_listener ;;
    print MsgStarting ;;
    episode_loop (Py.range 0 (Z.of_nat (mock_num_episodes mock_dataset))) ;;
    s <- read_should_stop on_reset Final ;;
    if negb s then print MsgAllCompleted
    else print MsgStoppedByUser.

(** [finally: if self.robot.is_connected: self.robot.disconnect()] *)
Definition cleanup : M unit :=
  c <- is_connected ;;
  if c then disconnect else ret tt.

Definition run : M unit :=
  try_finally
    (try_except run_body (fun e => print (MsgError e)))
    cleanup.

(** [EpisodeReplayer(dataset, MockRobot()).run()] *)
Definition demo (schedule : list (list input_item)) : result unit * World :=
  run (set_robot (Some false) (init_world 0 schedule)).

End Replayer.

End Demo.

(** ** replay_with_real_robot.py: [RealRobotEpisodeReplayer] *)

Module RealRobot.

(** The safe home position of the bimanual SO101. *)
Definition home_action : action :=
  [ ("left_shoulder_pan.pos", 0);
    ("left_shoulder_lift.pos", - (90));
    ("left_elbow_flex.pos", 90);
    ("left_wrist_flex.pos", 0);
    ("left_wrist_roll.pos", 0);
    ("left_gripper.pos", 0);
    ("right_shoulder_pan.pos", 0);
    ("right_shoulder_lift.pos", - (90));
    ("right_elbow_flex.pos", 90);
    ("right_wrist_flex.pos", 0);
    ("right_wrist_roll.pos", 0);
    ("right_gripper.pos", 0) ]%Q.

(** The joints that the progress line of the frame loop looks up. *)
Definition progress_keys : list string :=
  [ "left_shoulder_pan.pos"; "left_shoulder_lift.pos"; "left_elbow_flex.pos";
    "right_shoulder_pan.pos"; "right_shoulder_lift.pos";
    "right_elbow_flex.pos" ].

Definition has_key (a : action) (k : string) : bool :=
  existsb (fun kv => String.eqb (fst kv) k) a.

(** [action[k]] for each key of the progress line, in order. *)
Fixpoint lookup_all (a : action) (keys : list string) : M unit :=
  match keys with
  | [] => ret tt
  | k :: rest => if has_key a k then lookup_all a rest else raise (KeyError k)
  end.

Section Replayer.

Variable env : Env.

(** [reset_robot]: one send of the home position, then two seconds of
    settling; every exception is caught and reported. *)
Definition reset_robot : M unit :=
  try_except
    (print MsgMovingHome ;;
     send_action env Home home_action ;;
     sleep 2 ;;
     print MsgResetDone)
    (fun e => print (MsgResetError e)).

(** The input thread calls [self.reset_robot()] itself. *)
Definition on_reset : option (World -> World) :=
  Some (fun w => snd (reset_robot w)).

(** [LeRobotDataset]: [True], or [False] after reporting the exception. *)
Definition load_dataset : M bool :=
  try_except
    (meta <- LeRobotDataset env ;;
     modify (set_dataset (Some meta)) ;;
     print MsgDatasetLoaded ;;
     ret true)
    (fun e => print (MsgDatasetError e) ;; ret false).

(** [connect_robot]: [True], or [False] after reporting the exception. *)
Definition connect_robot : M bool :=
  try_except
    (make_robot_from_config env ;;
     connect env ;;
     c <- is_connected ;;
     if negb c then raise (ValueError RobotNotConnected)
     else print MsgRobotConnected ;; ret true)
    (fun e => print (MsgConnectError e) ;; ret false).

Fixpoint frame_loop (episode_idx : Z) (names : list string)
    (rows : list (list Q)) (frame_idx : nat) : M bool :=
  match rows with
  | [] =>
      print (MsgEpisodeCompleted episode_idx) ;;
      ret true
  | row :: rest =>
      s <- read_should_stop on_reset FrameTop ;;
      if s then print MsgStopping ;; ret false
      else
        budget <- poll_budget ;;
        pause_loop on_reset budget ;;
        s <- read_should_stop on_reset AfterPause ;;
        if s then ret false
        else
          a <- make_action names row ;;
          sent <- try_except
                    (send_action env (Frame episode_idx frame_idx) a ;;
                     ret true)
                    (fun e => print (MsgSendError e) ;; ret false) ;;
          if negb sent then ret false
          else
            (if (frame_idx mod 10 =? 0)%nat then
               lookup_all a progress_keys ;; print (MsgProgress frame_idx)
             else ret tt) ;;
            fps_ <- dataset_fps ;;
            secs <- frame_budget fps_ (elapsed env episode_idx frame_idx) ;;
            busy_wait secs ;;
            frame_loop episode_idx names rest (S frame_idx)
  end.

(** The safety prompt: [input()] on the main thread; only
    [KeyboardInterrupt] is caught. *)
Definition safety_prompt (episode_idx : Z) : M bool :=
  print MsgSafety ;;
  log (EPrompt (prompt_answer env episode_idx)) ;;
  match prompt_answer env episode_idx with
  | Line _ => ret true
  | Interrupt => print MsgCancelled ;; ret false
  | EOF => raise EOFError
  end.

Definition replay_single_episode (episode_idx : Z) : M bool :=
  print (MsgReplaying episode_idx) ;;
  episode_dataset <- LeRobotDataset_episode env episode_idx ;;
  print (MsgEpisodeFrames episode_idx (num_frames episode_dataset)) ;;
  go <- safety_prompt episode_idx ;;
  if negb go then ret false
  else
    frame_loop episode_idx (action_names episode_dataset)
      (actions episode_dataset) 0.

Section Run.

Variable start_episode_arg : Z.
Variable end_episode_arg : option Z.
Variable auto_advance_arg : bool.
Variable episode_delay_arg : Q.

Definition between_episodes (episode_idx end_ep : Z) : M unit :=
  if (episode_idx <? end_ep)%Z then
    s <- read_should_stop on_reset BetweenEpisodes ;;
    if negb s then
      if auto_advance_arg then
        print (MsgWaiting episode_delay_arg) ;;
        sleep episode_delay_arg
      else
        print MsgPressEnter ;;
        budget <- poll_budget ;;
        wait_loop on_reset budget
    else ret tt
  else ret tt.

Fixpoint episode_loop (end_ep : Z) (episodes : list Z) : M unit :=
  match episodes with
  | [] => ret tt
  | episode_idx :: rest =>
      s <- read_should_stop on_reset EpisodeTop ;;
      if s then ret tt
      else
        print (MsgEpisode episode_idx) ;;
        success <- replay_single_episode episode_idx ;;
        if negb success then ret tt
        else
          between_episodes episode_idx end_ep ;;
          episode_loop end_ep rest
  end.

(** The episode loop of [run] with the lines around it, for a dataset of
    [n] episodes. *)
Definition play (n : Z) : M unit :=
  let end_ep :=
    match end_episode_arg with
    | None => (n - 1)%Z
    | Some e => Py.min e (n - 1)
    end in
  start_input_listener ;;
  print MsgStarting ;;
  episode_loop end_ep (Py.range start_episode_arg (end_ep + 1)) ;;
  s <- read_should_stop on_reset Final ;;
  if negb s then print MsgAllCompleted
  else print MsgStoppedByUser.

(** The body of the [try] of [run]; the two early [return]s end it. *)
Definition run_body : M unit :=
  loaded <- load_dataset ;;
  if negb loaded then ret tt
  else
    connected <- connect_robot ;;
    if negb connected then ret tt
    else
      n <- dataset_num_episodes ;;
      play n.

(** The [finally] of [run]: reset to home, then disconnect. *)
Definition cleanup : M unit :=
  r <- get robot ;;
  match r with
  | Some true =>
      print MsgResetting ;;
      reset_robot ;;
      disconnect ;;
      print MsgRobotDisconnected
  | _ => ret tt
  end.

Definition run : M unit :=
  try_finally
    (try_except run_body (fun e => print (MsgError e)))
    cleanup.

(** [RealRobotEpisodeReplayer(...).run(...)] *)
Definition replay (schedule : list (list input_item)) : result unit * World :=
  run (init_world 0 schedule).

End Run.

End Replayer.

End RealRobot.

(** ** replay_moving_tape_dataset.py: [DatasetEpisodeReplayer]

    The replayer without a robot: a frame is displayed instead of being
    sent, and the loop sleeps for [sleep_time]. *)

Module MovingTape.

Section Replayer.

Variable env : Env.

(** This script has no reset command. *)
Definition on_reset : option (World -> World) := None.

(** [load_dataset]: [True], or [False] after reporting the exception. *)
Definition load_dataset : M bool :=
  try_except
    (meta <- LeRobotDataset env ;;
     modify (set_dataset (Some meta)) ;;
     print MsgDatasetLoaded ;;
     ret true)
    (fun e => print (MsgDatasetError e) ;; ret false).

(** The frame loop: every tenth frame is displayed, which looks up six
    joints of the action; then the loop sleeps for the rest of the period. *)
Fixpoint frame_loop (episode_idx : Z) (names : list string)
    (rows : list (list Q)) (frame_idx : nat) : M bool :=
  match rows with
  | [] =>
      print (MsgEpisodeCompleted episode_idx) ;;
      ret true
  | row :: rest =>
      s <- read_should_stop on_reset FrameTop ;;
      if s then print MsgStopping ;; ret false
      else
        budget <- poll_budget ;;
        pause_loop on_reset budget ;;
        s <- read_should_stop on_reset AfterPause ;;
        if s then ret false
        else
          a <- make_action names row ;;
          (if (frame_idx mod 10 =? 0)%nat then
             RealRobot.lookup_all a RealRobot.progress_keys ;;
             print (MsgProgress frame_idx)
           else ret tt) ;;
          fps_ <- dataset_fps ;;
          (if (fps_ =? 0)%Z then raise ZeroDivisionError else ret tt) ;;
          sleep (sleep_time fps_ (elapsed env episode_idx frame_idx)) ;;
          frame_loop episode_idx names rest (S frame_idx)
  end.

Definition replay_single_episode (episode_idx : Z) : M bool :=
  print (MsgReplaying episode_idx) ;;
  episode_dataset <- LeRobotDataset_episode env episode_idx ;;
  print (MsgEpisodeFrames episode_idx (num_frames episode_dataset)) ;;
  frame_loop episode_idx (action_names episode_dataset)
    (actions episode_dataset) 0.

Section Run.

Variable start_episode_arg : Z.
Variable end_episode_arg : option Z.
Variable auto_advance_arg : bool.
Variable episode_delay_arg : Q.

Definition between_episodes (episode_idx end_ep : Z) : M unit :=
  if (episode_idx <? end_ep)%Z then
    s <- read_should_stop on_reset BetweenEpisodes ;;
    if negb s then
      if auto_advance_arg then
        print (MsgWaiting episode_delay_arg) ;;
        sleep episode_delay_arg
      else
        print MsgPressEnter ;;
        budget <- poll_budget ;;
        wait_loop on_reset budget
    else ret tt
  else ret tt.

Fixpoint episode_loop (end_ep : Z) (episodes : list Z) : M unit :=
  match episodes with
  | [] => ret tt
  | episode_idx :: rest =>
      s <- read_should_stop on_reset EpisodeTop ;;
      if s then ret tt
      else
        print (MsgEpisode episode_idx) ;;
        success <- replay_single_episode episode_idx ;;
        if negb success then ret tt
        else
          between_episodes episode_idx end_ep ;;
          episode_loop end_ep rest
  end.

(** The body of the [try] of [run]; the early [return] ends it. *)
Definition run_body : M unit :=
  loaded <- load_dataset ;;
  if negb loaded then ret tt
  else
    n <- dataset_num_episodes ;;
    let end_ep :=
      match end_episode_arg with
      | None => (n - 1)%Z
      | Some e => Py.min e (n - 1)
      end in
    start_input_listener ;;
    print MsgStarting ;;
    episode_loop end_ep (Py.range start_episode_arg (end_ep + 1)) ;;
    s <- read_should_stop on_reset Final ;;
    if negb s then print MsgAllCompleted
    else print MsgStoppedByUser.

(** [run]: there is no [finally]. *)
Definition run : M unit :=
  try_except run_body (fun e => print (MsgError e)).

(** [DatasetEpisodeReplayer(...).run(...)] *)
Definition replay (schedule : list (list input_item)) : result unit * World :=
  run (init_world 0 schedule).

End Run.

End Replayer.

End MovingTape.

(** ** The two threads at the robot (replay_with_real_robot.py)

    [reset_robot] runs on the input thread (line 97) and the frame loop on
    the main thread (line 204); both call [self.robot.send_action] on the
    same robot object, and the scripts use [threading] only to start the
    input thread.

    The record of a run has one entry for a call of [send_action], and it
    has the handlers of the input thread run from their first operation to
    their last at a read of a flag by the main thread.  That is every order
    in which the flags can be written and read, but it leaves out the
    executions in which one thread enters [send_action] while the other is
    inside it.  Here a call is two steps, its entry and its return, and the
    two threads take their steps in any order.  The code of a thread is read
    off the record of the function that it runs, each on its own; a thread
    that asks for a lock that is held waits. *)

Module Threads.

Inductive thread : Type :=
| MainThread
| InputThread.

Definition thread_eqb (a b : thread) : bool :=
  match a, b with
  | MainThread, MainThread => true
  | InputThread, InputThread => true
  | _, _ => false
  end.

(** What a thread does next, as far as the robot and a lock are concerned. *)
Inductive op : Type :=
| Send (src : sender)     (* a call of [self.robot.send_action] *)
| Acquire                 (* [lock.acquire()], on entering [with lock:] *)
| Release                 (* [lock.release()], on leaving [with lock:] *)
| Local.                  (* anything else *)

(** The operation behind an entry of the record.  No entry stands for an
    operation on a lock: the scripts have none. *)
Definition op_of (e : event) : op :=
  match e with
  | ESendAction src _ _ => Send src
  | _ => Local
  end.

(** The entries that [f] adds to the record of [w]. *)
Definition added (f : World -> World) (w : World) : list event :=
  skipn (List.length (trace w)) (trace (f w)).

(** The operations of a thread that runs [f] from [w]. *)
Definition code (f : World -> World) (w : World) : list op :=
  map op_of (added f w).

(** The main thread in the frame loop of an episode. *)
Definition frame_loop_code (env : Env) (episode_idx : Z)
    (names : list string) (rows : list (list Q)) (frame_idx : nat)
    (w : World) : list op :=
  code (fun w0 =>
          snd (RealRobot.frame_loop env episode_idx names rows frame_idx w0))
    w.

(** The input thread on a line with the reset command. *)
Definition reset_code (env : Env) (w : World) : list op :=
  code (handle_item (RealRobot.on_reset env) (Line "r")) w.

Definition is_lock_op (o : op) : bool :=
  match o with
  | Acquire | Release => true
  | _ => false
  end.

Definition lock_free (c : list op) : bool :=
  forallb (fun o => negb (is_lock_op o)) c.

(** The sends of a piece of code, in order. *)
Fixpoint sends_of (c : list op) : list sender :=
  match c with
  | [] => []
  | Send src :: c' => src :: sends_of c'
  | _ :: c' => sends_of c'
  end.

(** An entry of the history of the robot: a call of [send_action] is
    entered, or it returns. *)
Inductive step : Type :=
| Call (t : thread) (src : sender)
| Return (t : thread) (src : sender).

Definition step_thread (s : step) : thread :=
  match s with
  | Call t _ => t
  | Return t _ => t
  end.

(** The two threads: what is left of their code, the call of
    [send_action] each is inside, and the holder of the lock. *)
Record state : Type := mkState {
  main_code : list op;
  input_code : list op;
  main_call : option sender;
  input_call : option sender;
  lock : option thread
}.

Definition code_of (t : thread) (s : state) : list op :=
  match t with
  | MainThread => main_code s
  | InputThread => input_code s
  end.

Definition call_of (t : thread) (s : state) : option sender :=
  match t with
  | MainThread => main_call s
  | InputThread => input_call s
  end.

Definition set_thread (t : thread) (c : list op) (k : option sender)
    (s : state) : state :=
  match t with
  | MainThread => mkState c (input_code s) k (input_call s) (lock s)
  | InputThread => mkState (main_code s) c (main_call s) k (lock s)
  end.

Definition set_lock (l : option thread) (s : state) : state :=
  mkState (main_code s) (input_code s) (main_call s) (input_call s) l.

(** One step of thread [t], with what it adds to the history; [None] when
    the thread has ended or waits for the lock.  A thread inside
    [send_action] returns from it; otherwise it starts its next operation. *)
Definition next (t : thread) (s : state) : option (list step * state) :=
  match call_of t s with
  | Some src => Some ([Return t src], set_thread t (code_of t s) None s)
  | None =>
      match code_of t s with
      | [] => None
      | Send src :: rest =>
          Some ([Call t src], set_thread t rest (Some src) s)
      | Acquire :: rest =>
          match lock s with
          | None => Some ([], set_lock (Some t) (set_thread t rest None s))
          | Some _ => None
          end
      | Release :: rest =>
          Some ([], set_lock None (set_thread t rest None s))
      | Local :: rest => Some ([], set_thread t rest None s)
      end
  end.

(** The history of the execution in which the threads take their steps in
    the order [sched]; a thread that cannot take a step is passed over. *)
Fixpoint run (sched : list thread) (s : state) : list step :=
  match sched with
  | [] => []
  | t :: sched' =>
      match next t s with
      | Some (h, s') => h ++ run sched' s'
      | None => run sched' s
      end
  end.

Definition start (main input : list op) : state :=
  mkState main input None None None.

(** [overlap pending h]: some call of [h] is entered while another call is
    still pending; [pending] counts the calls in flight. *)
Fixpoint overlap (pending : nat) (h : list step) : bool :=
  match h with
  | [] => false
  | Call _ _ :: h' =>
      match pending with
      | O => overlap 1 h'
      | S _ => true
      end
  | Return _ _ :: h' => overlap (Nat.pred pending) h'
  end.

(** The calls of [h] are mutually exclusive. *)
Definition exclusive (h : list step) : bool := negb (overlap 0 h).

(** The steps of one thread within a history. *)
Definition of_thread (t : thread) (h : list step) : list step :=
  filter (fun s => thread_eqb (step_thread s) t) h.

(** The history of a thread that runs [c] on its own. *)
Fixpoint calls (t : thread) (c : list op) : list step :=
  match c with
  | [] => []
  | Send src :: c' => Call t src :: Return t src :: calls t c'
  | _ :: c' => calls t c'
  end.

(** [c] with every send inside [with lock:]. *)
Definition locked (c : list op) : list op :=
  flat_map (fun o => match o with
                     | Send src => [Acquire; Send src; Release]
                     | _ => [o]
                     end) c.

(** A thread of locked code that does not hold the lock, and one that
    holds it: before its send, inside it, after it. *)
Inductive outside : list op -> option sender -> Prop :=
| outside_lock (q : list op) :
    lock_free q = true -> outside (locked q) None.

Inductive inside : list op -> option sender -> Prop :=
| inside_before (src : sender) (q : list op) :
    lock_free q = true -> inside (Send src :: Release :: locked q) None
| inside_call (src : sender) (q : list op) :
    lock_free q = true -> inside (Release :: locked q) (Some src)
| inside_after (q : list op) :
    lock_free q = true -> inside (Release :: locked q) None.

Definition one_holder (s : state) : Prop :=
  match lock s with
  | None =>
      outside (main_code s) (main_call s) /\
      outside (input_code s) (input_call s)
  | Some MainThread =>
      inside (main_code s) (main_call s) /\
      outside (input_code s) (input_call s)
  | Some InputThread =>
      outside (main_code s) (main_call s) /\
      inside (input_code s) (input_call s)
  end.

(** The number of calls in flight. *)
Definition pending (k : option sender) : nat :=
  match k with
  | Some _ => 1
  | None => 0
  end.

Definition in_flight (s : state) : nat :=
  (pending (main_call s) + pending (input_call s))%nat.

End Threads.
(** ** Reading the record of a run *)

Definition is_send (e : event) : bool :=
  match e with ESendAction _ _ _ => true | _ => false end.

Definition is_frame_send (e : event) : bool :=
  match e with ESendAction (Frame _ _) _ _ => true | _ => false end.

Definition is_disconnect (e : event) : bool :=
  match e with EDisconnect => true | _ => false end.

(** The senders of the calls of [send_action], in order. *)
Fixpoint sends (tr : list event) : list sender :=
  match tr with
  | [] => []
  | ESendAction src _ _ :: tr' => src :: sends tr'
  | _ :: tr' => sends tr'
  end.

Definition disconnects (tr : list event) : nat :=
  List.length (filter is_disconnect tr).

(** How a run ended, as the operator is told. *)
Inductive outcome : Type :=
| Completed                 (* "All episodes completed successfully!" *)
| StoppedByUser             (* "Replay stopped by user." *)
| Failed (cause : exn)      (* "Error during replay: {e}" *)
| Silent                    (* [run] returned without any of the three *)
| Hung.                     (* [run] never returns *)

Fixpoint last_verdict (tr : list event) (acc : outcome) : outcome :=
  match tr with
  | [] => acc
  | EPrint MsgAllCompleted :: tr' => last_verdict tr' Completed
  | EPrint MsgStoppedByUser :: tr' => last_verdict tr' StoppedByUser
  | EPrint (MsgError e) :: tr' => last_verdict tr' (Failed e)
  | _ :: tr' => last_verdict tr' acc
  end.

Definition outcome_of {A : Type} (r : result A * World) : outcome :=
  match fst r with
  | Hang => Hung
  | _ => last_verdict (trace (snd r)) Silent
  end.

(** [w] with further entries at the end of its record. *)
Definition add_events (new : list event) (w : World) : World :=
  mkWorld (current_episode w) (end_episode w) (total_episodes w) (is_paused w)
    (should_stop w) (robot w) (dataset w) (input_thread w) (stdin w)
    (trace w ++ new).

(** No operator input is left and no flag is set. *)
Definition quiet (w : World) : Prop :=
  stdin w = [] /\ should_stop w = false /\ is_paused w = false.

(** Entries that neither disconnect the robot nor tell how the run ended. *)
Definition plain (new : list event) : Prop :=
  disconnects new = 0%nat /\ forall acc, last_verdict new acc = acc.

(** Every call of [send_action] succeeds. *)
Definition sends_succeed (env : Env) : Prop :=
  forall (history : list event) (a : action), send_result env history a = None.

(** Every row of the episode has a value for every joint name. *)
Definition well_formed (d : EpisodeData) : Prop :=
  forall row, In row (actions d) ->
    (List.length (action_names d) <= List.length row)%nat.

(** The sends of one episode played from its first frame to its last. *)
Definition episode_sends (env : Env) (episode_idx : Z) : list sender :=
  match open_episode env episode_idx with
  | inr d => map (Frame episode_idx) (seq 0 (num_frames d))
  | inl _ => []
  end.

(** The episode can be opened and is well formed. *)
Definition playable (env : Env) (episode_idx : Z) : Prop :=
  exists d, open_episode env episode_idx = inr d /\ well_formed d.

(** ** What the main thread guarantees while it plays *)

(** Some read of [should_stop] in [tr] returned [True]. *)
Definition saw_stop (tr : list event) : bool :=
  existsb (fun e => match e with EReadStop _ true => true | _ => false end) tr.

(** [halted stopped tr]: once a read of [should_stop] has returned [True]
    ([stopped] tells whether one had before [tr]), [tr] holds no call of
    [send_action] and every later read returns [True] as well. *)
Fixpoint halted (stopped : bool) (tr : list event) : bool :=
  match tr with
  | [] => true
  | ESendAction _ _ _ :: tr' => negb stopped && halted stopped tr'
  | EReadStop _ v :: tr' => implb stopped v && halted (stopped || v) tr'
  | _ :: tr' => halted stopped tr'
  end.

(** What a piece of the playing code, started in [w], does: it ends with
    [r] in [w'] after adding [new] to the record. *)
Record Sound {A : Type} (w : World) (r : result A) (w' : World)
    (new : list event) : Prop := mkSound {
  snd_trace : trace w' = trace w ++ new;
  snd_robot : robot w' = robot w;
  snd_dataset : dataset w' = dataset w;
  snd_current : current_episode w' = current_episode w;
  snd_end : end_episode w' = end_episode w;
  snd_mono : should_stop w = true -> should_stop w' = true;
  snd_halted : halted (should_stop w) new = true;
  snd_seen : saw_stop new = true -> should_stop w' = true;
  snd_returns : should_stop w = true \/ saw_stop new = true -> r <> Hang;
  snd_disconnects : disconnects new = 0%nat;
  snd_failure :
    forall src a c l1 l2, new = l1 ++ ESendAction src a (Some c) :: l2 ->
      r = Raise c /\ l2 = []
}.

Definition sound {A : Type} (m : M A) (w : World) : Prop :=
  exists new, Sound w (fst (m w)) (snd (m w)) new.

(** An entry that is neither a send, nor a read of [should_stop], nor a
    disconnection. *)
Definition inert (e : event) : bool :=
  match e with
  | ESendAction _ _ _ | EReadStop _ _ | EDisconnect => false
  | _ => true
  end.

(** What the input thread of a script without reset command does to the
    world while it handles input: it prints, and it may change the two
    flags and end. *)
Record Heard (w w' : World) (new : list event) : Prop := mkHeard {
  hrd_trace : trace w' = trace w ++ new;
  hrd_inert : forallb inert new = true;
  hrd_robot : robot w' = robot w;
  hrd_dataset : dataset w' = dataset w;
  hrd_current : current_episode w' = current_episode w;
  hrd_end : end_episode w' = end_episode w;
  hrd_stdin : stdin w' = stdin w;
  hrd_mono : should_stop w = true -> should_stop w' = true
}.

(** The entries with which a run ends: messages and the disconnection. *)
Definition closing (e : event) : bool :=
  match e with
  | EPrint _ | EDisconnect => true
  | _ => false
  end.

(** ** What the real-robot script guarantees about failed sends *)

Definition is_failed_frame (e : event) : bool :=
  match e with
  | ESendAction (Frame _ _) _ (Some _) => true
  | _ => false
  end.

(** Some frame of [tr] could not be sent. *)
Definition frame_failed (tr : list event) : bool := existsb is_failed_frame tr.

(** [ends_at_failure failed tr]: once the send of a frame has failed
    ([failed] tells whether one had before [tr]), [tr] holds no further send
    of a frame. *)
Fixpoint ends_at_failure (failed : bool) (tr : list event) : bool :=
  match tr with
  | [] => true
  | e :: tr' =>
      (if is_frame_send e then negb failed else true)
      && ends_at_failure (failed || is_failed_frame e) tr'
  end.

(** No frame is sent in [tr]. *)
Definition no_frames (tr : list event) : bool :=
  forallb (fun e => negb (is_frame_send e)) tr.

(** A piece of code that adds to the record no send of a frame and no
    disconnection and leaves the robot as it is. *)
Definition clean {A : Type} (m : M A) (w : World) : Prop :=
  exists new,
    trace (snd (m w)) = trace w ++ new /\
    robot (snd (m w)) = robot w /\
    disconnects new = 0%nat /\
    no_frames new = true.

(** A piece of code that sends no frame after a failed one and, when the
    send of a frame has failed, returns a value on which its caller stops
    ([sig] tells which values these are). *)
Definition staged {A : Type} (sig : A -> bool) (m : M A) (w : World) : Prop :=
  exists new,
    trace (snd (m w)) = trace w ++ new /\
    robot (snd (m w)) = robot w /\
    disconnects new = 0%nat /\
    ends_at_failure false new = true /\
    (frame_failed new = true -> exists a, fst (m w) = Ok a /\ sig a = true).

(** An input after which the listener handles nothing more: end of input,
    an interrupt, quit or skip. *)
Definition ends_listener (item : input_item) : bool :=
  match item with
  | Line s => is_cmd (command s) "q" "quit" || is_cmd (command s) "s" "skip"
  | EOF => true
  | Interrupt => true
  end.

(** ** What a run plays, in which order, and how it can end *)

(** A polling loop in this state polls for ever: the replay is paused, no
    stop is requested and the operator types nothing more. *)
Definition frozen (w : World) : Prop :=
  stdin w = [] /\ is_paused w = true /\ should_stop w = false.

(** An entry that is neither a send, nor a read of [should_stop], nor a
    disconnection, nor one of the three verdicts. *)
Definition unremarkable (e : event) : bool :=
  match e with
  | ESendAction _ _ _ | EReadStop _ _ | EDisconnect => false
  | EPrint MsgAllCompleted | EPrint MsgStoppedByUser | EPrint (MsgError _) =>
      false
  | _ => true
  end.

(** Any entry but a send that raised. *)
Definition delivered (e : event) : bool :=
  match e with
  | ESendAction _ _ (Some _) => false
  | _ => true
  end.

(** What a piece of the playing code, started in [w], does with the frames
    [planned] for it: it ends with [r] in [w'] after adding [new] to the
    record.  It sends a prefix of [planned], all of it when it returns with
    no stop requested, and nothing once a stop is requested; it hangs only
    in a frozen state and raises only what [causes] allows. *)
Record Plays {A : Type} (causes : exn -> Prop) (planned : list sender)
    (good : A -> bool) (w : World) (r : result A) (w' : World)
    (new : list event) : Prop := mkPlays {
  ply_trace : trace w' = trace w ++ new;
  ply_plain : plain new;
  ply_robot : robot w' = robot w;
  ply_dataset : dataset w' = dataset w;
  ply_mono : should_stop w = true -> should_stop w' = true;
  ply_stopped : should_stop w = true ->
                sends new = [] /\ exists a, r = Ok a;
  ply_seen : saw_stop new = true ->
             should_stop w' = true /\ exists a, r = Ok a;
  ply_prefix : exists rest, planned = sends new ++ rest;
  ply_complete : forall a, r = Ok a -> should_stop w' = false ->
                 sends new = planned /\ good a = true;
  ply_sent : forall a, r = Ok a -> forallb delivered new = true;
  ply_hang : r = Hang -> frozen w';
  ply_raise : forall c, r = Raise c -> causes c
}.

Definition plays {A : Type} (causes : exn -> Prop) (planned : list sender)
    (good : A -> bool) (m : M A) (w : World) : Prop :=
  exists new, Plays causes planned good w (fst (m w)) (snd (m w)) new.

(** A piece of code with nothing to send. *)
Definition silent {A : Type} (causes : exn -> Prop) (m : M A) (w : World)
  : Prop :=
  plays causes [] (fun _ : A => true) m w.

(** What can make the playing code of replay_all_episodes.py raise, with
    the dataset [meta] loaded. *)
Definition play_causes (env : Env) (cfg : ReplayAllConfig)
    (meta : DatasetMeta) (c : exn) : Prop :=
  (c = IndexError /\
   exists i d row, open_episode env i = inr d /\ In row (actions d) /\
     (List.length row < List.length (action_names d))%nat) \/
  (c = ZeroDivisionError /\ fps meta = 0%Z) \/
  (exists i, open_episode env i = inl c) \/
  (exists history a, send_result env history a = Some c) \/
  (c = ValueError NegativeSleep /\ auto_advance cfg = true /\
   (episode_delay cfg < 0)%Q).

(** What can make the playing code of replay_moving_tape_dataset.py raise,
    with the dataset [meta] loaded. *)
Definition tape_causes (env : Env) (auto : bool) (delay : Q)
    (meta : DatasetMeta) (c : exn) : Prop :=
  (c = IndexError /\
   exists i d row, open_episode env i = inr d /\ In row (actions d) /\
     (List.length row < List.length (action_names d))%nat) \/
  (c = ZeroDivisionError /\ fps meta = 0%Z) \/
  (exists i, open_episode env i = inl c) \/
  (exists k i d, c = KeyError k /\ In k RealRobot.progress_keys /\
     open_episode env i = inr d /\ ~ In k (action_names d)) \/
  (c = ValueError NegativeSleep /\ auto = true /\ (delay < 0)%Q).

(** What can make [setup_robot_and_dataset] raise. *)
Definition setup_causes (env : Env) (cfg : ReplayAllConfig) (c : exn) : Prop :=
  make_robot_raises env = Some c \/
  connect_raises env = Some c \/
  (c = ValueError RobotNotConnected /\ connected_after_connect env = false) \/
  open_dataset env = inl c \/
  (exists meta e,
     open_dataset env = inr meta /\
     episode_range (start_episode (dataset_cfg cfg))
       (cfg_end_episode (dataset_cfg cfg)) (num_episodes meta) = inl e /\
     c = ValueError e).

(** The frames that a configuration asks for: those of the episodes of the
    validated range, in order; none when the setup does not go through. *)
Definition requested (env : Env) (cfg : ReplayAllConfig) : list sender :=
  match make_robot_raises env, connect_raises env,
        connected_after_connect env, open_dataset env with
  | None, None, true, inr meta =>
      match episode_range (start_episode (dataset_cfg cfg))
              (cfg_end_episode (dataset_cfg cfg)) (num_episodes meta) with
      | inr (start_ep, end_ep) =>
          flat_map (episode_sends env) (Py.range start_ep (end_ep + 1))
      | inl _ => []
      end
  | _, _, _, _ => []
  end.

(** The frames of the demo on [MockDataset(n, frames)]: every frame of
    every episode, in order. *)
Definition demo_requested (n frames : nat) : list sender :=
  flat_map (fun e => map (Frame e) (seq 0 frames)) (Py.range 0 (Z.of_nat n)).

(** ** What is sent for a frame, and what follows the send *)

(** [follows rule tr]: every send of a frame in the record [tr] satisfies
    [rule], which speaks of the frame, the action sent, the result of the
    send and the entries that follow it. *)
Definition follows
    (rule : Z -> nat -> action -> option exn -> list event -> Prop)
    (tr : list event) : Prop :=
  forall l1 e f a res l2,
    tr = l1 ++ ESendAction (Frame e f) a res :: l2 -> rule e f a res l2.

(** A piece of code whose additions to the record satisfy [follows rule]. *)
Definition orderly {A : Type}
    (rule : Z -> nat -> action -> option exn -> list event -> Prop)
    (m : M A) (w : World) : Prop :=
  exists new, trace (snd (m w)) = trace w ++ new /\ follows rule new.

(** replay_all_episodes.py: the action sent for frame [f] of episode [e] is
    built from row [f] of that episode; a send that succeeds is followed at
    once by [busy_wait(1 / fps - dt_s)]. *)
Definition replay_frame_rule (env : Env) (meta : DatasetMeta)
    (e : Z) (f : nat) (a : action) (res : option exn) (l2 : list event)
  : Prop :=
  (exists d row,
     open_episode env e = inr d /\ nth_error (actions d) f = Some row /\
     build_action (action_names d) 0 row [] = Some a) /\
  (res = None -> fps meta <> 0%Z ->
   exists l3, l2 = EBusyWait (target_period (fps meta) - elapsed env e f) :: l3).

(** demo_episode_replay.py: the action sent for frame [f] of episode [e] is
    the mock action of that frame, the send succeeds, and after the progress
    line of every tenth frame the loop sleeps for [sleep_time]. *)
Definition demo_frame_rule (clock : Z -> nat -> Q)
    (e : Z) (f : nat) (a : action) (res : option exn) (l2 : list event)
  : Prop :=
  a = Demo.MockAction (Z.to_nat e) f /\ res = None /\
  exists l3,
    l2 = (if (f mod 10 =? 0)%nat then [EPrint (MsgProgress f)] else [])
           ++ ESleep (sleep_time 30 (clock e f)) :: l3.

(** ** Scenarios *)

Module Scenario.

Definition joints : list string :=
  [ "shoulder_pan.pos"; "shoulder_lift.pos"; "elbow_flex.pos";
    "wrist_flex.pos"; "wrist_roll.pos"; "gripper.pos" ].

Definition row : list Q := [0; 10; 20; 30; 40; 50]%Q.

(** An episode of [n] frames. *)
Definition episode (n : nat) : EpisodeData := mkEpisodeData joints (repeat row n).

(** A robot whose [k]-th call of [send_action] (counting from 0) raises. *)
Definition fails_on_call (k : nat) (cause : exn)
  : list event -> action -> option exn :=
  fun history _ =>
    if (List.length (sends history) =? k)%nat then Some cause else None.

Definition never_fails : list event -> action -> option exn :=
  fun _ _ => None.

(** A robot that connects, a dataset of [n] episodes of [frames] frames
    at [fps_] frames per second, a frame taking 10 ms to send. *)
Definition env (n : Z) (frames : nat) (fps_ : Z)
    (send : list event -> action -> option exn) : Env :=
  mkEnv None None true send (inr (mkDatasetMeta n fps_))
    (fun _ => inr (episode frames)) (fun _ => Line "") (fun _ _ => (1 # 100)%Q).

(** A robot whose [connect()] raises and leaves it disconnected. *)
Definition env_unreachable : Env :=
  mkEnv None (Some (RobotError "port not found")) false never_fails
    (inr (mkDatasetMeta 3 10)) (fun _ => inr (episode 5)) (fun _ => Line "")
    (fun _ _ => (1 # 100)%Q).

Definition cfg (start_ep end_ep : Z) (auto : bool) (delay : Q)
  : ReplayAllConfig :=
  mkReplayAllConfig (mkDatasetReplayConfig "lerobot/test" 10 start_ep end_ep)
    false delay auto.

(** Scenario A: 3 episodes of 5 frames, 10 frames per second, automatic
    advance without delay. *)
Definition env_A : Env := env 3 5 10 never_fails.
Definition cfg_A : ReplayAllConfig := cfg 0 (-1) true 0.

(** The action built from every row of [episode]. *)
Definition frame_action : action := combine joints row.

Definition overload : exn := RobotError "motor overload".

(** Scenario C: [send_action] raises on frame 3 of episode 1, its ninth
    call. *)
Definition env_C : Env := env 3 5 10 (fails_on_call 8 overload).

(** [send_action] raises on frame 1 of episode 0, its second call. *)
Definition env_early_failure : Env := env 3 5 10 (fails_on_call 1 overload).

(** The same for the bimanual robot of replay_with_real_robot.py: episodes
    over the twelve joints of the home position. *)
Definition bimanual_episode (n : nat) : EpisodeData :=
  mkEpisodeData (map fst RealRobot.home_action)
    (repeat (map snd RealRobot.home_action) n).

Definition env_C_bimanual : Env :=
  mkEnv None None true (fails_on_call 8 overload) (inr (mkDatasetMeta 3 10))
    (fun _ => inr (bimanual_episode 5)) (fun _ => Line "")
    (fun _ _ => (1 # 100)%Q).

(** A dataset that cannot be opened. *)
Definition env_no_dataset : Env :=
  mkEnv None None true never_fails (inl (DatasetError "not found"))
    (fun _ => inr (episode 5)) (fun _ => Line "") (fun _ _ => (1 # 100)%Q).

(** The operator answers the safety prompt with Ctrl+C. *)
Definition env_cancelled : Env :=
  mkEnv None None true never_fails (inr (mkDatasetMeta 3 10))
    (fun _ => inr (bimanual_episode 5)) (fun _ => Interrupt)
    (fun _ _ => (1 # 100)%Q).

(** The operator types [q] while frame 0 of episode 0 is sent. *)
Definition quit_early : list (list input_item) :=
  [[]; []; []; []; [Line "q"]].

(** The operator types [s] while frame 0 of episode 0 is sent and [q] two
    reads of a flag later. *)
Definition skip_then_quit : list (list input_item) :=
  [[]; []; []; []; [Line "s"]; []; [Line "q"]].

End Scenario.

(** * Properties *)

(** ** The frame scheduler *)


(** C5.  [sleep_time] is a function of [fps] and the elapsed time alone;
    below the target period [1/fps] it is the remainder of the period
    (the very term [1/fps - elapsed]), and from the target period on it is
    zero. *)
Theorem scheduler_delay (fps_ : Z) (dt_s : Q) :
  (0 < fps_)%Z ->
  (0 <= dt_s)%Q ->
  sleep_time fps_ dt_s = Py.max (1 / inject_Z fps_ - dt_s) 0 /\
  ((dt_s < 1 / inject_Z fps_)%Q ->
     sleep_time fps_ dt_s = (1 / inject_Z fps_ - dt_s)%Q) /\
  ((1 / inject_Z fps_ <= dt_s)%Q -> (sleep_time fps_ dt_s == 0)%Q).
Proof.
  intros Hfps Hdt. split; [reflexivity|].
  unfold sleep_time, target_period, Py.max. split; intros H.
  - destruct (Qlt_le_dec (1 / inject_Z fps_ - dt_s) 0) as [Hneg|Hpos].
    + exfalso. apply (Qlt_irrefl dt_s).
      apply Qlt_trans with (1 / inject_Z fps_)%Q; [exact H|].
      apply Qlt_minus_iff in Hneg.
      setoid_replace (0 + - (1 / inject_Z fps_ - dt_s))%Q
        with (dt_s + - (1 / inject_Z fps_))%Q in Hneg by ring.
      apply Qlt_minus_iff. exact Hneg.
    + reflexivity.
  - destruct (Qlt_le_dec (1 / inject_Z fps_ - dt_s) 0) as [Hneg|Hpos].
    + reflexivity.
    + apply Qle_antisym; [|exact Hpos].
      apply Qle_minus_iff.
      setoid_replace (0 + - (1 / inject_Z fps_ - dt_s))%Q
        with (dt_s + - (1 / inject_Z fps_))%Q by ring.
      apply Qle_minus_iff in H. exact H.
Qed.

Lemma scheduler_delay_witness :
  sleep_time 10 (1 # 25) = (1 / inject_Z 10 - (1 # 25))%Q /\
  (sleep_time 10 (1 # 5) == 0)%Q.
Proof.
  split.
  - apply (scheduler_delay 10 (1 # 25)); [lia | discriminate | reflexivity].
  - apply (scheduler_delay 10 (1 # 5)); [lia | discriminate | discriminate].
Defined.

(** ** The episode range *)

Lemma normalized_end_minus_one (total : Z) :
  normalized_end (-1) total = (total - 1)%Z.
Proof.
  unfold normalized_end, default_end. simpl.
  destruct (total - 1 >=? total)%Z; reflexivity.
Qed.

Lemma normalized_end_clamped (cfg_end total : Z) :
  (0 <= total)%Z -> (total <= cfg_end)%Z ->
  normalized_end cfg_end total = (total - 1)%Z.
Proof.
  intros Ht He. unfold normalized_end, default_end.
  destruct (Z.geb_spec cfg_end 0); [|lia].
  destruct (Z.geb_spec cfg_end total); [reflexivity|lia].
Qed.

Lemma normalized_end_lower (cfg_end total : Z) :
  (0 <= total)%Z -> (-1 <= normalized_end cfg_end total)%Z.
Proof.
  intros Ht. unfold normalized_end, default_end.
  destruct (Z.geb_spec cfg_end 0);
    [destruct (Z.geb_spec cfg_end total) | destruct (Z.geb_spec (total - 1) total)];
    lia.
Qed.

Lemma episode_range_spec (start_ep cfg_end total : Z) :
  episode_range start_ep cfg_end total =
    if (start_ep >=? total)%Z then inl (StartGeTotal start_ep total)
    else if (start_ep >? normalized_end cfg_end total)%Z
         then inl (StartGtEnd start_ep (normalized_end cfg_end total))
         else inr (start_ep, normalized_end cfg_end total).
Proof. reflexivity. Qed.

(** [setup_robot_and_dataset] once the robot is connected and the dataset
    is open: what is left is the validation of the range. *)
Lemma setup_when_connected (env : Env) (cfg : ReplayAllConfig)
    (meta : DatasetMeta) (w : World) :
  make_robot_raises env = None ->
  connect_raises env = None ->
  connected_after_connect env = true ->
  open_dataset env = inr meta ->
  let w1 :=
    set_total_episodes (num_episodes meta)
      (set_dataset (Some meta)
         (emit (ELoadDataset None)
            (set_robot (Some true)
               (emit EConnect (set_robot (Some false) (emit EMakeRobot w)))))) in
  ReplayAll.setup_robot_and_dataset env cfg w =
    match episode_range (start_episode (dataset_cfg cfg))
            (cfg_end_episode (dataset_cfg cfg)) (num_episodes meta) with
    | inl e => (Raise (ValueError e), w1)
    | inr (start_ep, end_ep) =>
        (Ok tt, emit (EPrint (MsgSetup start_ep end_ep))
                  (set_range start_ep end_ep w1))
    end.
Proof.
  intros Hmake Hraise Hconn Hopen.
  unfold ReplayAll.setup_robot_and_dataset, make_robot_from_config, connect, is_connected,
    LeRobotDataset, bind, log, modify, get, print.
  rewrite Hmake, Hraise, Hconn, Hopen. simpl.
  destruct (episode_range _ _ _) as [e|[s e]]; reflexivity.
Qed.

(** C10.  With the robot connected and a dataset of [total] episodes open,
    the setup normalises the configured range: an end of [-1] becomes
    [total - 1]; an end at or beyond [total] is clamped to [total - 1] and
    the setup goes through; the setup raises exactly when the start is at
    or beyond [total] or beyond the normalised end; a negative start is
    never rejected. *)
Theorem setup_normalizes_episode_range (env : Env) (cfg : ReplayAllConfig)
    (meta : DatasetMeta) (w : World) :
  make_robot_raises env = None ->
  connect_raises env = None ->
  connected_after_connect env = true ->
  open_dataset env = inr meta ->
  (0 <= num_episodes meta)%Z ->
  let total := num_episodes meta in
  let start_ep := start_episode (dataset_cfg cfg) in
  let cfg_end := cfg_end_episode (dataset_cfg cfg) in
  let r := fst (ReplayAll.setup_robot_and_dataset env cfg w) in
  let w' := snd (ReplayAll.setup_robot_and_dataset env cfg w) in
  (cfg_end = (-1)%Z -> r = Ok tt -> end_episode w' = (total - 1)%Z) /\
  ((total <= cfg_end)%Z -> (start_ep < total)%Z ->
     r = Ok tt /\ current_episode w' = start_ep /\
     end_episode w' = (total - 1)%Z) /\
  ((exists e, r = Raise e) <->
     (start_ep >= total)%Z \/ (start_ep > normalized_end cfg_end total)%Z) /\
  (r = Ok tt -> current_episode w' = start_ep /\
                end_episode w' = normalized_end cfg_end total) /\
  ((start_ep < 0)%Z -> r = Ok tt /\ current_episode w' = start_ep).
Proof.
  intros Hmake Hraise Hconn Hopen Htotal total start_ep cfg_end r w'.
  subst r w'.
  rewrite (setup_when_connected env cfg meta w Hmake Hraise Hconn Hopen).
  rewrite episode_range_spec.
  fold total start_ep cfg_end.
  pose proof (normalized_end_lower cfg_end total Htotal) as Hlow.
  assert (Hm1 : cfg_end = (-1)%Z ->
                normalized_end cfg_end total = (total - 1)%Z)
    by (intros ->; apply normalized_end_minus_one).
  pose proof (normalized_end_clamped cfg_end total Htotal) as Hclamp.
  destruct (Z.geb_spec start_ep total) as [Hge|Hlt];
    [|destruct (Z.gtb_spec start_ep (normalized_end cfg_end total))
        as [Hgt|Hle]];
    simpl;
    repeat match goal with
           | |- _ /\ _ => split
           | |- _ <-> _ => split
           | |- _ -> _ => intro
           | H : exists _, _ |- _ => destruct H
           end;
    try discriminate; try lia; eauto.
Qed.

(** ** Records of runs *)

Lemma sends_app (l1 l2 : list event) : sends (l1 ++ l2) = sends l1 ++ sends l2.
Proof.
  induction l1 as [|e l1 IH]; simpl; [reflexivity|].
  destruct e; simpl; rewrite ?IH; reflexivity.
Qed.

Lemma disconnects_app (l1 l2 : list event) :
  disconnects (l1 ++ l2) = (disconnects l1 + disconnects l2)%nat.
Proof.
  unfold disconnects. rewrite filter_app, length_app. reflexivity.
Qed.

Lemma last_verdict_app (l1 l2 : list event) (acc : outcome) :
  last_verdict (l1 ++ l2) acc = last_verdict l2 (last_verdict l1 acc).
Proof.
  revert acc. induction l1 as [|e l1 IH]; intros acc; simpl; [reflexivity|].
  destruct e as [| | | | | | | | | | |m]; try apply IH.
  destruct m; apply IH.
Qed.

Lemma plain_nil : plain [].
Proof. split; [reflexivity|intros acc; reflexivity]. Qed.

Lemma plain_app (l1 l2 : list event) : plain l1 -> plain l2 -> plain (l1 ++ l2).
Proof.
  intros [D1 V1] [D2 V2]. split.
  - rewrite disconnects_app, D1, D2. reflexivity.
  - intros acc. rewrite last_verdict_app, V1, V2. reflexivity.
Qed.

Lemma add_events_nil (w : World) : add_events [] w = w.
Proof. destruct w. unfold add_events. simpl. rewrite app_nil_r. reflexivity. Qed.

Lemma add_events_app (l1 l2 : list event) (w : World) :
  add_events l2 (add_events l1 w) = add_events (l1 ++ l2) w.
Proof. unfold add_events. simpl. rewrite app_assoc. reflexivity. Qed.



Lemma deliver_quiet (on_reset : option (World -> World)) (w : World) :
  stdin w = [] -> deliver on_reset w = w.
Proof. intros H. unfold deliver. rewrite H. reflexivity. Qed.

Lemma read_should_stop_quiet (on_reset : option (World -> World))
    (cp : checkpoint) (w : World) :
  quiet w ->
  read_should_stop on_reset cp w = (Ok false, add_events [EReadStop cp false] w).
Proof.
  intros (Hin & Hstop & _). unfold read_should_stop.
  rewrite (deliver_quiet on_reset w Hin), Hstop. reflexivity.
Qed.

Lemma read_is_paused_quiet (on_reset : option (World -> World)) (w : World) :
  quiet w ->
  read_is_paused on_reset w = (Ok false, add_events [EReadPaused false] w).
Proof.
  intros (Hin & _ & Hp). unfold read_is_paused.
  rewrite (deliver_quiet on_reset w Hin), Hp. reflexivity.
Qed.

Lemma pause_loop_quiet (on_reset : option (World -> World)) (budget : nat)
    (w : World) :
  quiet w ->
  pause_loop on_reset budget w = (Ok tt, add_events [EReadPaused false] w).
Proof.
  intros H. destruct budget; simpl; unfold bind;
    rewrite (read_is_paused_quiet on_reset w H); reflexivity.
Qed.

Lemma build_action_some (names : list string) (row : list Q) :
  forall (i : nat) (acc : action),
    (i + List.length names <= List.length row)%nat ->
    exists a, build_action names i row acc = Some a.
Proof.
  induction names as [|name names IH]; intros i acc Hlen; simpl in *.
  - exists acc. reflexivity.
  - destruct (nth_error row i) as [v|] eqn:Hnth.
    + apply IH. lia.
    + apply nth_error_None in Hnth. lia.
Qed.

Lemma make_action_some (names : list string) (row : list Q) (w : World) :
  (List.length names <= List.length row)%nat ->
  exists a, make_action names row w = (Ok a, w).
Proof.
  intros Hlen. unfold make_action.
  destruct (build_action_some names row 0 [] Hlen) as [a Ha].
  exists a. rewrite Ha. reflexivity.
Qed.

(** ** Stepping through the monad *)

Lemma bind_ok {A B : Type} (m : M A) (f : A -> M B) (w w' : World) (a : A) :
  m w = (Ok a, w') -> bind m f w = f a w'.
Proof. intros H. unfold bind. rewrite H. reflexivity. Qed.

Lemma bind_raise {A B : Type} (m : M A) (f : A -> M B) (w w' : World)
    (e : exn) :
  m w = (Raise e, w') -> bind m f w = (Raise e, w').
Proof. intros H. unfold bind. rewrite H. reflexivity. Qed.

Lemma bind_hang {A B : Type} (m : M A) (f : A -> M B) (w w' : World) :
  m w = (Hang, w') -> bind m f w = (Hang, w').
Proof. intros H. unfold bind. rewrite H. reflexivity. Qed.

Lemma log_eq (e : event) (w : World) : log e w = (Ok tt, add_events [e] w).
Proof. reflexivity. Qed.

Lemma print_eq (m : message) (w : World) :
  print m w = (Ok tt, add_events [EPrint m] w).
Proof. reflexivity. Qed.

Lemma busy_wait_eq (secs : Q) (w : World) :
  busy_wait secs w = (Ok tt, add_events [EBusyWait secs] w).
Proof. reflexivity. Qed.

Lemma sleep_eq (secs : Q) (w : World) :
  Qle_bool 0 secs = true ->
  sleep secs w = (Ok tt, add_events [ESleep secs] w).
Proof. intros H. unfold sleep. rewrite H. reflexivity. Qed.

Lemma sleep_negative (secs : Q) (w : World) :
  Qle_bool 0 secs = false ->
  sleep secs w = (Raise (ValueError NegativeSleep), w).
Proof. intros H. unfold sleep. rewrite H. reflexivity. Qed.

Lemma Qle_bool_false (secs : Q) : Qle_bool 0 secs = false -> (secs < 0)%Q.
Proof.
  intros H. apply Qnot_le_lt. intros C. apply Qle_bool_iff in C. congruence.
Qed.

Lemma Qle_bool_true (secs : Q) : (0 <= secs)%Q -> Qle_bool 0 secs = true.
Proof. apply Qle_bool_iff. Qed.

(** [sleep_time] is never negative: the sleep between frames does not
    raise. *)
Lemma sleep_time_nonneg (fps_ : Z) (dt_s : Q) :
  Qle_bool 0 (sleep_time fps_ dt_s) = true.
Proof.
  apply Qle_bool_iff. unfold sleep_time, Py.max.
  destruct (Qlt_le_dec (target_period fps_ - dt_s) 0);
    [apply Qle_refl|assumption].
Qed.

Lemma optional_eq (b : bool) (m : M unit) (e : event) (w : World) :
  m w = (Ok tt, add_events [e] w) ->
  (if b then m else ret tt) w = (Ok tt, add_events (if b then [e] else []) w).
Proof.
  intros H. destruct b; [exact H|]. rewrite add_events_nil. reflexivity.
Qed.

Lemma send_action_ok (env : Env) (src : sender) (a : action) (w : World) :
  sends_succeed env ->
  send_action env src a w = (Ok tt, add_events [ESendAction src a None] w).
Proof. intros H. unfold send_action. rewrite H. reflexivity. Qed.

Lemma dataset_fps_eq (meta : DatasetMeta) (w : World) :
  dataset w = Some meta -> dataset_fps w = (Ok (fps meta), w).
Proof. intros H. unfold dataset_fps, bind, get. rewrite H. reflexivity. Qed.

Lemma frame_budget_eq (fps_ : Z) (dt_s : Q) (w : World) :
  fps_ <> 0%Z ->
  frame_budget fps_ dt_s w = (Ok (target_period fps_ - dt_s)%Q, w).
Proof.
  intros H. unfold frame_budget.
  destruct (Z.eqb_spec fps_ 0); [contradiction|reflexivity].
Qed.

Lemma LeRobotDataset_episode_eq (env : Env) (episode_idx : Z) (d : EpisodeData)
    (w : World) :
  open_episode env episode_idx = inr d ->
  LeRobotDataset_episode env episode_idx w
    = (Ok d, add_events [ELoadDataset (Some episode_idx)] w).
Proof. intros H. unfold LeRobotDataset_episode, bind, log, modify. rewrite H. reflexivity. Qed.

Tactic Notation "step_with" tactic3(tac) :=
  erewrite bind_ok by tac; cbv beta iota.

Ltac plain_list :=
  split; [reflexivity | intros ?; reflexivity].

(** ** Runs without operator input *)

Lemma wait_loop_quiet (on_reset : option (World -> World)) (budget : nat)
    (w : World) :
  quiet w ->
  wait_loop on_reset budget w
    = (Ok tt, add_events [EReadStop WaitPoll false; ESleep (1 # 10);
                          EReadPaused false] w).
Proof.
  intros H. destruct budget; cbn [wait_loop];
    step_with (apply read_should_stop_quiet; exact H);
    step_with (apply sleep_eq; reflexivity);
    step_with (apply read_is_paused_quiet; exact H);
    rewrite !add_events_app; reflexivity.
Qed.

Lemma frame_loop_quiet (env : Env) (episode_idx : Z) (names : list string)
    (meta : DatasetMeta) :
  sends_succeed env ->
  fps meta <> 0%Z ->
  forall (rows : list (list Q)) (frame_idx : nat) (w : World),
    quiet w ->
    dataset w = Some meta ->
    (forall row, In row rows -> (List.length names <= List.length row)%nat) ->
    exists new,
      ReplayAll.frame_loop env episode_idx names rows frame_idx w
        = (Ok true, add_events new w) /\
      sends new = map (Frame episode_idx) (seq frame_idx (List.length rows)) /\
      plain new.
Proof.
  intros Hsend Hfps rows.
  induction rows as [|row rows IH]; intros frame_idx w Hq Hds Hrows.
  - exists [EPrint (MsgEpisodeCompleted episode_idx)].
    split; [reflexivity|]. split; [reflexivity|plain_list].
  - destruct (make_action_some names row
                (add_events [EReadStop FrameTop false; EReadPaused false;
                             EReadStop AfterPause false] w)) as [a Ha].
    { apply Hrows. left. reflexivity. }
    cbn [ReplayAll.frame_loop].
    step_with (apply read_should_stop_quiet; exact Hq).
    step_with reflexivity.
    step_with (apply pause_loop_quiet; exact Hq).
    step_with (apply read_should_stop_quiet; exact Hq).
    rewrite !add_events_app. cbn [app].
    step_with (exact Ha).
    step_with (apply send_action_ok; exact Hsend).
    step_with (apply (dataset_fps_eq meta); exact Hds).
    step_with (apply frame_budget_eq; exact Hfps).
    step_with (apply busy_wait_eq).
    step_with (apply optional_eq; apply print_eq).
    rewrite !add_events_app. cbn [app].
    match goal with
    | |- context [ReplayAll.frame_loop _ _ _ _ _ (add_events ?l w)] =>
        destruct (IH (S frame_idx) (add_events l w) Hq Hds) as (new & E & S & P);
          [intros r Hr; apply Hrows; right; exact Hr|];
          exists (l ++ new)
    end.
    rewrite E, add_events_app. split; [reflexivity|].
    rewrite sends_app, S. split.
    + destruct (frame_idx mod 10 =? 0)%nat; reflexivity.
    + apply plain_app; [|exact P].
      destruct (frame_idx mod 10 =? 0)%nat; plain_list.
Qed.

Lemma replay_single_episode_quiet (env : Env) (cfg : ReplayAllConfig)
    (meta : DatasetMeta) (episode_idx : Z) (w : World) :
  sends_succeed env ->
  fps meta <> 0%Z ->
  quiet w ->
  dataset w = Some meta ->
  playable env episode_idx ->
  exists new,
    ReplayAll.replay_single_episode env cfg episode_idx w
      = (Ok true, add_events new w) /\
    sends new = episode_sends env episode_idx /\
    plain new.
Proof.
  intros Hsend Hfps Hq Hds (d & Hopen & Hwf).
  unfold ReplayAll.replay_single_episode.
  step_with (apply print_eq).
  step_with (apply LeRobotDataset_episode_eq; exact Hopen).
  step_with (apply print_eq).
  step_with (apply optional_eq; apply log_eq).
  rewrite !add_events_app. cbn [app].
  match goal with
  | |- context [ReplayAll.frame_loop _ _ _ _ _ (add_events ?l w)] =>
      destruct (frame_loop_quiet env episode_idx (action_names d) meta
                  Hsend Hfps (actions d) 0%nat (add_events l w) Hq Hds Hwf)
        as (new & E & S & P);
        exists (l ++ new)
  end.
  rewrite E, add_events_app. split; [reflexivity|].
  rewrite sends_app, S. unfold episode_sends. rewrite Hopen. split.
  - destruct (play_sounds cfg); reflexivity.
  - apply plain_app; [|exact P]. destruct (play_sounds cfg); plain_list.
Qed.

Lemma between_episodes_quiet (cfg : ReplayAllConfig) (episode_idx : Z)
    (w : World) :
  Qle_bool 0 (episode_delay cfg) = true ->
  quiet w ->
  exists new,
    ReplayAll.between_episodes cfg episode_idx w = (Ok tt, add_events new w) /\
    sends new = [] /\ plain new.
Proof.
  intros Hdelay Hq. unfold ReplayAll.between_episodes.
  step_with reflexivity.
  destruct (episode_idx <? end_episode w)%Z.
  - step_with (apply read_should_stop_quiet; exact Hq).
    cbn [negb]. destruct (auto_advance cfg).
    + step_with (apply print_eq).
      rewrite sleep_eq by exact Hdelay. rewrite !add_events_app. cbn [app].
      eexists. split; [reflexivity|]. split; [reflexivity|plain_list].
    + step_with (apply print_eq).
      step_with reflexivity.
      rewrite wait_loop_quiet by exact Hq.
      rewrite !add_events_app. cbn [app].
      eexists. split; [reflexivity|]. split; [reflexivity|plain_list].
  - exists []. rewrite add_events_nil.
    split; [reflexivity|]. split; [reflexivity|apply plain_nil].
Qed.

Lemma episode_loop_quiet (env : Env) (cfg : ReplayAllConfig)
    (meta : DatasetMeta) :
  sends_succeed env ->
  fps meta <> 0%Z ->
  Qle_bool 0 (episode_delay cfg) = true ->
  forall (episodes : list Z) (w : World),
    quiet w ->
    dataset w = Some meta ->
    (forall e, In e episodes -> playable env e) ->
    exists new,
      ReplayAll.episode_loop env cfg episodes w = (Ok tt, add_events new w) /\
      sends new = flat_map (episode_sends env) episodes /\
      plain new.
Proof.
  intros Hsend Hfps Hdelay episodes.
  induction episodes as [|e episodes IH]; intros w Hq Hds Hplay.
  - exists []. rewrite add_events_nil.
    split; [reflexivity|]. split; [reflexivity|apply plain_nil].
  - cbn [ReplayAll.episode_loop].
    step_with (apply read_should_stop_quiet; exact Hq).
    step_with (apply print_eq).
    rewrite !add_events_app. cbn [app].
    match goal with
    | |- context [bind _ _ (add_events ?l w)] =>
        destruct (replay_single_episode_quiet env cfg meta e (add_events l w)
                    Hsend Hfps Hq Hds (Hplay e (or_introl eq_refl)))
          as (new1 & E1 & S1 & P1);
          assert (P0 : plain l) by plain_list;
          assert (S0 : sends l = []) by reflexivity;
          set (l0 := l) in *
    end.
    step_with (exact E1). cbn [negb].
    rewrite add_events_app.
    destruct (between_episodes_quiet cfg e (add_events (l0 ++ new1) w)
                Hdelay Hq)
      as (new2 & E2 & S2 & P2).
    step_with (exact E2).
    rewrite add_events_app.
    destruct (IH (add_events ((l0 ++ new1) ++ new2) w) Hq Hds
                (fun e' H => Hplay e' (or_intror H)))
      as (new3 & E3 & S3 & P3).
    rewrite E3, add_events_app.
    eexists. split; [reflexivity|].
    rewrite !sends_app, S0, S1, S2, S3. cbn [flat_map app].
    rewrite app_nil_r. split; [reflexivity|].
    repeat apply plain_app; assumption.
Qed.

Lemma in_range (lo hi e : Z) : In e (Py.range lo hi) <-> (lo <= e < hi)%Z.
Proof.
  unfold Py.range. rewrite in_map_iff. split.
  - intros (i & <- & Hi). apply in_seq in Hi. lia.
  - intros H. exists (Z.to_nat (e - lo)). split; [lia|].
    apply in_seq. lia.
Qed.

(** A run without operator input, with a robot that connects and never
    fails and with playable episodes, plays the episodes of the range in
    ascending order, each from its first frame to its last, reports
    completion and disconnects once, at the very end. *)
Lemma quiet_run (env : Env) (cfg : ReplayAllConfig) (meta : DatasetMeta)
    (first_ep last_ep : Z) :
  make_robot_raises env = None ->
  connect_raises env = None ->
  connected_after_connect env = true ->
  sends_succeed env ->
  open_dataset env = inr meta ->
  fps meta <> 0%Z ->
  Qle_bool 0 (episode_delay cfg) = true ->
  episode_range (start_episode (dataset_cfg cfg))
    (cfg_end_episode (dataset_cfg cfg)) (num_episodes meta)
    = inr (first_ep, last_ep) ->
  (forall e, (first_ep <= e <= last_ep)%Z -> playable env e) ->
  exists w' tr,
    ReplayAll.replay_all_episodes env cfg [] = (Ok tt, w') /\
    trace w' = tr ++ [EDisconnect; EPrint MsgRobotDisconnected] /\
    disconnects tr = 0%nat /\
    sends tr = flat_map (episode_sends env) (Py.range first_ep (last_ep + 1)) /\
    last_verdict tr Silent = Completed.
Proof.
  intros Hmake Hraise Hconn Hsend Hopen Hfps Hdelay Hrange Hplay.
  unfold ReplayAll.replay_all_episodes, ReplayAll.run.
  set (w0 := init_world (start_episode (dataset_cfg cfg)) []).
  pose proof (setup_when_connected env cfg meta w0 Hmake Hraise Hconn Hopen)
    as Hsetup.
  cbv zeta in Hsetup. rewrite Hrange in Hsetup.
  match type of Hsetup with _ = (_, ?w) => set (w1 := w) in * end.
  assert (Hq : quiet (set_input_thread Listening w1))
    by (repeat split).
  assert (Hds : dataset (set_input_thread Listening w1) = Some meta)
    by reflexivity.
  destruct (episode_loop_quiet env cfg meta Hsend Hfps Hdelay
              (Py.range first_ep (last_ep + 1))
              (add_events [EPrint MsgStarting] (set_input_thread Listening w1))
              Hq Hds) as (new & E & S & P).
  { intros e He. apply in_range in He. apply Hplay. lia. }
  assert (Hbody :
    ReplayAll.run_body env cfg w0 =
      (Ok tt,
       add_events ([EPrint MsgStarting] ++ new ++
                   [EReadStop Final false; EPrint MsgAllCompleted])
         (set_input_thread Listening w1))).
  { unfold ReplayAll.run_body, ReplayAll.play.
    step_with (exact Hsetup).
    step_with reflexivity.
    step_with (apply print_eq).
    step_with reflexivity.
    step_with reflexivity.
    change (current_episode _) with first_ep.
    change (end_episode _) with last_ep.
    step_with (exact E).
    step_with (apply read_should_stop_quiet; exact Hq).
    cbn [negb]. rewrite print_eq, !add_events_app.
    reflexivity. }
  unfold try_finally, try_except. rewrite Hbody.
  eexists. eexists. split; [reflexivity|].
  cbn [trace add_events ReplayAll.cleanup]. split.
  - cbn [trace emit set_robot add_events]. rewrite <- app_assoc. reflexivity.
  - destruct P as [PD PV].
    rewrite !disconnects_app, !sends_app, !last_verdict_app, PD, PV, S.
    subst w1 w0. cbn. rewrite app_nil_r. repeat split.
Qed.

Lemma episode_sends_of (env : Env) (e : Z) (n : nat) :
  (exists d, open_episode env e = inr d /\ num_frames d = n /\ well_formed d) ->
  episode_sends env e = map (Frame e) (seq 0 n) /\ playable env e.
Proof.
  intros (d & Hopen & Hn & Hwf). unfold episode_sends, playable.
  rewrite Hopen, Hn. split; [reflexivity|]. exists d.
  split; [reflexivity|assumption].
Qed.

(** C1 (Scenario A).  Three episodes of five frames at 10 frames per
    second, automatic advance without delay, a robot that connects and whose
    sends all succeed, no operator input: exactly 15 calls of [send_action],
    episode 0 frames 0..4, then episode 1, then episode 2; the run reports
    completion; the robot is disconnected once, as the last call. *)
Theorem scenario_A_completes (env : Env) (cfg : ReplayAllConfig) :
  make_robot_raises env = None ->
  connect_raises env = None ->
  connected_after_connect env = true ->
  sends_succeed env ->
  open_dataset env = inr (mkDatasetMeta 3 10) ->
  (forall e, (0 <= e <= 2)%Z ->
     exists d, open_episode env e = inr d /\ num_frames d = 5%nat /\
               well_formed d) ->
  start_episode (dataset_cfg cfg) = 0%Z ->
  cfg_end_episode (dataset_cfg cfg) = (-1)%Z \/
  cfg_end_episode (dataset_cfg cfg) = 2%Z ->
  auto_advance cfg = true ->
  (episode_delay cfg == 0)%Q ->
  let r := ReplayAll.replay_all_episodes env cfg [] in
  fst r = Ok tt /\
  sends (trace (snd r)) =
    [ Frame 0 0; Frame 0 1; Frame 0 2; Frame 0 3; Frame 0 4;
      Frame 1 0; Frame 1 1; Frame 1 2; Frame 1 3; Frame 1 4;
      Frame 2 0; Frame 2 1; Frame 2 2; Frame 2 3; Frame 2 4 ] /\
  List.length (filter is_send (trace (snd r))) = 15%nat /\
  outcome_of r = Completed /\
  disconnects (trace (snd r)) = 1%nat /\
  exists tr, trace (snd r) = tr ++ [EDisconnect; EPrint MsgRobotDisconnected].
Proof.
  intros Hmake Hraise Hconn Hsend Hopen Heps Hstart Hend Hauto Hdelay r.
  destruct (episode_sends_of env 0 5 (Heps 0%Z ltac:(lia))) as [S0 P0].
  destruct (episode_sends_of env 1 5 (Heps 1%Z ltac:(lia))) as [S1 P1].
  destruct (episode_sends_of env 2 5 (Heps 2%Z ltac:(lia))) as [S2 P2].
  destruct (quiet_run env cfg (mkDatasetMeta 3 10) 0 2
              Hmake Hraise Hconn Hsend Hopen) as (w' & tr & E & T & D & S & V).
  { discriminate. }
  { apply Qle_bool_iff. rewrite Hdelay. apply Qle_refl. }
  { rewrite Hstart. destruct Hend as [-> | ->]; reflexivity. }
  { intros e He.
    assert (e = 0 \/ e = 1 \/ e = 2)%Z as [-> | [-> | ->]] by lia; assumption. }
  subst r. rewrite E. cbn [fst snd]. unfold outcome_of. cbn [fst snd].
  rewrite T.
  change (Py.range 0 (2 + 1)) with [0; 1; 2]%Z in S.
  cbn [flat_map] in S. rewrite S0, S1, S2 in S. cbn in S.
  assert (L : List.length (filter is_send tr) = 15%nat).
  { assert (G : forall l, List.length (filter is_send l) = List.length (sends l)).
    { induction l as [|x l IH]; [reflexivity|].
      destruct x; cbn; rewrite ?IH; reflexivity. }
    rewrite G, S. reflexivity. }
  rewrite sends_app, disconnects_app, last_verdict_app, filter_app, length_app.
  rewrite S, D, V, L. cbn.
  repeat split. exists tr. reflexivity.
Qed.

Lemma scenario_A_completes_witness :
  let r := ReplayAll.replay_all_episodes Scenario.env_A Scenario.cfg_A [] in
  List.length (filter is_send (trace (snd r))) = 15%nat /\
  outcome_of r = Completed /\
  disconnects (trace (snd r)) = 1%nat.
Proof.
  refine ((fun H => conj (proj1 (proj2 (proj2 H)))
                      (conj (proj1 (proj2 (proj2 (proj2 H))))
                            (proj1 (proj2 (proj2 (proj2 (proj2 H)))))))
            (scenario_A_completes Scenario.env_A Scenario.cfg_A
               eq_refl eq_refl eq_refl _ eq_refl _ eq_refl
               (or_introl eq_refl) eq_refl _)).
  - intros history a. reflexivity.
  - intros e He. exists (Scenario.episode 5).
    split; [reflexivity|]. split; [reflexivity|].
    intros row Hrow. apply repeat_spec in Hrow. subst row. cbn. lia.
  - reflexivity.
Defined.

Lemma setup_normalizes_episode_range_witness :
  let s := ReplayAll.setup_robot_and_dataset Scenario.env_A
             (Scenario.cfg 0 7 true 0) (init_world 0 []) in
  fst s = Ok tt /\ current_episode (snd s) = 0%Z /\ end_episode (snd s) = 2%Z.
Proof.
  refine (proj1 (proj2
            (setup_normalizes_episode_range Scenario.env_A
               (Scenario.cfg 0 7 true 0) (mkDatasetMeta 3 10) (init_world 0 [])
               eq_refl eq_refl eq_refl eq_refl _)) _ _);
    cbn; lia.
Defined.

(** ** The input thread *)

(** The commands that some variant of the listener knows. *)
Lemma is_cmd_false (cmd a b : string) :
  cmd <> a -> cmd <> b -> is_cmd cmd a b = false.
Proof.
  intros Ha Hb. unfold is_cmd.
  destruct (String.eqb_spec cmd a); [contradiction|].
  destruct (String.eqb_spec cmd b); [contradiction|reflexivity].
Qed.

(** C9.  A line whose command is none of h/help, p/pause, n/next, s/skip,
    q/quit, r/reset only prints the diagnostic: no field of the replayer
    changes, and the listener stays in its loop and goes on with the next
    line. *)
Theorem unknown_command_is_ignored (on_reset : option (World -> World))
    (s : string) (rest : list input_item) (w : World) :
  ~ In (command s)
      ["h"; "help"; "p"; "pause"; "n"; "next"; "s"; "skip"; "q"; "quit";
       "r"; "reset"] ->
  let w' := handle_item on_reset (Line s) w in
  w' = emit (EPrint MsgUnknown) w /\
  is_paused w' = is_paused w /\
  should_stop w' = should_stop w /\
  current_episode w' = current_episode w /\
  end_episode w' = end_episode w /\
  total_episodes w' = total_episodes w /\
  robot w' = robot w /\
  input_thread w' = input_thread w /\
  trace w' = trace w ++ [EPrint MsgUnknown] /\
  (input_thread w = Listening -> should_stop w = false ->
   input_listener on_reset (Line s :: rest) w
     = input_listener on_reset rest (emit (EPrint MsgUnknown) w)).
Proof.
  intros Hnot w'.
  assert (E : w' = emit (EPrint MsgUnknown) w).
  { subst w'. cbn [handle_item]. unfold handle_command.
    cbn [In] in Hnot.
    rewrite !is_cmd_false by (intros C; apply Hnot; rewrite C; tauto).
    destruct on_reset; reflexivity. }
  split; [exact E|]. rewrite E. cbn [emit is_paused should_stop current_episode
    end_episode total_episodes robot input_thread trace].
  repeat split.
  intros Hl Hs. cbn [input_listener]. rewrite Hl, Hs.
  fold w'. rewrite E. reflexivity.
Qed.

Lemma unknown_command_is_ignored_witness :
  handle_item None (Line "  Jump ") (init_world 0 [])
    = emit (EPrint MsgUnknown) (init_world 0 []).
Proof.
  refine (proj1 (unknown_command_is_ignored None "  Jump " []
                   (init_world 0 []) _)).
  cbn. intros H.
  repeat (destruct H as [H|H]; [discriminate H|]). exact H.
Defined.

(** The no-break space (U+00A0) and NEXT LINE (U+0085) around a typed line
    are white space to [strip], and [lower] maps the capital letters of
    Latin-1: the line [q] followed by a no-break space is the quit command,
    and the capital A with circumflex (U+00C2) after a [q] makes an unknown
    command. *)
Example command_of_latin1_lines :
  command (String "q" (String (ascii_of_nat 160) EmptyString)) = "q" /\
  command (String (ascii_of_nat 133) (String "Q" EmptyString)) = "q" /\
  command (String "q" (String (ascii_of_nat 194)
                         (String (ascii_of_nat 160) EmptyString)))
    = String "q" (String (ascii_of_nat 226) EmptyString).
Proof. repeat split. Qed.

(** ** Stop requests in the record *)

Lemma saw_stop_app (l1 l2 : list event) :
  saw_stop (l1 ++ l2) = saw_stop l1 || saw_stop l2.
Proof. unfold saw_stop. apply existsb_app. Qed.

Lemma halted_app (l1 l2 : list event) :
  forall b, halted b (l1 ++ l2) = halted b l1 && halted (b || saw_stop l1) l2.
Proof.
  induction l1 as [|e l1 IH]; intros b; cbn [app halted].
  - cbn. rewrite orb_false_r. reflexivity.
  - destruct e; cbn [saw_stop existsb]; fold (saw_stop l1);
      rewrite ?IH, ?orb_false_l; try reflexivity.
    + rewrite andb_assoc. reflexivity.
    + destruct v, b; cbn [implb orb andb]; reflexivity.
Qed.

Lemma halted_weaken (l : list event) :
  forall b, halted true l = true -> halted b l = true.
Proof.
  induction l as [|e l IH]; intros b H; [reflexivity|].
  destruct e; cbn [halted] in *; try (apply IH; exact H).
  - discriminate.
  - destruct v; [|discriminate]. cbn in H. rewrite orb_true_r.
    destruct b; exact H.
Qed.

Lemma halted_inert (l : list event) (b : bool) :
  forallb inert l = true -> halted b l = true /\ saw_stop l = false /\
                            disconnects l = 0%nat /\
                            forall src a c, ~ In (ESendAction src a c) l.
Proof.
  induction l as [|e l IH]; intros H.
  - repeat split. intros src a c [].
  - cbn [forallb] in H. apply andb_prop in H. destruct H as [He Hl].
    destruct (IH Hl) as (H1 & H2 & H3 & H4).
    destruct e; try discriminate He; cbn; repeat split;
      try assumption; intros src0 a0 c0 [C|C]; try discriminate C;
      exact (H4 _ _ _ C).
Qed.

(** The split formulation of [halted]. *)
Lemma halted_split (tr : list event) :
  halted false tr = true ->
  forall l1 cp l2, tr = l1 ++ EReadStop cp true :: l2 ->
    forallb (fun e => negb (is_send e)) l2 = true /\
    forall cp' v, In (EReadStop cp' v) l2 -> v = true.
Proof.
  intros H l1 cp l2 ->.
  rewrite halted_app in H. apply andb_prop in H. destruct H as [_ H].
  cbn [halted implb] in H. rewrite orb_true_r in H.
  apply andb_prop in H. destruct H as [_ H].
  clear l1 cp. induction l2 as [|e l2 IH]; [split; [reflexivity|intros ? ? []]|].
  destruct e; cbn [halted] in H; try (destruct (IH H) as [I1 I2]; split;
    [exact I1 | intros cp' v' [C|C]; [discriminate C | exact (I2 _ _ C)]]).
  - discriminate.
  - destruct v; [|discriminate]. destruct (IH H) as [I1 I2]. split.
    + exact I1.
    + intros cp' v' [C|C]; [inversion C; reflexivity | exact (I2 _ _ C)].
Qed.

(** ** The input thread only prints and sets flags *)

Lemma Heard_refl (w : World) : Heard w w [].
Proof. constructor; try reflexivity; auto. symmetry. apply app_nil_r. Qed.

Lemma Heard_trans (w w1 w2 : World) (n1 n2 : list event) :
  Heard w w1 n1 -> Heard w1 w2 n2 -> Heard w w2 (n1 ++ n2).
Proof.
  intros [] []. constructor; try congruence; auto.
  - rewrite app_assoc. congruence.
  - rewrite forallb_app. apply andb_true_intro. split; assumption.
Qed.

Lemma handle_command_heard (cmd : string) (w : World) :
  exists new, Heard w (handle_command None cmd w) new.
Proof.
  unfold handle_command.
  repeat match goal with
         | |- context [if ?c then _ else _] => destruct c
         end;
    eexists; constructor; cbn; try reflexivity; auto.
Qed.

Lemma handle_item_heard (item : input_item) (w : World) :
  exists new, Heard w (handle_item None item w) new.
Proof.
  destruct item as [s| |]; cbn [handle_item].
  - apply handle_command_heard.
  - exists []. constructor; cbn; try reflexivity; auto. symmetry. apply app_nil_r.
  - exists []. constructor; cbn; try reflexivity; auto. symmetry. apply app_nil_r.
Qed.

Lemma input_listener_heard (items : list input_item) :
  forall w, exists new, Heard w (input_listener None items w) new.
Proof.
  induction items as [|item items IH]; intros w; cbn [input_listener].
  - destruct (input_thread w); try (exists []; apply Heard_refl).
    destruct (should_stop w) eqn:E; [|exists []; apply Heard_refl].
    exists []. constructor; cbn; try reflexivity; auto. symmetry. apply app_nil_r.
  - destruct (input_thread w); try (exists []; apply Heard_refl).
    destruct (should_stop w) eqn:E.
    + exists []. constructor; cbn; try reflexivity; auto.
      symmetry. apply app_nil_r.
    + destruct (handle_item_heard item w) as [n1 H1].
      destruct (IH (handle_item None item w)) as [n2 H2].
      exists (n1 ++ n2). eapply Heard_trans; eassumption.
Qed.

(** The next batch is handled: the schedule loses its head. *)
Lemma deliver_heard (w : World) :
  exists new,
    trace (deliver None w) = trace w ++ new /\
    forallb inert new = true /\
    robot (deliver None w) = robot w /\
    dataset (deliver None w) = dataset w /\
    current_episode (deliver None w) = current_episode w /\
    end_episode (deliver None w) = end_episode w /\
    stdin (deliver None w) = tl (stdin w) /\
    (should_stop w = true -> should_stop (deliver None w) = true) /\
    (stdin w = [] -> deliver None w = w).
Proof.
  unfold deliver. destruct (stdin w) as [|batch rest] eqn:E.
  - exists []. rewrite app_nil_r. repeat split; auto.
  - destruct (input_listener_heard batch (set_stdin rest w)) as [new []].
    exists new. repeat split; try assumption. discriminate.
Qed.

(** ** Composing what pieces of the playing code guarantee *)

Lemma Sound_inert {A : Type} (a : A) (l : list event) (w : World) :
  forallb inert l = true -> Sound w (Ok a) (add_events l w) l.
Proof.
  intros H. destruct (halted_inert l (should_stop w) H) as (H1 & H2 & H3 & H4).
  constructor; cbn; try reflexivity; auto.
  - rewrite H2. discriminate.
  - intros _. discriminate.
  - intros src a0 c l1 l2 C. destruct (H4 src a0 (Some c)).
    rewrite C. apply in_elt.
Qed.

Lemma Sound_ret {A : Type} (a : A) (w : World) : Sound w (Ok a) w [].
Proof.
  pose proof (Sound_inert a [] w eq_refl) as H.
  rewrite add_events_nil in H. exact H.
Qed.

Lemma Sound_raise {A : Type} (e : exn) (w : World) :
  Sound w (@Raise A e) w [].
Proof.
  constructor; try reflexivity; auto.
  - symmetry. apply app_nil_r.
  - discriminate.
  - intros _. discriminate.
  - intros src a c l1 l2 C. destruct l1; discriminate C.
Qed.

Lemma Sound_hang {A : Type} (w : World) :
  should_stop w = false -> Sound w (@Hang A) w [].
Proof.
  intros Hs. constructor; try reflexivity; auto.
  - symmetry. apply app_nil_r.
  - discriminate.
  - intros [C|C]; [congruence|discriminate C].
  - intros src a c l1 l2 C. destruct l1; discriminate C.
Qed.

Lemma Sound_seq {A B : Type} (a : A) (r : result B) (w w1 w2 : World)
    (n1 n2 : list event) :
  Sound w (Ok a) w1 n1 -> Sound w1 r w2 n2 -> Sound w r w2 (n1 ++ n2).
Proof.
  intros [T1 R1 D1 C1 E1 M1 H1 S1 N1 X1 F1] [T2 R2 D2 C2 E2 M2 H2 S2 N2 X2 F2].
  constructor.
  - rewrite app_assoc. congruence.
  - congruence.
  - congruence.
  - congruence.
  - congruence.
  - auto.
  - rewrite halted_app. apply andb_true_intro. split; [assumption|].
    destruct (should_stop w) eqn:Ew; cbn [orb].
    + rewrite (M1 eq_refl) in H2. exact H2.
    + destruct (saw_stop n1) eqn:En.
      * rewrite (S1 eq_refl) in H2. exact H2.
      * destruct (should_stop w1); [apply halted_weaken|]; assumption.
  - rewrite saw_stop_app. intros H. apply orb_prop in H. destruct H as [H|H]; auto.
  - rewrite saw_stop_app. intros [H|H].
    + apply N2. left. auto.
    + apply orb_prop in H. destruct H as [H|H].
      * apply N2. left. auto.
      * apply N2. right. exact H.
  - rewrite disconnects_app. lia.
  - intros src a0 c l1 l2 H. apply app_eq_app in H.
    destruct H as [k [[Ha Hb]|[Ha Hb]]].
    + destruct k as [|y k].
      * cbn in Hb. symmetry in Hb.
        apply (F2 src a0 c [] l2). exact Hb.
      * cbn in Hb. inversion Hb; subst.
        destruct (F1 _ _ _ _ _ eq_refl) as [C _]. discriminate C.
    + apply (F2 src a0 c k l2). exact Hb.
Qed.

Lemma Sound_raise_cast {A B : Type} (e : exn) (w w1 : World)
    (n : list event) :
  Sound w (@Raise A e) w1 n -> Sound w (@Raise B e) w1 n.
Proof.
  intros [T1 R1 D1 C1 E1 M1 H1 S1 N1 X1 F1].
  constructor; try assumption.
  - intros _. discriminate.
  - intros src a c l1 l2 H. destruct (F1 _ _ _ _ _ H) as [C E].
    split; [congruence|exact E].
Qed.

Lemma Sound_hang_cast {A B : Type} (w w1 : World) (n : list event) :
  Sound w (@Hang A) w1 n -> Sound w (@Hang B) w1 n.
Proof.
  intros [T1 R1 D1 C1 E1 M1 H1 S1 N1 X1 F1].
  constructor; try assumption.
  - intros H. destruct (N1 H). reflexivity.
  - intros src a c l1 l2 H. destruct (F1 _ _ _ _ _ H) as [C E]. discriminate C.
Qed.

Lemma sound_bind {A B : Type} (m : M A) (f : A -> M B) (w : World) :
  sound m w ->
  (forall a w1, m w = (Ok a, w1) -> sound (f a) w1) ->
  sound (bind m f) w.
Proof.
  intros [n1 H1] Hf. unfold sound, bind.
  destruct (m w) as [[a|e|] w1] eqn:E; cbn [fst snd] in *.
  - destruct (Hf a w1 eq_refl) as [n2 H2].
    exists (n1 ++ n2). eapply Sound_seq; eassumption.
  - exists n1. apply (@Sound_raise_cast A B). exact H1.
  - exists n1. apply (@Sound_hang_cast A B). exact H1.
Qed.

Lemma sound_ret {A : Type} (a : A) (w : World) : sound (ret a) w.
Proof. exists []. apply Sound_ret. Qed.

Lemma sound_raise {A : Type} (e : exn) (w : World) : sound (@raise A e) w.
Proof. exists []. apply Sound_raise. Qed.

Lemma sound_get {A : Type} (f : World -> A) (w : World) : sound (get f) w.
Proof. exists []. apply Sound_ret. Qed.

Lemma sound_log (e : event) (w : World) : inert e = true -> sound (log e) w.
Proof.
  intros H. exists [e]. apply (Sound_inert tt [e] w). cbn. rewrite H. reflexivity.
Qed.

Lemma sound_sleep (secs : Q) (w : World) : sound (sleep secs) w.
Proof.
  unfold sleep. destruct (Qle_bool 0 secs);
    [apply sound_log; reflexivity|apply sound_raise].
Qed.

Lemma sound_optional (b : bool) (m : M unit) (w : World) :
  sound m w -> sound (if b then m else ret tt) w.
Proof. intros H. destruct b; [exact H|apply sound_ret]. Qed.

(** A send is sound when no stop request is pending. *)
Lemma sound_send_action (env : Env) (src : sender) (a : action) (w : World) :
  should_stop w = false -> sound (send_action env src a) w.
Proof.
  intros Hs. unfold sound, send_action.
  exists [ESendAction src a (send_result env (trace w) a)].
  destruct (send_result env (trace w) a) as [c|]; cbn [fst snd];
    constructor; try reflexivity.
  - intros C. congruence.
  - cbn. rewrite Hs. reflexivity.
  - intros C. discriminate C.
  - intros _. discriminate.
  - intros src0 a0 c0 l1 l2 C.
    destruct l1 as [|y [|z l1]]; inversion C; subst. split; reflexivity.
  - intros C. congruence.
  - cbn. rewrite Hs. reflexivity.
  - intros C. discriminate C.
  - intros _. discriminate.
  - intros src0 a0 c0 l1 l2 C.
    destruct l1 as [|y [|z l1]]; inversion C.
Qed.

(** ** Reads of the shared flags *)

Lemma read_should_stop_inv (cp : checkpoint) (w w1 : World) (s : bool) :
  read_should_stop None cp w = (Ok s, w1) ->
  s = should_stop w1 /\ stdin w1 = tl (stdin w) /\
  (stdin w = [] -> should_stop w1 = should_stop w).
Proof.
  unfold read_should_stop. intros H. inversion H; subst; clear H.
  destruct (deliver_heard w) as (new & _ & _ & _ & _ & _ & _ & Hin & _ & Hid).
  cbn. repeat split; [exact Hin|]. intros E. rewrite (Hid E). reflexivity.
Qed.

Lemma read_is_paused_inv (w w1 : World) (p : bool) :
  read_is_paused None w = (Ok p, w1) ->
  p = is_paused w1 /\ stdin w1 = tl (stdin w) /\
  (stdin w = [] -> should_stop w1 = should_stop w).
Proof.
  unfold read_is_paused. intros H. inversion H; subst; clear H.
  destruct (deliver_heard w) as (new & _ & _ & _ & _ & _ & _ & Hin & _ & Hid).
  cbn. repeat split; [exact Hin|]. intros E. rewrite (Hid E). reflexivity.
Qed.

Lemma sound_read_should_stop (cp : checkpoint) (w : World) :
  sound (read_should_stop None cp) w.
Proof.
  unfold sound, read_should_stop. cbn [fst snd].
  destruct (deliver_heard w)
    as (new & Ht & Hi & Hr & Hd & Hc & He & _ & Hm & _).
  destruct (halted_inert new (should_stop w) Hi) as (H1 & H2 & H3 & H4).
  exists (new ++ [EReadStop cp (should_stop (deliver None w))]).
  constructor; cbn [emit trace robot dataset current_episode end_episode
                    should_stop]; try assumption.
  - rewrite Ht, app_assoc. reflexivity.
  - rewrite halted_app, H1, H2, orb_false_r. cbn.
    destruct (should_stop w); [rewrite (Hm eq_refl)|]; reflexivity.
  - rewrite saw_stop_app, H2. cbn. rewrite orb_false_r.
    destruct (should_stop (deliver None w)); auto.
  - intros _. discriminate.
  - rewrite disconnects_app, H3. reflexivity.
  - intros src a c l1 l2 H. exfalso.
    assert (Hin : In (ESendAction src a (Some c))
                    (new ++ [EReadStop cp (should_stop (deliver None w))]))
      by (rewrite H; apply in_elt).
    apply in_app_or in Hin. destruct Hin as [Hin|[Hin|[]]].
    + destruct (H4 _ _ _ Hin).
    + discriminate Hin.
Qed.

Lemma sound_read_is_paused (w : World) : sound (read_is_paused None) w.
Proof.
  unfold sound, read_is_paused. cbn [fst snd].
  destruct (deliver_heard w)
    as (new & Ht & Hi & Hr & Hd & Hc & He & _ & Hm & _).
  assert (Hi' : forallb inert (new ++ [EReadPaused (is_paused (deliver None w))])
                = true).
  { rewrite forallb_app, Hi. reflexivity. }
  destruct (halted_inert _ (should_stop w) Hi') as (H1 & H2 & H3 & H4).
  eexists.
  constructor; cbn [emit trace robot dataset current_episode end_episode
                    should_stop]; try eassumption.
  - rewrite Ht, app_assoc. reflexivity.
  - rewrite H2. discriminate.
  - intros _. discriminate.
  - intros src a c l1 l2 H. destruct (H4 src a (Some c)).
    rewrite H. apply in_elt.
Qed.

Lemma get_inv {A : Type} (f : World -> A) (w w1 : World) (a : A) :
  get f w = (Ok a, w1) -> a = f w /\ w1 = w.
Proof. unfold get. intros H. inversion H. split; reflexivity. Qed.

Lemma log_inv (e : event) (w w1 : World) (u : unit) :
  log e w = (Ok u, w1) -> w1 = add_events [e] w.
Proof. unfold log, modify. intros H. inversion H. reflexivity. Qed.

Lemma make_action_inv (names : list string) (row : list Q) (w w1 : World)
    (a : action) :
  make_action names row w = (Ok a, w1) -> w1 = w.
Proof.
  unfold make_action. destruct (build_action _ _ _ _); intros H;
    inversion H; reflexivity.
Qed.

Lemma sound_make_action (names : list string) (row : list Q) (w : World) :
  sound (make_action names row) w.
Proof.
  unfold make_action. destruct (build_action _ _ _ _);
    [apply sound_ret|apply sound_raise].
Qed.

Lemma sound_dataset_fps (w : World) : sound dataset_fps w.
Proof.
  unfold dataset_fps. apply sound_bind; [apply sound_get|].
  intros [meta|] w1 _; [apply sound_ret|apply sound_raise].
Qed.

Lemma sound_frame_budget (fps_ : Z) (dt_s : Q) (w : World) :
  sound (frame_budget fps_ dt_s) w.
Proof.
  unfold frame_budget. destruct (fps_ =? 0)%Z;
    [apply sound_raise|apply sound_ret].
Qed.

Lemma sound_LeRobotDataset_episode (env : Env) (episode_idx : Z) (w : World) :
  sound (LeRobotDataset_episode env episode_idx) w.
Proof.
  unfold LeRobotDataset_episode. apply sound_bind; [apply sound_log; reflexivity|].
  intros _ w1 _. destruct (open_episode env episode_idx);
    [apply sound_raise|apply sound_ret].
Qed.

(** ** The polling loops *)

Lemma sound_pause_loop (budget : nat) :
  forall w, sound (pause_loop None budget) w.
Proof.
  induction budget as [|k IH]; intros w; cbn [pause_loop];
    (apply sound_bind; [apply sound_read_is_paused|]);
    intros p w1 _; (destruct p; [|apply sound_ret]);
    (apply sound_bind; [apply sound_read_should_stop|]);
    intros s w2 E2; apply read_should_stop_inv in E2;
    destruct E2 as (Es & _ & _);
    (destruct s; [apply sound_ret|]);
    (apply sound_bind; [apply sound_log; reflexivity|]);
    intros u w3 E3; apply log_inv in E3; subst w3.
  - exists []. apply (@Sound_hang unit). cbn. congruence.
  - apply IH.
Qed.

Lemma sound_wait_loop (budget : nat) :
  forall w, (List.length (stdin w) <= budget)%nat ->
            sound (wait_loop None budget) w.
Proof.
  induction budget as [|k IH]; intros w Hlen; cbn [wait_loop];
    (apply sound_bind; [apply sound_read_should_stop|]);
    intros s w1 E1; apply read_should_stop_inv in E1;
    destruct E1 as (Es & Hin1 & Hid1);
    (destruct s; [apply sound_ret|]);
    (apply sound_bind; [apply sound_log; reflexivity|]);
    intros u w2 E2; apply log_inv in E2; subst w2;
    (apply sound_bind; [apply sound_read_is_paused|]);
    intros p w3 E3; apply read_is_paused_inv in E3;
    destruct E3 as (Ep & Hin3 & Hid3);
    (destruct p; [|apply sound_ret]); cbn [negb].
  - exists []. apply (@Sound_hang unit).
    assert (E : stdin w = [])
      by (destruct (stdin w); [reflexivity|cbn in Hlen; lia]).
    unfold hang. cbn [snd].
    rewrite Hid3; cbn; [congruence|]. rewrite Hin1, E. reflexivity.
  - apply IH. rewrite Hin3. cbn. rewrite Hin1.
    destruct (stdin w) as [|b1 [|b2 rest]]; cbn in *; lia.
Qed.

(** ** The playing code of replay_all_episodes.py *)

Lemma sound_frame_loop (env : Env) (episode_idx : Z) (names : list string)
    (rows : list (list Q)) :
  forall frame_idx w,
    sound (ReplayAll.frame_loop env episode_idx names rows frame_idx) w.
Proof.
  induction rows as [|row rows IH]; intros frame_idx w;
    cbn [ReplayAll.frame_loop].
  - apply sound_bind; [apply sound_log; reflexivity|].
    intros _ w1 _. apply sound_ret.
  - apply sound_bind; [apply sound_read_should_stop|].
    intros s w1 _. destruct s.
    { apply sound_bind; [apply sound_log; reflexivity|].
      intros _ w2 _. apply sound_ret. }
    apply sound_bind; [apply sound_get|]. intros budget w2 _.
    apply sound_bind; [apply sound_pause_loop|]. intros _ w3 _.
    apply sound_bind; [apply sound_read_should_stop|].
    intros s w4 E4. apply read_should_stop_inv in E4. destruct E4 as (Es & _).
    destruct s; [apply sound_ret|].
    apply sound_bind; [apply sound_make_action|].
    intros a w5 E5. apply make_action_inv in E5. subst w5.
    apply sound_bind; [apply sound_send_action; congruence|]. intros _ w6 _.
    apply sound_bind; [apply sound_dataset_fps|]. intros fps_ w7 _.
    apply sound_bind; [apply sound_frame_budget|]. intros secs w8 _.
    apply sound_bind; [apply sound_log; reflexivity|]. intros _ w9 _.
    apply sound_bind; [apply sound_optional; apply sound_log; reflexivity|].
    intros _ w10 _. apply IH.
Qed.

Lemma sound_replay_single_episode (env : Env) (cfg : ReplayAllConfig)
    (episode_idx : Z) (w : World) :
  sound (ReplayAll.replay_single_episode env cfg episode_idx) w.
Proof.
  unfold ReplayAll.replay_single_episode.
  apply sound_bind; [apply sound_log; reflexivity|]. intros _ w1 _.
  apply sound_bind; [apply sound_LeRobotDataset_episode|]. intros d w2 _.
  apply sound_bind; [apply sound_log; reflexivity|]. intros _ w3 _.
  apply sound_bind; [apply sound_optional; apply sound_log; reflexivity|].
  intros _ w4 _. apply sound_frame_loop.
Qed.

Lemma sound_between_episodes (cfg : ReplayAllConfig) (episode_idx : Z)
    (w : World) :
  sound (ReplayAll.between_episodes cfg episode_idx) w.
Proof.
  unfold ReplayAll.between_episodes.
  apply sound_bind; [apply sound_get|]. intros end_ep w1 _.
  destruct (episode_idx <? end_ep)%Z; [|apply sound_ret].
  apply sound_bind; [apply sound_read_should_stop|]. intros s w2 _.
  destruct s; cbn [negb]; [apply sound_ret|].
  destruct (auto_advance cfg).
  - apply sound_bind; [apply sound_log; reflexivity|]. intros _ w3 _.
    apply sound_sleep.
  - apply sound_bind; [apply sound_log; reflexivity|]. intros _ w3 _.
    apply sound_bind; [apply sound_get|]. intros budget w4 E4.
    apply get_inv in E4. destruct E4 as [-> ->].
    apply sound_wait_loop. lia.
Qed.

Lemma sound_episode_loop (env : Env) (cfg : ReplayAllConfig)
    (episodes : list Z) :
  forall w, sound (ReplayAll.episode_loop env cfg episodes) w.
Proof.
  induction episodes as [|e episodes IH]; intros w;
    cbn [ReplayAll.episode_loop]; [apply sound_ret|].
  apply sound_bind; [apply sound_read_should_stop|]. intros s w1 _.
  destruct s; [apply sound_ret|].
  apply sound_bind; [apply sound_log; reflexivity|]. intros _ w2 _.
  apply sound_bind; [apply sound_replay_single_episode|]. intros ok w3 _.
  destruct ok; cbn [negb]; [|apply sound_ret].
  apply sound_bind; [apply sound_between_episodes|]. intros _ w4 _.
  apply IH.
Qed.

(** The part of the body of [run] that follows the setup. *)
Lemma sound_play (env : Env) (cfg : ReplayAllConfig) (w : World) :
  sound (ReplayAll.play env cfg) w.
Proof.
  unfold ReplayAll.play.
  apply sound_bind; [apply sound_log; reflexivity|]. intros _ w1 _.
  apply sound_bind; [apply sound_get|]. intros first_ep w2 _.
  apply sound_bind; [apply sound_get|]. intros end_ep w3 _.
  apply sound_bind; [apply sound_episode_loop|]. intros _ w4 _.
  apply sound_bind; [apply sound_read_should_stop|]. intros s w5 _.
  destruct s; apply sound_log; reflexivity.
Qed.

(** ** The anatomy of a run of replay_all_episodes.py *)

Lemma setup_frame (env : Env) (cfg : ReplayAllConfig) (w : World) :
  exists S,
    trace (snd (ReplayAll.setup_robot_and_dataset env cfg w)) = trace w ++ S /\
    forallb inert S = true /\
    (forall e, ~ In (ELoadDataset (Some e)) S) /\
    should_stop (snd (ReplayAll.setup_robot_and_dataset env cfg w))
      = should_stop w /\
    fst (ReplayAll.setup_robot_and_dataset env cfg w) <> Hang /\
    (forall u, fst (ReplayAll.setup_robot_and_dataset env cfg w) = Ok u ->
       robot (snd (ReplayAll.setup_robot_and_dataset env cfg w)) = Some true).
Proof.
  unfold ReplayAll.setup_robot_and_dataset, make_robot_from_config, connect, is_connected,
    LeRobotDataset, bind, log, modify, get, print, raise, ret.
  destruct (make_robot_raises env) as [em|], (connect_raises env) as [ec|],
    (connected_after_connect env), (open_dataset env) as [ed|meta];
    cbn;
    try destruct (episode_range _ _ _) as [e'|[s e']]; cbn;
    eexists; (split; [rewrite <- ?app_assoc; reflexivity|]);
    cbn; repeat split; try discriminate;
    intros e0 H; cbn in H;
    repeat (destruct H as [H|H]; [discriminate H|]); exact H.
Qed.

Lemma closing_halted (T : list event) (b : bool) :
  forallb closing T = true ->
  halted b T = true /\ saw_stop T = false /\ sends T = [].
Proof.
  induction T as [|e T IH]; intros H; [repeat split|].
  cbn [forallb] in H. apply andb_prop in H. destruct H as [He HT].
  destruct (IH HT) as (H1 & H2 & H3).
  destruct e; try discriminate He; cbn; repeat split; assumption.
Qed.

Lemma run_unfold (env : Env) (cfg : ReplayAllConfig) (w : World) :
  ReplayAll.run env cfg w =
    match ReplayAll.setup_robot_and_dataset env cfg w with
    | (Ok _, w1) =>
        match ReplayAll.play env cfg (set_input_thread Listening w1) with
        | (Ok _, w2) =>
            match ReplayAll.cleanup w2 with
            | (_, w3) => (Ok tt, w3)
            end
        | (Raise e, w2) =>
            match ReplayAll.cleanup (emit (EPrint (MsgError e)) w2) with
            | (_, w3) => (Ok tt, w3)
            end
        | (Hang, w2) => (Hang, w2)
        end
    | (Raise e, w1) =>
        match ReplayAll.cleanup (emit (EPrint (MsgError e)) w1) with
        | (_, w3) => (Ok tt, w3)
        end
    | (Hang, w1) => (Hang, w1)
    end.
Proof.
  unfold ReplayAll.run, try_finally, try_except, ReplayAll.run_body.
  unfold bind at 1.
  destruct (ReplayAll.setup_robot_and_dataset env cfg w) as [[u|e|] w1];
    [|unfold ReplayAll.cleanup, bind, get, print, log, modify;
      cbn [robot emit fst snd];
      destruct (robot w1) as [[|]|]; reflexivity | reflexivity].
  unfold bind at 1, start_input_listener, modify.
  destruct (ReplayAll.play env cfg (set_input_thread Listening w1))
    as [[[]|e|] w2];
    [| unfold print, log, modify | reflexivity];
    unfold ReplayAll.cleanup, bind, get; cbn [robot emit];
    destruct (robot w2) as [[|]|]; reflexivity.
Qed.

Lemma cleanup_flags (w : World) :
  should_stop (snd (ReplayAll.cleanup w)) = should_stop w.
Proof.
  unfold ReplayAll.cleanup, bind, get. destruct (robot w) as [[|]|]; reflexivity.
Qed.

Lemma run_anatomy (env : Env) (cfg : ReplayAllConfig) (w : World) :
  should_stop w = false ->
  exists S P T,
    trace (snd (ReplayAll.run env cfg w)) = trace w ++ S ++ P ++ T /\
    forallb inert S = true /\
    (forall e, ~ In (ELoadDataset (Some e)) S) /\
    halted false P = true /\
    (saw_stop P = true -> fst (ReplayAll.run env cfg w) = Ok tt) /\
    (saw_stop P = true -> should_stop (snd (ReplayAll.run env cfg w)) = true) /\
    disconnects P = 0%nat /\
    forallb closing T = true /\
    (forall src a c p1 p2, P = p1 ++ ESendAction src a (Some c) :: p2 ->
       fst (ReplayAll.run env cfg w) = Ok tt /\
       p2 = [] /\
       T = [EPrint (MsgError c); EDisconnect; EPrint MsgRobotDisconnected]).
Proof.
  intros Hstop.
  destruct (setup_frame env cfg w) as (S & HS & HI & HL & Hs & Hh & Hr).
  rewrite run_unfold.
  destruct (ReplayAll.setup_robot_and_dataset env cfg w) as [[u|e|] w1] eqn:E;
    cbn [fst snd] in *.
  - (* the setup went through *)
    destruct (sound_play env cfg (set_input_thread Listening w1)) as [P HP].
    destruct HP as [T1 R1 D1 C1 E1 M1 H1 S1 N1 X1 F1].
    cbn [robot trace should_stop set_input_thread] in *.
    rewrite Hs, Hstop in H1.
    destruct (ReplayAll.play env cfg (set_input_thread Listening w1))
      as [[u'|e|] w2] eqn:EP; cbn [fst snd] in *.
    + exists S, P, [EDisconnect; EPrint MsgRobotDisconnected].
      pose proof (cleanup_flags w2) as Hc. revert Hc.
      unfold ReplayAll.cleanup, bind, get. rewrite R1, (Hr u eq_refl).
      cbn. intros _. rewrite T1, HS, <- !app_assoc.
      repeat split; try assumption; try discriminate;
        match goal with
        | H : P = _ ++ _ :: _ |- _ =>
            destruct (F1 _ _ _ _ _ H) as [C _]; discriminate C
        end.
    + exists S, P, [EPrint (MsgError e); EDisconnect;
                    EPrint MsgRobotDisconnected].
      unfold ReplayAll.cleanup, bind, get.
      cbn [robot emit fst snd]. rewrite R1, (Hr u eq_refl).
      cbn. rewrite T1, HS, <- !app_assoc.
      repeat split; try assumption; try discriminate;
        match goal with
        | H : P = _ ++ _ :: _ |- _ =>
            destruct (F1 _ _ _ _ _ H) as [C Epre]; inversion C; subst;
              reflexivity
        end.
    + exists S, P, [].
      rewrite T1, HS, app_nil_r, <- !app_assoc.
      repeat split; try assumption;
        try match goal with
            | H : P = _ ++ _ :: _ |- _ =>
                destruct (F1 _ _ _ _ _ H) as [C _]; discriminate C
            end.
      intros H. exfalso. apply N1; [right; exact H|reflexivity].
  - (* the setup raised *)
    unfold ReplayAll.cleanup, bind, get.
    cbn [robot emit fst snd].
    destruct (robot w1) as [[|]|];
      [ exists S, [], [EPrint (MsgError e); EDisconnect;
                       EPrint MsgRobotDisconnected]
      | exists S, [], [EPrint (MsgError e)]
      | exists S, [], [EPrint (MsgError e)] ];
      cbn; rewrite HS, <- ?app_assoc;
      repeat split; try assumption; try discriminate; try contradiction;
      match goal with
      | H : [] = ?p ++ _ :: _ |- _ => destruct p; discriminate H
      end.
  - destruct (Hh eq_refl).
Qed.

Lemma sends_nil_iff (l : list event) :
  sends l = [] <-> forall src a res, ~ In (ESendAction src a res) l.
Proof.
  induction l as [|e l IH]; cbn; [split; [intros _ ? ? ? []|reflexivity]|].
  destruct e; cbn; try (rewrite IH; split;
    [ intros H src0 a0 res0 [C|C]; [discriminate C|exact (H _ _ _ C)]
    | intros H src0 a0 res0 C; exact (H src0 a0 res0 (or_intror C)) ]).
  split; [discriminate|]. intros H. destruct (H _ _ _ (or_introl eq_refl)).
Qed.

Lemma no_send_sends (l : list event) :
  forallb (fun e => negb (is_send e)) l = true -> sends l = [].
Proof.
  induction l as [|e l IH]; [reflexivity|]. cbn [forallb]. intros H.
  apply andb_prop in H. destruct H as [He Hl].
  destruct e; try discriminate He; cbn; auto.
Qed.

Lemma whole_run_halted (env : Env) (cfg : ReplayAllConfig)
    (schedule : list (list input_item)) :
  let r := ReplayAll.replay_all_episodes env cfg schedule in
  halted false (trace (snd r)) = true /\
  (saw_stop (trace (snd r)) = true ->
     fst r = Ok tt /\ should_stop (snd r) = true).
Proof.
  unfold ReplayAll.replay_all_episodes.
  set (w0 := init_world (start_episode (dataset_cfg cfg)) schedule).
  destruct (run_anatomy env cfg w0 eq_refl)
    as (S & P & T & Ht & HS & _ & HP & Hr & Hf & _ & HT & _).
  cbn zeta. rewrite Ht. cbn [trace w0 init_world app].
  destruct (halted_inert S false HS) as (S1 & S2 & _).
  destruct (closing_halted T (saw_stop P) HT) as (T1 & T2 & _).
  rewrite halted_app, S1, !saw_stop_app, S2, T2. cbn [orb andb].
  rewrite halted_app, HP. cbn [orb andb]. rewrite T1, orb_false_r.
  split; [reflexivity|].
  intros H. split; auto.
Qed.

(** ** Stop requests *)

(** C7.  Once a read of [should_stop] by the main thread has returned
    [True] -- at the top of a frame, in the pause loop, after it, at the top
    of an episode, between episodes or in the wait loop -- the record of the
    run holds no further call of [send_action], and the run returns. *)
Theorem stop_observed_ends_sending (env : Env) (cfg : ReplayAllConfig)
    (schedule : list (list input_item)) (l1 l2 : list event)
    (cp : checkpoint) :
  let r := ReplayAll.replay_all_episodes env cfg schedule in
  trace (snd r) = l1 ++ EReadStop cp true :: l2 ->
  sends l2 = [] /\
  (forall src a res, ~ In (ESendAction src a res) l2) /\
  fst r = Ok tt.
Proof.
  intros r Hsplit.
  destruct (whole_run_halted env cfg schedule) as [Hh Hs]. fold r in Hh, Hs.
  destruct (halted_split _ Hh l1 cp l2 Hsplit) as [Hn _].
  pose proof (no_send_sends l2 Hn) as Hsends.
  split; [exact Hsends|]. split; [apply sends_nil_iff; exact Hsends|].
  apply Hs. rewrite Hsplit, saw_stop_app. cbn. apply orb_true_r.
Qed.

(** The reset of the real-robot script leaves the flags alone. *)
Lemma reset_robot_keeps_flags (env : Env) (w : World) :
  should_stop (snd (RealRobot.reset_robot env w)) = should_stop w /\
  is_paused (snd (RealRobot.reset_robot env w)) = is_paused w.
Proof.
  unfold RealRobot.reset_robot, try_except, bind, print, log, modify,
    send_action, sleep, log, modify.
  cbn [emit trace fst snd].
  destruct (send_result env _ RealRobot.home_action); split; reflexivity.
Qed.

Lemma real_handle_item_keeps_stop (env : Env) (item : input_item) (w : World) :
  should_stop w = true ->
  should_stop (handle_item (RealRobot.on_reset env) item w) = true.
Proof.
  intros H. destruct item as [s| |]; cbn [handle_item]; [|exact H|reflexivity].
  unfold handle_command, RealRobot.on_reset.
  repeat match goal with
         | |- context [if ?c then _ else _] => destruct c
         end; try exact H; try reflexivity.
  rewrite (proj1 (reset_robot_keeps_flags env _)). exact H.
Qed.

(** C4.  No handler of the input thread clears [should_stop], neither on a
    single input nor over any sequence of inputs, with or without the reset
    command; and in every run, once the main thread has read [should_stop]
    as [True], every later read returns [True] and the flag is still set
    when the run ends. *)
Theorem stop_request_is_permanent :
  (forall item w, should_stop w = true ->
     should_stop (handle_item None item w) = true) /\
  (forall env item w, should_stop w = true ->
     should_stop (handle_item (RealRobot.on_reset env) item w) = true) /\
  (forall items w, should_stop w = true ->
     should_stop (input_listener None items w) = true) /\
  (forall env cfg schedule l1 cp l2,
     let r := ReplayAll.replay_all_episodes env cfg schedule in
     trace (snd r) = l1 ++ EReadStop cp true :: l2 ->
     (forall cp' v, In (EReadStop cp' v) l2 -> v = true) /\
     should_stop (snd r) = true).
Proof.
  split; [|split; [|split]].
  - intros item w H. destruct (handle_item_heard item w) as [new Hh].
    apply (hrd_mono _ _ _ Hh). exact H.
  - intros env item w H. apply real_handle_item_keeps_stop. exact H.
  - intros items w H. destruct (input_listener_heard items w) as [new Hh].
    apply (hrd_mono _ _ _ Hh). exact H.
  - intros env cfg schedule l1 cp l2 r Hsplit.
    destruct (whole_run_halted env cfg schedule) as [Hh Hs]. fold r in Hh, Hs.
    destruct (halted_split _ Hh l1 cp l2 Hsplit) as [_ Hreads].
    split; [exact Hreads|].
    apply Hs. rewrite Hsplit, saw_stop_app. cbn. apply orb_true_r.
Qed.

Lemma stop_observed_ends_sending_witness :
  let r := ReplayAll.replay_all_episodes Scenario.env_A Scenario.cfg_A
             Scenario.quit_early in
  sends (skipn 18 (trace (snd r))) = [] /\ fst r = Ok tt.
Proof.
  intros r.
  destruct (stop_observed_ends_sending Scenario.env_A Scenario.cfg_A
              Scenario.quit_early (firstn 17 (trace (snd r)))
              (skipn 18 (trace (snd r))) FrameTop) as (H1 & _ & H3).
  - vm_compute. reflexivity.
  - split; [exact H1|exact H3].
Defined.

Lemma stop_request_is_permanent_witness :
  let r := ReplayAll.replay_all_episodes Scenario.env_A Scenario.cfg_A
             Scenario.quit_early in
  should_stop (handle_item None (Line "p") (snd r)) = true /\
  should_stop (snd r) = true.
Proof.
  intros r.
  destruct stop_request_is_permanent as (H1 & _ & _ & H3).
  destruct (H3 Scenario.env_A Scenario.cfg_A Scenario.quit_early
              (firstn 17 (trace (snd r))) FrameTop
              (skipn 18 (trace (snd r)))) as [_ H4].
  - vm_compute. reflexivity.
  - split; [apply H1; exact H4|exact H4].
Defined.

(** ** Failures *)

(** C6.  When [connect()] raises, or returns with the robot not connected,
    the run ends before the dataset is opened: no episode is fetched, nothing
    is sent, the failure is reported, and the [finally] disconnects exactly
    when the robot reports itself connected. *)
Theorem connect_failure_is_fatal (env : Env) (cfg : ReplayAllConfig)
    (schedule : list (list input_item)) :
  make_robot_raises env = None ->
  connect_raises env <> None \/ connected_after_connect env = false ->
  let r := ReplayAll.replay_all_episodes env cfg schedule in
  let cause :=
    match connect_raises env with
    | Some c => c
    | None => ValueError RobotNotConnected
    end in
  fst r = Ok tt /\
  trace (snd r) =
    [EMakeRobot; EConnect; EPrint (MsgError cause)] ++
    (if connected_after_connect env
     then [EDisconnect; EPrint MsgRobotDisconnected] else []) /\
  outcome_of r = Failed cause /\
  sends (trace (snd r)) = [] /\
  (forall episodes, ~ In (ELoadDataset episodes) (trace (snd r))) /\
  disconnects (trace (snd r)) =
    (if connected_after_connect env then 1 else 0)%nat.
Proof.
  intros Hmake Hfail r cause.
  assert (E : r =
    (Ok tt,
     let w1 := emit (EPrint (MsgError cause))
                 (set_robot (Some (connected_after_connect env))
                    (emit EConnect
                       (set_robot (Some false)
                          (emit EMakeRobot
                             (init_world (start_episode (dataset_cfg cfg))
                                schedule))))) in
     if connected_after_connect env
     then emit (EPrint MsgRobotDisconnected)
            (set_robot (Some false) (emit EDisconnect w1))
     else w1)).
  { subst r cause. unfold ReplayAll.replay_all_episodes. rewrite run_unfold.
    unfold ReplayAll.setup_robot_and_dataset, make_robot_from_config, connect,
      is_connected, bind, log, modify, get, raise, ret.
    rewrite Hmake. cbn [fst snd robot set_robot emit].
    destruct (connect_raises env) as [c|] eqn:Ec.
    - unfold ReplayAll.cleanup, bind, get. cbn [robot emit fst snd].
      destruct (connected_after_connect env); reflexivity.
    - destruct Hfail as [C|C]; [destruct (C eq_refl)|]. rewrite C.
      reflexivity. }
  rewrite E. unfold outcome_of. cbn [fst snd].
  destruct (connected_after_connect env); cbn; repeat split;
    intros episodes H; repeat (destruct H as [H|H]; [discriminate H|]);
    exact H.
Qed.

Lemma connect_failure_is_fatal_witness :
  let r := ReplayAll.replay_all_episodes Scenario.env_unreachable
             Scenario.cfg_A [] in
  fst r = Ok tt /\ sends (trace (snd r)) = [] /\
  disconnects (trace (snd r)) = 0%nat.
Proof.
  intros r.
  destruct (connect_failure_is_fatal Scenario.env_unreachable Scenario.cfg_A
              [] eq_refl (or_intror eq_refl)) as (H1 & _ & _ & H4 & _ & H6).
  split; [exact H1|]. split; [exact H4|exact H6].
Defined.

(** ** The skip command *)

(** Once the listener has left its loop it reads no further input. *)
Lemma exited_listener_is_deaf (on_reset : option (World -> World))
    (items : list input_item) (w : World) :
  input_thread w = Exited -> input_listener on_reset items w = w.
Proof. intros H. destruct items; cbn [input_listener]; rewrite H; reflexivity. Qed.

(** C3.  What the skip command does: in every variant of the listener it
    prints its message and ends the listener, setting no flag; the main
    thread goes on with the current episode, and input typed afterwards is
    never read.  In the run below the operator types [s] during episode 0 and
    [q] later: all 15 frames are sent and the run reports completion. *)
Theorem skip_only_ends_the_listener :
  (forall on_reset w,
     handle_item on_reset (Line "s") w
       = set_input_thread Exited (emit (EPrint MsgSkipping) w) /\
     handle_item on_reset (Line "skip") w
       = set_input_thread Exited (emit (EPrint MsgSkipping) w)) /\
  let r := ReplayAll.replay_all_episodes Scenario.env_A Scenario.cfg_A
             Scenario.skip_then_quit in
  In (EPrint MsgSkipping) (trace (snd r)) /\
  sends (trace (snd r)) =
    [ Frame 0 0; Frame 0 1; Frame 0 2; Frame 0 3; Frame 0 4;
      Frame 1 0; Frame 1 1; Frame 1 2; Frame 1 3; Frame 1 4;
      Frame 2 0; Frame 2 1; Frame 2 2; Frame 2 3; Frame 2 4 ] /\
  input_thread (snd r) = Exited /\
  should_stop (snd r) = false /\
  outcome_of r = Completed.
Proof.
  split.
  - intros on_reset w. split; reflexivity.
  - vm_compute. repeat split. repeat (first [left; reflexivity | right]).
Qed.

(** ** Failed sends in the record *)

Lemma frame_failed_app (l1 l2 : list event) :
  frame_failed (l1 ++ l2) = frame_failed l1 || frame_failed l2.
Proof. unfold frame_failed. apply existsb_app. Qed.

Lemma ends_at_failure_app (l1 l2 : list event) :
  forall b, ends_at_failure b (l1 ++ l2)
            = ends_at_failure b l1 && ends_at_failure (b || frame_failed l1) l2.
Proof.
  induction l1 as [|e l1 IH]; intros b; cbn [app ends_at_failure].
  - cbn. rewrite orb_false_r. reflexivity.
  - rewrite IH. cbn [frame_failed existsb]. fold (frame_failed l1).
    rewrite orb_assoc, andb_assoc. reflexivity.
Qed.

Lemma ends_at_failure_clean (l : list event) :
  frame_failed l = false -> ends_at_failure false l = true.
Proof.
  induction l as [|e l IH]; [reflexivity|].
  cbn [frame_failed existsb ends_at_failure]. fold (frame_failed l).
  intros H. apply orb_false_elim in H. destruct H as [He Hl].
  rewrite He. cbn [orb negb]. rewrite (IH Hl).
  destruct (is_frame_send e); reflexivity.
Qed.

(** The split formulation of [ends_at_failure]. *)
Lemma ends_at_failure_split (tr : list event) :
  ends_at_failure false tr = true ->
  forall l1 e f a c l2,
    tr = l1 ++ ESendAction (Frame e f) a (Some c) :: l2 ->
    forallb (fun x => negb (is_frame_send x)) l2 = true.
Proof.
  intros H l1 e f a c l2 ->.
  rewrite ends_at_failure_app in H. apply andb_prop in H. destruct H as [_ H].
  cbn [ends_at_failure is_frame_send is_failed_frame] in H.
  rewrite orb_true_r in H. apply andb_prop in H. destruct H as [_ H].
  clear l1. induction l2 as [|x l2 IH]; [reflexivity|].
  cbn [ends_at_failure orb] in H. apply andb_prop in H. destruct H as [Hx H].
  cbn [forallb]. rewrite (IH H), andb_true_r.
  destruct (is_frame_send x); [discriminate Hx|reflexivity].
Qed.

(** ** Clean pieces of code *)

Lemma clean_ret {A : Type} (a : A) (w : World) : clean (ret a) w.
Proof. exists []. cbn. rewrite app_nil_r. repeat split. Qed.

Lemma clean_raise {A : Type} (e : exn) (w : World) : clean (@raise A e) w.
Proof. exists []. cbn. rewrite app_nil_r. repeat split. Qed.

Lemma clean_hang {A : Type} (w : World) : clean (@hang A) w.
Proof. exists []. cbn. rewrite app_nil_r. repeat split. Qed.

Lemma clean_get {A : Type} (f : World -> A) (w : World) : clean (get f) w.
Proof. exists []. cbn. rewrite app_nil_r. repeat split. Qed.

Lemma clean_log (e : event) (w : World) :
  is_frame_send e = false -> is_disconnect e = false -> clean (log e) w.
Proof.
  intros H1 H2. exists [e]. cbn. unfold disconnects. cbn.
  rewrite H1, H2. repeat split.
Qed.

Lemma clean_sleep (secs : Q) (w : World) : clean (sleep secs) w.
Proof.
  unfold sleep. destruct (Qle_bool 0 secs);
    [apply clean_log; reflexivity|apply clean_raise].
Qed.

Lemma clean_bind {A B : Type} (m : M A) (f : A -> M B) (w : World) :
  clean m w ->
  (forall a w1, m w = (Ok a, w1) -> clean (f a) w1) ->
  clean (bind m f) w.
Proof.
  intros (n1 & T1 & R1 & D1 & F1) Hf. unfold clean, bind.
  destruct (m w) as [[a|e|] w1] eqn:E; cbn [fst snd] in *.
  - destruct (Hf a w1 eq_refl) as (n2 & T2 & R2 & D2 & F2).
    exists (n1 ++ n2). unfold no_frames in *.
    rewrite T2, T1, R2, R1, app_assoc, disconnects_app,
      forallb_app, D1, D2, F1, F2. repeat split.
  - exists n1. repeat split; assumption.
  - exists n1. repeat split; assumption.
Qed.

Lemma clean_try_except {A : Type} (body : M A) (handler : exn -> M A)
    (w : World) :
  clean body w ->
  (forall e w1, body w = (Raise e, w1) -> clean (handler e) w1) ->
  clean (try_except body handler) w.
Proof.
  intros (n1 & T1 & R1 & D1 & F1) Hh. unfold clean, try_except.
  destruct (body w) as [[a|e|] w1] eqn:E; cbn [fst snd] in *.
  - exists n1. repeat split; assumption.
  - destruct (Hh e w1 eq_refl) as (n2 & T2 & R2 & D2 & F2).
    exists (n1 ++ n2). unfold no_frames in *.
    rewrite T2, T1, R2, R1, app_assoc, disconnects_app,
      forallb_app, D1, D2, F1, F2. repeat split.
  - exists n1. repeat split; assumption.
Qed.


Lemma clean_send_home (env : Env) (a : action) (w : World) :
  clean (send_action env Home a) w.
Proof.
  unfold clean, send_action.
  destruct (send_result env (trace w) a); eexists; cbn; repeat split.
Qed.

Lemma clean_reset_robot (env : Env) (w : World) :
  clean (RealRobot.reset_robot env) w.
Proof.
  unfold RealRobot.reset_robot. apply clean_try_except.
  - apply clean_bind; [apply clean_log; reflexivity|]. intros _ w1 _.
    apply clean_bind; [apply clean_send_home|]. intros _ w2 _.
    apply clean_bind; [apply clean_log; reflexivity|]. intros _ w3 _.
    apply clean_log; reflexivity.
  - intros e w1 _. apply clean_log; reflexivity.
Qed.

(** ** The input thread of the real-robot script *)

Lemma clean_modify_trans (f g : World -> World) (w : World) :
  clean (modify f) w -> clean (modify g) (f w) ->
  clean (modify (fun x => g (f x))) w.
Proof.
  intros (n1 & T1 & R1 & D1 & F1) (n2 & T2 & R2 & D2 & F2).
  cbn [modify fst snd] in *.
  exists (n1 ++ n2). cbn [modify fst snd]. unfold no_frames in *.
  rewrite T2, T1, R2, R1, app_assoc, disconnects_app, forallb_app,
    D1, D2, F1, F2. repeat split.
Qed.


Lemma real_handle_command_clean (env : Env) (cmd : string) (w : World) :
  clean (modify (handle_command (RealRobot.on_reset env) cmd)) w.
Proof.
  unfold clean. cbn [modify fst snd].
  unfold handle_command, RealRobot.on_reset.
  destruct (is_cmd cmd "q" "quit");
    [eexists; cbn; repeat split|].
  destruct (is_cmd cmd "p" "pause");
    [eexists; cbn; repeat split|].
  destruct (is_cmd cmd "n" "next");
    [destruct (is_paused w); eexists; cbn; repeat split|].
  destruct (is_cmd cmd "s" "skip");
    [eexists; cbn; repeat split|].
  destruct (is_cmd cmd "h" "help");
    [eexists; cbn; repeat split|].
  destruct (is_cmd cmd "r" "reset");
    [|eexists; cbn; repeat split].
  destruct (clean_reset_robot env (emit (EPrint MsgResetting) w))
    as (n & T & R & D & F).
  exists (EPrint MsgResetting :: n).
  rewrite T, R. cbn [emit trace robot]. rewrite <- app_assoc.
  repeat split; assumption.
Qed.

Lemma real_handle_item_clean (env : Env) (item : input_item) (w : World) :
  clean (modify (handle_item (RealRobot.on_reset env) item)) w.
Proof.
  destruct item as [s| |].
  - apply real_handle_command_clean.
  - exists []. cbn. rewrite app_nil_r. repeat split.
  - exists []. cbn. rewrite app_nil_r. repeat split.
Qed.

Lemma real_input_listener_clean (env : Env) (items : list input_item) :
  forall w, clean (modify (input_listener (RealRobot.on_reset env) items)) w.
Proof.
  induction items as [|item items IH]; intros w.
  - unfold clean. cbn [modify fst snd input_listener].
    destruct (input_thread w); try destruct (should_stop w);
      exists []; cbn; rewrite app_nil_r; repeat split.
  - unfold clean. cbn [modify fst snd input_listener].
    destruct (input_thread w);
      try (exists []; cbn; rewrite app_nil_r; repeat split; fail).
    destruct (should_stop w);
      [exists []; cbn; rewrite app_nil_r; repeat split|].
    apply (clean_modify_trans
             (handle_item (RealRobot.on_reset env) item)
             (input_listener (RealRobot.on_reset env) items) w).
    + apply real_handle_item_clean.
    + apply IH.
Qed.

Lemma real_deliver_clean (env : Env) (w : World) :
  clean (modify (deliver (RealRobot.on_reset env))) w.
Proof.
  unfold clean. cbn [modify fst snd]. unfold deliver.
  destruct (stdin w) as [|batch rest].
  - exists []. cbn. rewrite app_nil_r. repeat split.
  - apply (real_input_listener_clean env batch (set_stdin rest w)).
Qed.

Lemma real_read_should_stop_clean (env : Env) (cp : checkpoint) (w : World) :
  clean (read_should_stop (RealRobot.on_reset env) cp) w.
Proof.
  destruct (real_deliver_clean env w) as (n & T & R & D & F).
  cbn [modify fst snd] in *. unfold clean, read_should_stop. cbn [fst snd].
  eexists (n ++ [_]). cbn [emit trace robot]. unfold no_frames in *.
  rewrite T, R, app_assoc, disconnects_app, forallb_app, D, F.
  repeat split.
Qed.

Lemma real_read_is_paused_clean (env : Env) (w : World) :
  clean (read_is_paused (RealRobot.on_reset env)) w.
Proof.
  destruct (real_deliver_clean env w) as (n & T & R & D & F).
  cbn [modify fst snd] in *. unfold clean, read_is_paused. cbn [fst snd].
  eexists (n ++ [_]). cbn [emit trace robot]. unfold no_frames in *.
  rewrite T, R, app_assoc, disconnects_app, forallb_app, D, F.
  repeat split.
Qed.

Lemma real_pause_loop_clean (env : Env) (budget : nat) :
  forall w, clean (pause_loop (RealRobot.on_reset env) budget) w.
Proof.
  induction budget as [|k IH]; intros w; cbn [pause_loop];
    (apply clean_bind; [apply real_read_is_paused_clean|]);
    intros p w1 _; (destruct p; [|apply clean_ret]);
    (apply clean_bind; [apply real_read_should_stop_clean|]);
    intros s w2 _; (destruct s; [apply clean_ret|]);
    (apply clean_bind; [apply clean_log; reflexivity|]);
    intros _ w3 _; [apply clean_hang|apply IH].
Qed.

Lemma real_wait_loop_clean (env : Env) (budget : nat) :
  forall w, clean (wait_loop (RealRobot.on_reset env) budget) w.
Proof.
  induction budget as [|k IH]; intros w; cbn [wait_loop];
    (apply clean_bind; [apply real_read_should_stop_clean|]);
    intros s w1 _; (destruct s; [apply clean_ret|]);
    (apply clean_bind; [apply clean_log; reflexivity|]);
    intros _ w2 _;
    (apply clean_bind; [apply real_read_is_paused_clean|]);
    intros p w3 _; (destruct p; [|apply clean_ret]); cbn [negb];
    [apply clean_hang|apply IH].
Qed.

(** ** Staged pieces of code *)

Lemma no_frames_facts (l : list event) :
  no_frames l = true ->
  frame_failed l = false /\ forall b, ends_at_failure b l = true.
Proof.
  induction l as [|e l IH]; intros H; [split; [reflexivity|intros b; reflexivity]|].
  unfold no_frames in H. cbn [forallb] in H.
  apply andb_prop in H. destruct H as [He Hl].
  destruct (IH Hl) as [I1 I2].
  assert (Hf : is_failed_frame e = false).
  { destruct e as [| | |[? ?|] ? [?|]| | | | | | | |]; try reflexivity;
      discriminate He. }
  split.
  - cbn [frame_failed existsb]. fold (frame_failed l). rewrite Hf, I1.
    reflexivity.
  - intros b. cbn [ends_at_failure]. rewrite Hf, orb_false_r, I2.
    destruct (is_frame_send e); [discriminate He|reflexivity].
Qed.

Lemma staged_of_clean {A : Type} (sig : A -> bool) (m : M A) (w : World) :
  clean m w -> staged sig m w.
Proof.
  intros (n & T & R & D & F). destruct (no_frames_facts n F) as [F1 F2].
  exists n. repeat split; try assumption; [apply F2|].
  rewrite F1. discriminate.
Qed.

(** A piece that ended well without a failed send, followed by a staged
    piece. *)
Lemma staged_bind_ok {A B : Type} (sig : B -> bool) (m : M A) (f : A -> M B)
    (w w1 : World) (a : A) (n1 : list event) :
  m w = (Ok a, w1) ->
  trace w1 = trace w ++ n1 ->
  robot w1 = robot w ->
  disconnects n1 = 0%nat ->
  frame_failed n1 = false ->
  staged sig (f a) w1 ->
  staged sig (bind m f) w.
Proof.
  intros E T1 R1 D1 F1 (n2 & T2 & R2 & D2 & E2 & S2).
  unfold staged. rewrite (bind_ok m f w w1 a E).
  exists (n1 ++ n2).
  rewrite T2, T1, R2, R1, app_assoc, disconnects_app, D1, D2,
    ends_at_failure_app, frame_failed_app, F1,
    (ends_at_failure_clean n1 F1).
  cbn [orb andb]. repeat split; assumption.
Qed.

Lemma staged_bind_clean {A B : Type} (sig : B -> bool) (m : M A)
    (f : A -> M B) (w : World) :
  clean m w ->
  (forall a w1, m w = (Ok a, w1) -> staged sig (f a) w1) ->
  staged sig (bind m f) w.
Proof.
  intros Hc Hf. pose proof Hc as (n1 & T1 & R1 & D1 & F1).
  destruct (no_frames_facts n1 F1) as [F1' _].
  destruct (m w) as [[a|e|] w1] eqn:E; cbn [fst snd] in *.
  - eapply staged_bind_ok; eauto.
  - apply (staged_of_clean sig). apply clean_bind; [exact Hc|].
    intros a w2 C. congruence.
  - apply (staged_of_clean sig). apply clean_bind; [exact Hc|].
    intros a w2 C. congruence.
Qed.

(** A staged piece followed by code that, when told to stop, sends no frame
    and returns well. *)
Lemma staged_bind_stop {A B : Type} (sig1 : A -> bool) (sig2 : B -> bool)
    (m : M A) (f : A -> M B) (w : World) :
  staged sig1 m w ->
  (forall a w1, m w = (Ok a, w1) -> sig1 a = true ->
     clean (f a) w1 /\ exists b, fst (f a w1) = Ok b /\ sig2 b = true) ->
  (forall a w1, m w = (Ok a, w1) -> sig1 a = false -> staged sig2 (f a) w1) ->
  staged sig2 (bind m f) w.
Proof.
  intros (n1 & T1 & R1 & D1 & E1 & S1) Hstop Hgo.
  destruct (m w) as [[a|e|] w1] eqn:E; cbn [fst snd] in *.
  - destruct (sig1 a) eqn:Ea.
    + destruct (Hstop a w1 eq_refl Ea) as ((n2 & T2 & R2 & D2 & F2) & b & Eb & Sb).
      destruct (no_frames_facts n2 F2) as [F2' F2''].
      unfold staged. rewrite (bind_ok m f w w1 a E).
      exists (n1 ++ n2).
      rewrite T2, T1, R2, R1, app_assoc, disconnects_app, D1, D2,
        ends_at_failure_app, E1, F2''.
      repeat split. intros _. exists b. auto.
    + assert (F1 : frame_failed n1 = false).
      { destruct (frame_failed n1); [|reflexivity].
        destruct (S1 eq_refl) as (a' & Ca & Sa). inversion Ca; subst.
        congruence. }
      eapply staged_bind_ok; eauto.
  - unfold staged. rewrite (bind_raise m f w w1 e E). cbn [fst snd].
    exists n1. repeat split; try assumption.
    intros F. destruct (S1 F) as (a' & Ca & _). discriminate Ca.
  - unfold staged. rewrite (bind_hang m f w w1 E). cbn [fst snd].
    exists n1. repeat split; try assumption.
    intros F. destruct (S1 F) as (a' & Ca & _). discriminate Ca.
Qed.

(** ** The playing code of replay_with_real_robot.py *)

Lemma clean_make_action (names : list string) (row : list Q) (w : World) :
  clean (make_action names row) w.
Proof.
  unfold make_action. destruct (build_action _ _ _ _);
    [apply clean_ret|apply clean_raise].
Qed.

Lemma clean_dataset_fps (w : World) : clean dataset_fps w.
Proof.
  unfold dataset_fps. apply clean_bind; [apply clean_get|].
  intros [meta|] w1 _; [apply clean_ret|apply clean_raise].
Qed.

Lemma clean_frame_budget (fps_ : Z) (dt_s : Q) (w : World) :
  clean (frame_budget fps_ dt_s) w.
Proof.
  unfold frame_budget. destruct (fps_ =? 0)%Z;
    [apply clean_raise|apply clean_ret].
Qed.

Lemma clean_LeRobotDataset_episode (env : Env) (episode_idx : Z) (w : World) :
  clean (LeRobotDataset_episode env episode_idx) w.
Proof.
  unfold LeRobotDataset_episode. apply clean_bind; [apply clean_log; reflexivity|].
  intros _ w1 _. destruct (open_episode env episode_idx);
    [apply clean_raise|apply clean_ret].
Qed.

Lemma clean_lookup_all (a : action) (keys : list string) (w : World) :
  clean (RealRobot.lookup_all a keys) w.
Proof.
  induction keys as [|k keys IH]; cbn [RealRobot.lookup_all];
    [apply clean_ret|].
  destruct (RealRobot.has_key a k); [exact IH|apply clean_raise].
Qed.

Lemma clean_safety_prompt (env : Env) (episode_idx : Z) (w : World) :
  clean (RealRobot.safety_prompt env episode_idx) w.
Proof.
  unfold RealRobot.safety_prompt.
  apply clean_bind; [apply clean_log; reflexivity|]. intros _ w1 _.
  apply clean_bind; [apply clean_log; reflexivity|]. intros _ w2 _.
  destruct (prompt_answer env episode_idx);
    [apply clean_ret| apply clean_raise |].
  apply clean_bind; [apply clean_log; reflexivity|]. intros _ w3 _.
  apply clean_ret.
Qed.

(** The [try] around [send_action] in the frame loop. *)
Lemma guarded_send (env : Env) (src : sender) (a : action) (w : World) :
  try_except (send_action env src a ;; ret true)%replay
    (fun e => print (MsgSendError e) ;; ret false)%replay w
  = match send_result env (trace w) a with
    | None => (Ok true, add_events [ESendAction src a None] w)
    | Some c =>
        (Ok false,
         add_events [ESendAction src a (Some c); EPrint (MsgSendError c)] w)
    end.
Proof.
  unfold try_except, bind, send_action, print, log, modify, ret.
  destruct (send_result env (trace w) a); cbn; [|reflexivity].
  unfold add_events, emit. cbn. rewrite <- app_assoc. reflexivity.
Qed.

Lemma staged_frame_loop (env : Env) (episode_idx : Z) (names : list string)
    (rows : list (list Q)) :
  forall frame_idx w,
    staged negb (RealRobot.frame_loop env episode_idx names rows frame_idx) w.
Proof.
  induction rows as [|row rows IH]; intros frame_idx w;
    cbn [RealRobot.frame_loop].
  - apply staged_of_clean.
    apply clean_bind; [apply clean_log; reflexivity|].
    intros _ w1 _. apply clean_ret.
  - apply staged_bind_clean; [apply real_read_should_stop_clean|].
    intros s w1 _. destruct s.
    { apply staged_of_clean.
      apply clean_bind; [apply clean_log; reflexivity|].
      intros _ w2 _. apply clean_ret. }
    apply staged_bind_clean; [apply clean_get|]. intros budget w2 _.
    apply staged_bind_clean; [apply real_pause_loop_clean|]. intros _ w3 _.
    apply staged_bind_clean; [apply real_read_should_stop_clean|].
    intros s w4 _. destruct s; [apply staged_of_clean, clean_ret|].
    apply staged_bind_clean; [apply clean_make_action|]. intros a w5 _.
    pose proof (guarded_send env (Frame episode_idx frame_idx) a w5) as G.
    destruct (send_result env (trace w5) a) as [c|].
    + (* the send failed: the loop returns [False] *)
      unfold staged. rewrite (bind_ok _ _ _ _ _ G). cbn [negb ret fst snd].
      eexists. cbn [add_events trace robot].
      split; [reflexivity|]. repeat split.
      intros _. exists false. split; reflexivity.
    + eapply staged_bind_ok; [exact G|reflexivity|reflexivity|reflexivity
                              |reflexivity|].
      cbn [negb].
      apply staged_bind_clean.
      { destruct (frame_idx mod 10 =? 0)%nat; [|apply clean_ret].
        apply clean_bind; [apply clean_lookup_all|]. intros _ w6 _.
        apply clean_log; reflexivity. }
      intros _ w6 _.
      apply staged_bind_clean; [apply clean_dataset_fps|]. intros fps_ w7 _.
      apply staged_bind_clean; [apply clean_frame_budget|]. intros secs w8 _.
      apply staged_bind_clean; [apply clean_log; reflexivity|]. intros _ w9 _.
      apply IH.
Qed.

Lemma staged_replay_single_episode (env : Env) (episode_idx : Z) (w : World) :
  staged negb (RealRobot.replay_single_episode env episode_idx) w.
Proof.
  unfold RealRobot.replay_single_episode.
  apply staged_bind_clean; [apply clean_log; reflexivity|]. intros _ w1 _.
  apply staged_bind_clean; [apply clean_LeRobotDataset_episode|]. intros d w2 _.
  apply staged_bind_clean; [apply clean_log; reflexivity|]. intros _ w3 _.
  apply staged_bind_clean; [apply clean_safety_prompt|]. intros go w4 _.
  destruct go; cbn [negb]; [apply staged_frame_loop|].
  apply staged_of_clean, clean_ret.
Qed.

Lemma clean_between_episodes (env : Env) (auto : bool) (delay : Q)
    (episode_idx end_ep : Z) (w : World) :
  clean (RealRobot.between_episodes env auto delay episode_idx end_ep) w.
Proof.
  unfold RealRobot.between_episodes.
  destruct (episode_idx <? end_ep)%Z; [|apply clean_ret].
  apply clean_bind; [apply real_read_should_stop_clean|]. intros s w1 _.
  destruct s; cbn [negb]; [apply clean_ret|].
  destruct auto.
  - apply clean_bind; [apply clean_log; reflexivity|]. intros _ w2 _.
    apply clean_sleep.
  - apply clean_bind; [apply clean_log; reflexivity|]. intros _ w2 _.
    apply clean_bind; [apply clean_get|]. intros budget w3 _.
    apply real_wait_loop_clean.
Qed.

Lemma staged_episode_loop (env : Env) (auto : bool) (delay : Q) (end_ep : Z)
    (episodes : list Z) :
  forall w,
    staged (fun _ : unit => true)
      (RealRobot.episode_loop env auto delay end_ep episodes) w.
Proof.
  induction episodes as [|e episodes IH]; intros w;
    cbn [RealRobot.episode_loop]; [apply staged_of_clean, clean_ret|].
  apply staged_bind_clean; [apply real_read_should_stop_clean|].
  intros s w1 _. destruct s; [apply staged_of_clean, clean_ret|].
  apply staged_bind_clean; [apply clean_log; reflexivity|]. intros _ w2 _.
  apply (staged_bind_stop negb); [apply staged_replay_single_episode| |].
  - intros ok w3 _ Hok. destruct ok; [discriminate Hok|]. cbn [negb].
    split; [apply clean_ret|]. exists tt. split; reflexivity.
  - intros ok w3 _ Hok. destruct ok; [|discriminate Hok]. cbn [negb].
    apply staged_bind_clean; [apply clean_between_episodes|].
    intros _ w4 _. apply IH.
Qed.

Lemma clean_start_input_listener (w : World) : clean start_input_listener w.
Proof. exists []. cbn. rewrite app_nil_r. repeat split. Qed.

Lemma clean_dataset_num_episodes (w : World) : clean dataset_num_episodes w.
Proof.
  unfold dataset_num_episodes. apply clean_bind; [apply clean_get|].
  intros [meta|] w1 _; [apply clean_ret|apply clean_raise].
Qed.

(** The lines of [run] after the episode loop: one read of [should_stop]
    and one message. *)
Lemma real_verdict_clean (env : Env) (w : World) :
  clean (s <- read_should_stop (RealRobot.on_reset env) Final ;;
         if negb s then print MsgAllCompleted else print MsgStoppedByUser)%replay
    w.
Proof.
  apply clean_bind; [apply real_read_should_stop_clean|]. intros s w1 _.
  destruct s; apply clean_log; reflexivity.
Qed.

Lemma real_verdict_returns (env : Env) (w : World) :
  fst ((s <- read_should_stop (RealRobot.on_reset env) Final ;;
        if negb s then print MsgAllCompleted
        else print MsgStoppedByUser)%replay w) = Ok tt.
Proof.
  unfold bind, read_should_stop.
  destruct (should_stop (deliver (RealRobot.on_reset env) w)); reflexivity.
Qed.

Lemma staged_play (env : Env) (start_ep : Z) (end_arg : option Z)
    (auto : bool) (delay : Q) (n : Z) (w : World) :
  staged (fun _ : unit => true)
    (RealRobot.play env start_ep end_arg auto delay n) w.
Proof.
  unfold RealRobot.play. cbv zeta.
  apply staged_bind_clean; [apply clean_start_input_listener|]. intros _ w1 _.
  apply staged_bind_clean; [apply clean_log; reflexivity|]. intros _ w2 _.
  apply (staged_bind_stop (fun _ : unit => true));
    [apply staged_episode_loop| |].
  - intros _ w3 _ _. split; [apply real_verdict_clean|].
    exists tt. split; [apply real_verdict_returns|reflexivity].
  - intros _ w3 _ C. discriminate C.
Qed.

Lemma load_dataset_spec (env : Env) (w : World) :
  exists b w1 S,
    RealRobot.load_dataset env w = (Ok b, w1) /\
    trace w1 = trace w ++ S /\ robot w1 = robot w /\
    no_frames S = true /\ disconnects S = 0%nat.
Proof.
  unfold RealRobot.load_dataset, try_except, LeRobotDataset, bind, log,
    modify, print, ret, raise.
  destruct (open_dataset env) as [e|meta]; cbn;
    do 3 eexists; (split; [reflexivity|]); cbn;
    (split; [rewrite <- ?app_assoc; reflexivity|]); repeat split.
Qed.

Lemma connect_robot_spec (env : Env) (w : World) :
  exists b w1 S,
    RealRobot.connect_robot env w = (Ok b, w1) /\
    trace w1 = trace w ++ S /\
    no_frames S = true /\ disconnects S = 0%nat /\
    (b = true -> robot w1 = Some true).
Proof.
  unfold RealRobot.connect_robot, try_except, make_robot_from_config, connect,
    is_connected, bind, log, modify, get, print, ret, raise.
  destruct (make_robot_raises env), (connect_raises env),
    (connected_after_connect env); cbn;
    do 3 eexists; (split; [reflexivity|]); cbn;
    (split; [rewrite <- ?app_assoc; reflexivity|]); repeat split;
    discriminate.
Qed.

Lemma real_cleanup_spec (env : Env) (w : World) :
  exists w1 T,
    RealRobot.cleanup env w = (Ok tt, w1) /\
    trace w1 = trace w ++ T /\
    no_frames T = true /\
    disconnects T = match robot w with Some true => 1%nat | _ => 0%nat end.
Proof.
  unfold RealRobot.cleanup, bind, get.
  destruct (robot w) as [[|]|];
    [|do 2 eexists; split; [reflexivity|]; rewrite app_nil_r; repeat split ..].
  unfold RealRobot.reset_robot, try_except, print, log, modify, bind,
    send_action, sleep, disconnect, log, modify, bind.
  cbn [emit trace fst snd].
  destruct (send_result env _ RealRobot.home_action); cbn;
    do 2 eexists; (split; [reflexivity|]); cbn;
    (split; [rewrite <- ?app_assoc; reflexivity|]); repeat split.
Qed.

Lemma no_frames_app (l1 l2 : list event) :
  no_frames (l1 ++ l2) = no_frames l1 && no_frames l2.
Proof. unfold no_frames. apply forallb_app. Qed.

Lemma real_run_anatomy (env : Env) (start_ep : Z) (end_arg : option Z)
    (auto : bool) (delay : Q) (w : World) :
  exists S P T,
    trace (snd (RealRobot.run env start_ep end_arg auto delay w))
      = trace w ++ S ++ P ++ T /\
    no_frames S = true /\ disconnects S = 0%nat /\
    ends_at_failure false P = true /\ disconnects P = 0%nat /\
    no_frames T = true /\
    (frame_failed P = true ->
       fst (RealRobot.run env start_ep end_arg auto delay w) = Ok tt /\
       disconnects T = 1%nat).
Proof.
  destruct (load_dataset_spec env w) as (b1 & w1 & S1 & E1 & T1 & R1 & F1 & D1).
  destruct (connect_robot_spec env w1)
    as (b2 & w2 & S2 & E2 & T2 & F2 & D2 & R2).
  assert (H3 : staged (fun _ : unit => true)
                 (n <- dataset_num_episodes ;;
                  RealRobot.play env start_ep end_arg auto delay n)%replay w2).
  { apply staged_bind_clean; [apply clean_dataset_num_episodes|].
    intros n w3 _. apply staged_play. }
  destruct H3 as (P & T3 & R3 & D3 & E3 & S3).
  unfold RealRobot.run, try_finally, try_except, RealRobot.run_body.
  rewrite (bind_ok _ _ _ _ _ E1).
  destruct b1; cbn [negb].
  - rewrite (bind_ok _ _ _ _ _ E2).
    destruct b2; cbn [negb].
    + destruct ((n <- dataset_num_episodes ;;
                 RealRobot.play env start_ep end_arg auto delay n)%replay w2)
        as [[[]|e|] w3] eqn:E; cbn [fst snd] in *.
      * destruct (real_cleanup_spec env w3) as (w4 & T & E4 & T4 & F4 & D4).
        rewrite E4. cbn [fst snd].
        exists (S1 ++ S2), P, T.
        rewrite T4, T3, T2, T1, no_frames_app, F1, F2, disconnects_app, D1, D2,
          <- !app_assoc.
        rewrite R3, (R2 eq_refl) in D4.
        repeat split; assumption.
      * unfold print, log, modify.
        destruct (real_cleanup_spec env (emit (EPrint (MsgError e)) w3))
          as (w4 & T & E4 & T4 & F4 & D4).
        rewrite E4. cbn [fst snd].
        exists (S1 ++ S2), P, (EPrint (MsgError e) :: T).
        rewrite T4. cbn [emit trace].
        rewrite T3, T2, T1, no_frames_app, F1, F2, disconnects_app, D1, D2,
          <- !app_assoc.
        repeat split; try assumption;
          match goal with
          | C : frame_failed P = true |- _ =>
              destruct (S3 C) as (u & Cu & _); discriminate Cu
          end.
      * exists (S1 ++ S2), P, [].
        rewrite T3, T2, T1, no_frames_app, F1, F2, disconnects_app, D1, D2,
          app_nil_r, <- !app_assoc.
        repeat split; try assumption;
          match goal with
          | C : frame_failed P = true |- _ =>
              destruct (S3 C) as (u & Cu & _); discriminate Cu
          end.
    + cbn [ret].
      destruct (real_cleanup_spec env w2) as (w4 & T & E4 & T4 & F4 & D4).
      rewrite E4. cbn [fst snd].
      exists (S1 ++ S2), [], T.
      rewrite T4, T2, T1, no_frames_app, F1, F2, disconnects_app, D1, D2,
        <- !app_assoc.
      repeat split; try assumption; discriminate.
  - cbn [ret].
    destruct (real_cleanup_spec env w1) as (w4 & T & E4 & T4 & F4 & D4).
    rewrite E4. cbn [fst snd].
    exists S1, [], T.
    rewrite T4, T1, <- !app_assoc.
    repeat split; try assumption; discriminate.
Qed.

(** ** A failed send ends the run *)

Lemma locate_in_middle {A : Type} (S P T l1 l2 : list A) (x : A) :
  S ++ P ++ T = l1 ++ x :: l2 ->
  ~ In x S -> ~ In x T ->
  exists p1 p2, P = p1 ++ x :: p2 /\ l1 = S ++ p1 /\ l2 = p2 ++ T.
Proof.
  intros H HS HT. apply app_eq_app in H.
  destruct H as [k [[Ha Hb]|[Ha Hb]]].
  - destruct k as [|y k]; cbn in Hb.
    + destruct P as [|y P]; cbn in Hb.
      * destruct HT. rewrite <- Hb. left. reflexivity.
      * inversion Hb; subst. exists [], P. rewrite !app_nil_r.
        repeat split.
    + inversion Hb; subst. destruct HS. apply in_elt.
  - apply app_eq_app in Hb. destruct Hb as [k' [[Hc Hd]|[Hc Hd]]].
    + destruct k' as [|y k']; cbn in Hd.
      * destruct HT. rewrite <- Hd. left. reflexivity.
      * inversion Hd; subst. exists k, k'. repeat split.
    + destruct HT. rewrite Hd. apply in_elt.
Qed.

Lemma inert_no_send (S : list event) (src : sender) (a : action)
    (res : option exn) :
  forallb inert S = true -> ~ In (ESendAction src a res) S.
Proof. intros H. apply (halted_inert S false H). Qed.

Lemma closing_no_send (T : list event) (src : sender) (a : action)
    (res : option exn) :
  forallb closing T = true -> ~ In (ESendAction src a res) T.
Proof.
  intros H C. rewrite forallb_forall in H. specialize (H _ C). discriminate H.
Qed.


(** C2, as the code has it.  In replay_all_episodes.py a send that raises
    is the last send of the run: what follows is the report of the error,
    which carries the exception and nothing else, and the one disconnection.
    In replay_with_real_robot.py no frame is sent after a frame whose send
    failed, the run returns, and the robot is disconnected exactly once. *)
Theorem send_failure_ends_the_run :
  (forall env cfg schedule e f a c l1 l2,
     let r := ReplayAll.replay_all_episodes env cfg schedule in
     trace (snd r) = l1 ++ ESendAction (Frame e f) a (Some c) :: l2 ->
     l2 = [EPrint (MsgError c); EDisconnect; EPrint MsgRobotDisconnected] /\
     sends l2 = [] /\
     fst r = Ok tt /\
     outcome_of r = Failed c /\
     disconnects (trace (snd r)) = 1%nat) /\
  (forall env start_ep end_arg auto delay schedule e f a c l1 l2,
     let r := RealRobot.replay env start_ep end_arg auto delay schedule in
     trace (snd r) = l1 ++ ESendAction (Frame e f) a (Some c) :: l2 ->
     no_frames l2 = true /\
     fst r = Ok tt /\
     disconnects (trace (snd r)) = 1%nat).
Proof.
  split.
  - intros env cfg schedule e f a c l1 l2 r Hsplit. subst r.
    unfold ReplayAll.replay_all_episodes, outcome_of in *.
    set (w0 := init_world (start_episode (dataset_cfg cfg)) schedule) in *.
    destruct (run_anatomy env cfg w0 eq_refl)
      as (S & P & T & Ht & HS & _ & _ & _ & _ & HD & HT & HF).
    cbn [trace w0 init_world app] in Ht.
    rewrite Ht in Hsplit.
    destruct (locate_in_middle S P T l1 l2 _ Hsplit
                (inert_no_send S _ _ _ HS) (closing_no_send T _ _ _ HT))
      as (p1 & p2 & EP & -> & ->).
    destruct (HF _ _ _ _ _ EP) as (Hr & -> & ->).
    rewrite Hr, Ht, EP. cbn [app].
    destruct (halted_inert S false HS) as (_ & _ & DS & _).
    rewrite EP, disconnects_app in HD.
    rewrite !last_verdict_app, !disconnects_app, DS.
    cbn. repeat split. lia.
  - intros env start_ep end_arg auto delay schedule e f a c l1 l2 r Hsplit.
    subst r. unfold RealRobot.replay in *.
    set (w0 := init_world 0 schedule) in *.
    destruct (real_run_anatomy env start_ep end_arg auto delay w0)
      as (S & P & T & Ht & FS & DS & EP & DP & FT & HF).
    cbn [trace w0 init_world app] in Ht.
    destruct (no_frames_facts S FS) as [FS1 FS2].
    destruct (no_frames_facts T FT) as [FT1 FT2].
    assert (Hall : ends_at_failure false (trace
              (snd (RealRobot.run env start_ep end_arg auto delay w0))) = true).
    { rewrite Ht, ends_at_failure_app, FS2, FS1. cbn [orb andb].
      rewrite ends_at_failure_app, EP, FT2. reflexivity. }
    assert (Hfail : frame_failed P = true).
    { assert (C : frame_failed (S ++ P ++ T) = true).
      { rewrite <- Ht, Hsplit, frame_failed_app. cbn. apply orb_true_r. }
      rewrite !frame_failed_app, FS1, FT1, orb_false_r in C. exact C. }
    destruct (HF Hfail) as [Hr DT].
    split; [|split; [exact Hr|]].
    + apply (ends_at_failure_split _ Hall l1 e f a c l2 Hsplit).
    + rewrite Ht, !disconnects_app, DS, DP, DT. reflexivity.
Qed.

Lemma send_failure_ends_the_run_witness :
  let r := ReplayAll.replay_all_episodes Scenario.env_C Scenario.cfg_A [] in
  let r' := RealRobot.replay Scenario.env_C_bimanual 0 (Some 2) true 3 [] in
  (outcome_of r = Failed Scenario.overload /\
   disconnects (trace (snd r)) = 1%nat) /\
  (no_frames (skipn 70 (trace (snd r'))) = true /\
   disconnects (trace (snd r')) = 1%nat).
Proof.
  intros r r'. split.
  - destruct (proj1 send_failure_ends_the_run Scenario.env_C Scenario.cfg_A []
                1%Z 3%nat Scenario.frame_action Scenario.overload
                (firstn 64 (trace (snd r))) (skipn 65 (trace (snd r))))
      as (_ & _ & _ & H4 & H5).
    + vm_compute. reflexivity.
    + split; [exact H4|exact H5].
  - destruct (proj2 send_failure_ends_the_run Scenario.env_C_bimanual 0%Z
                (Some 2%Z) true 3%Q [] 1%Z 3%nat RealRobot.home_action
                Scenario.overload
                (firstn 69 (trace (snd r'))) (skipn 70 (trace (snd r'))))
      as (H1 & _ & H3).
    + vm_compute. reflexivity.
    + split; [exact H1|exact H3].
Defined.

(** C2 as stated fails.  The report of a failed send in
    replay_all_episodes.py does not tell the episode and the frame: runs that
    fail at different frames end with the same report.  And
    replay_with_real_robot.py, after a failed send, reports completion. *)
Lemma failure_report_omits_episode_and_frame :
  (~ exists position : outcome -> option (Z * nat),
       forall env cfg schedule e f a c,
         In (ESendAction (Frame e f) a (Some c))
            (trace (snd (ReplayAll.replay_all_episodes env cfg schedule))) ->
         position (outcome_of (ReplayAll.replay_all_episodes env cfg schedule))
           = Some (e, f)) /\
  (let r := RealRobot.replay Scenario.env_C_bimanual 0 (Some 2%Z) true 3 [] in
   In (ESendAction (Frame 1 3) RealRobot.home_action (Some Scenario.overload))
      (trace (snd r)) /\
   outcome_of r = Completed).
Proof.
  split.
  - intros [position H].
    assert (H1 : position (Failed Scenario.overload) = Some (1%Z, 3%nat)).
    { apply (H Scenario.env_C Scenario.cfg_A [] 1%Z 3%nat
               Scenario.frame_action Scenario.overload).
      vm_compute. repeat (first [left; reflexivity | right]). }
    assert (H2 : position (Failed Scenario.overload) = Some (0%Z, 1%nat)).
    { apply (H Scenario.env_early_failure Scenario.cfg_A [] 0%Z 1%nat
               Scenario.frame_action Scenario.overload).
      vm_compute. repeat (first [left; reflexivity | right]). }
    rewrite H1 in H2. discriminate H2.
  - split; [|vm_compute; reflexivity].
    vm_compute. repeat (first [left; reflexivity | right]).
Qed.

(** ** The two threads at the robot *)

Lemma skipn_length_app {A : Type} (l l' : list A) :
  skipn (List.length l) (l ++ l') = l'.
Proof. induction l as [|x l IH]; [reflexivity|exact IH]. Qed.

Lemma sends_of_code (l : list event) :
  Threads.sends_of (map Threads.op_of l) = sends l.
Proof.
  induction l as [|e l IH]; [reflexivity|].
  destruct e; cbn; rewrite ?IH; reflexivity.
Qed.

(** The code of a thread, read off the record, takes no lock. *)
Lemma code_lock_free (f : World -> World) (w : World) :
  Threads.lock_free (Threads.code f w) = true.
Proof.
  unfold Threads.code, Threads.lock_free. induction (Threads.added f w) as [|e l IH];
    [reflexivity|].
  cbn [map forallb]. rewrite IH. destruct e; reflexivity.
Qed.

Lemma thread_exclusive (t : Threads.thread) (sched : list Threads.thread) :
  forall s,
    Threads.overlap (Threads.pending (Threads.call_of t s))
      (Threads.of_thread t (Threads.run sched s)) = false.
Proof.
  induction sched as [|t' sched IH]; intros s;
    [destruct (Threads.call_of t s); reflexivity|].
  cbn [Threads.run].
  destruct (Threads.next t' s) as [[h s']|] eqn:E; [|apply IH].
  specialize (IH s'). unfold Threads.next in E.
  destruct t, t'; cbn [Threads.call_of Threads.code_of] in *;
    destruct s as [mc ic mk ik l]; cbn [Threads.main_call Threads.input_call
      Threads.main_code Threads.input_code Threads.lock] in *;
    repeat match type of E with
           | match ?x with _ => _ end = _ => destruct x
           end;
    inversion E; subst; clear E; cbn in *; exact IH.
Qed.

(** A thread of code without locks that is not inside a call reaches its
    first send whatever the other thread is doing. *)
Lemma reaches_first_send (t : Threads.thread) (c : list Threads.op) :
  forall (s : Threads.state) (m : sender) (ms : list sender),
    Threads.lock_free c = true ->
    Threads.sends_of c = m :: ms ->
    Threads.code_of t s = c ->
    Threads.call_of t s = None ->
    exists (k : nat) (rest : list Threads.op),
      forall sched,
        Threads.run (repeat t k ++ sched) s
          = Threads.Call t m :: Threads.run sched (Threads.set_thread t rest (Some m) s).
Proof.
  induction c as [|o c IH]; intros s m ms Hf Hs Hc Hk; [discriminate Hs|].
  destruct o; cbn in Hf, Hs; try discriminate Hf.
  - inversion Hs; subst. exists 1%nat, c. intros sched.
    cbn [repeat app Threads.run]. unfold Threads.next. rewrite Hk, Hc. reflexivity.
  - destruct (IH (Threads.set_thread t c None s) m ms Hf Hs) as (k & rest & H).
    + destruct t; reflexivity.
    + destruct t; reflexivity.
    + exists (S k), rest. intros sched.
      cbn [repeat app Threads.run]. unfold Threads.next. rewrite Hk, Hc.
      cbn [app]. rewrite H. destruct t; reflexivity.
Qed.

(** Two threads of code without locks that both send: in some execution
    the first send of the input thread is entered while the first send of
    the main thread is in flight. *)
Lemma unlocked_sends_can_overlap (main input : list Threads.op)
    (m i : sender) (ms is_ : list sender) :
  Threads.lock_free main = true -> Threads.lock_free input = true ->
  Threads.sends_of main = m :: ms -> Threads.sends_of input = i :: is_ ->
  exists sched,
    Threads.run sched (Threads.start main input)
      = [Threads.Call Threads.MainThread m; Threads.Call Threads.InputThread i].
Proof.
  intros Fm Fi Sm Si.
  destruct (reaches_first_send Threads.MainThread main (Threads.start main input)
              m ms Fm Sm eq_refl eq_refl) as (k1 & r1 & H1).
  destruct (reaches_first_send Threads.InputThread input
              (Threads.set_thread Threads.MainThread r1 (Some m)
                 (Threads.start main input))
              i is_ Fi Si eq_refl eq_refl) as (k2 & r2 & H2).
  exists (repeat Threads.MainThread k1 ++ repeat Threads.InputThread k2 ++ []).
  rewrite H1, H2. reflexivity.
Qed.

(** A thread of code without locks runs a piece of its code to the end
    while the other thread stands still. *)
Lemma runs_alone (t : Threads.thread) (c : list Threads.op) :
  forall (s : Threads.state) (rest : list Threads.op),
    Threads.lock_free c = true ->
    Threads.code_of t s = c ++ rest ->
    Threads.call_of t s = None ->
    exists k,
      forall sched,
        Threads.run (repeat t k ++ sched) s
          = Threads.calls t c ++ Threads.run sched (Threads.set_thread t rest None s).
Proof.
  induction c as [|o c IH]; intros s rest Hf Hc Hk.
  - exists 0%nat. intros sched. cbn. f_equal.
    destruct t, s; cbn in *; subst; reflexivity.
  - destruct o; cbn in Hf; try discriminate Hf.
    + destruct (IH (Threads.set_thread t (c ++ rest) None s) rest Hf) as [k H].
      * destruct t; reflexivity.
      * destruct t; reflexivity.
      * exists (S (S k)). intros sched.
        cbn [repeat app Threads.run Threads.calls]. unfold Threads.next at 1.
        rewrite Hk, Hc. cbn [app]. unfold Threads.next at 1.
        replace (Threads.call_of t (Threads.set_thread t (c ++ rest) (Some src) s))
          with (Some src) by (destruct t; reflexivity).
        cbn [app]. f_equal. f_equal.
        replace (Threads.set_thread t
                   (Threads.code_of t (Threads.set_thread t (c ++ rest) (Some src) s))
                   None (Threads.set_thread t (c ++ rest) (Some src) s))
          with (Threads.set_thread t (c ++ rest) None s)
          by (destruct t; reflexivity).
        rewrite H. destruct t; reflexivity.
    + destruct (IH (Threads.set_thread t (c ++ rest) None s) rest Hf) as [k H].
      * destruct t; reflexivity.
      * destruct t; reflexivity.
      * exists (S k). intros sched.
        cbn [repeat app Threads.run Threads.calls]. unfold Threads.next at 1.
        rewrite Hk, Hc. cbn [app]. rewrite H. destruct t; reflexivity.
Qed.

Lemma calls_exclusive (t : Threads.thread) (c : list Threads.op) (h : list Threads.step) :
  Threads.overlap 0 (Threads.calls t c ++ h) = Threads.overlap 0 h.
Proof.
  induction c as [|o c IH]; [reflexivity|]. destruct o; cbn; exact IH.
Qed.

(** The executions that the record of a run shows: the input thread runs
    a handler from its first operation to its last while the main thread
    is between two operations.  In these no two calls overlap. *)
Lemma handler_between_two_operations (before after handler : list Threads.op) :
  Threads.lock_free before = true -> Threads.lock_free after = true ->
  Threads.lock_free handler = true ->
  exists sched,
    Threads.run sched (Threads.start (before ++ after) handler)
      = Threads.calls Threads.MainThread before
        ++ Threads.calls Threads.InputThread handler
        ++ Threads.calls Threads.MainThread after /\
    Threads.exclusive (Threads.run sched (Threads.start (before ++ after) handler)) = true.
Proof.
  intros Fb Fa Fh.
  destruct (runs_alone Threads.MainThread before
              (Threads.start (before ++ after) handler) after Fb eq_refl eq_refl)
    as [k1 H1].
  cbn [Threads.set_thread Threads.start Threads.main_code Threads.input_code Threads.main_call
         Threads.input_call Threads.lock] in H1.
  destruct (runs_alone Threads.InputThread handler
              (Threads.mkState after handler None None None) []
              Fh (eq_sym (app_nil_r handler)) eq_refl) as [k2 H2].
  cbn [Threads.set_thread Threads.main_code Threads.input_code Threads.main_call
         Threads.input_call Threads.lock] in H2.
  destruct (runs_alone Threads.MainThread after
              (Threads.mkState after [] None None None) []
              Fa (eq_sym (app_nil_r after)) eq_refl) as [k3 H3].
  exists (repeat Threads.MainThread k1 ++ repeat Threads.InputThread k2
            ++ repeat Threads.MainThread k3 ++ []).
  unfold Threads.start. rewrite H1, H2, H3. cbn [Threads.run]. rewrite !app_nil_r.
  split; [reflexivity|].
  unfold Threads.exclusive. rewrite !calls_exclusive.
  rewrite <- (app_nil_r (Threads.calls Threads.MainThread after)), calls_exclusive.
  reflexivity.
Qed.

Lemma lock_free_tail (o : Threads.op) (q : list Threads.op) :
  Threads.lock_free (o :: q) = true -> Threads.lock_free q = true.
Proof. intros H. cbn in H. apply andb_prop in H. apply H. Qed.

(** The executions honour a lock: were every send of both threads inside
    [with lock:], no call would be entered while another is in flight. *)
Lemma locked_sends_exclude (sched : list Threads.thread) :
  forall s,
    Threads.one_holder s ->
    Threads.overlap (Threads.in_flight s) (Threads.run sched s) = false.
Proof.
  induction sched as [|t sched IH]; intros s Hs.
  - reflexivity.
  - cbn [Threads.run]. unfold Threads.next.
    destruct s as [mc ic mk ik l]. unfold Threads.one_holder in Hs.
    cbn [Threads.main_call Threads.input_call Threads.main_code Threads.input_code
           Threads.lock] in Hs.
    destruct l as [[|]|]; destruct Hs as [Hm Hi];
      inversion Hm; inversion Hi; subst; destruct t;
      cbn [Threads.call_of Threads.code_of Threads.main_call Threads.input_call
             Threads.main_code Threads.input_code Threads.lock];
      try match goal with
          | |- context [match Threads.locked ?q with _ => _ end] =>
              destruct q as [|[xq| | |] q];
                try match goal with
                    | F : Threads.lock_free (_ :: _) = true |- _ =>
                        first [discriminate F | apply lock_free_tail in F]
                    end;
                cbn [Threads.locked flat_map app]
          end;
      cbn [Threads.set_thread Threads.set_lock Threads.main_call Threads.input_call
             Threads.main_code Threads.input_code Threads.lock];
      match goal with
      | |- Threads.overlap _ (_ ++ Threads.run _ ?s') = false =>
          let H := fresh in
          assert (H : Threads.one_holder s')
            by (unfold Threads.one_holder; cbn; split;
                first [ assumption
                      | constructor; assumption
                      | exact (Threads.outside_lock [] eq_refl) ]);
          specialize (IH s' H); cbn in IH |- *; exact IH
      | |- Threads.overlap _ (Threads.run _ ?s') = false =>
          let H := fresh in
          assert (H : Threads.one_holder s')
            by (unfold Threads.one_holder; cbn; split;
                first [ assumption
                      | constructor; assumption
                      | exact (Threads.outside_lock [] eq_refl) ]);
          specialize (IH s' H); cbn in IH |- *; exact IH
      end.
Qed.

Lemma locked_sends_are_exclusive (main input : list Threads.op)
    (sched : list Threads.thread) :
  Threads.lock_free main = true -> Threads.lock_free input = true ->
  Threads.exclusive
    (Threads.run sched (Threads.start (Threads.locked main) (Threads.locked input))) = true.
Proof.
  intros Fm Fi. unfold Threads.exclusive.
  pose proof (locked_sends_exclude sched
                (Threads.start (Threads.locked main) (Threads.locked input))) as H.
  cbn in H. rewrite H; [reflexivity|].
  split; constructor; assumption.
Qed.

(** The frame loop on a frame, with no stop requested and the replay not
    paused, reads the flags and sends the frame. *)
Lemma frame_loop_first_send (env : Env) (episode_idx : Z)
    (names : list string) (row : list Q) (rest : list (list Q))
    (frame_idx : nat) (w : World) :
  quiet w ->
  (List.length names <= List.length row)%nat ->
  exists a res new,
    trace (snd (RealRobot.frame_loop env episode_idx names (row :: rest)
                  frame_idx w))
    = trace w
      ++ [EReadStop FrameTop false; EReadPaused false;
          EReadStop AfterPause false;
          ESendAction (Frame episode_idx frame_idx) a res] ++ new.
Proof.
  intros Hq Hlen.
  destruct (make_action_some names row
              (add_events [EReadStop FrameTop false; EReadPaused false;
                           EReadStop AfterPause false] w) Hlen) as [a Ha].
  cbn [RealRobot.frame_loop].
  step_with (apply read_should_stop_quiet; exact Hq).
  step_with reflexivity.
  step_with (apply pause_loop_quiet; exact Hq).
  step_with (apply read_should_stop_quiet; exact Hq).
  rewrite !add_events_app. cbn [app].
  step_with (exact Ha).
  match goal with
  | |- context [bind _ _ ?w5] =>
      pose proof (guarded_send env (Frame episode_idx frame_idx) a w5) as G;
      destruct (send_result env (trace w5) a) as [c|]
  end.
  - rewrite (bind_ok _ _ _ _ _ G). cbn [negb ret fst snd].
    exists a, (Some c), [EPrint (MsgSendError c)].
    cbn [add_events trace]. rewrite <- !app_assoc. reflexivity.
  - rewrite (bind_ok _ _ _ _ _ G). cbn [negb].
    match goal with
    | |- context [snd (?m ?w6)] =>
        assert (S : staged negb m w6)
    end.
    { apply staged_bind_clean.
      { destruct (frame_idx mod 10 =? 0)%nat; [|apply clean_ret].
        apply clean_bind; [apply clean_lookup_all|]. intros _ w6 _.
        apply clean_log; reflexivity. }
      intros _ w6 _.
      apply staged_bind_clean; [apply clean_dataset_fps|]. intros fps_ w7 _.
      apply staged_bind_clean; [apply clean_frame_budget|]. intros secs w8 _.
      apply staged_bind_clean; [apply clean_log; reflexivity|]. intros _ w9 _.
      apply staged_frame_loop. }
    destruct S as (new & T & _).
    exists a, None, new. rewrite T.
    cbn [add_events trace]. rewrite <- !app_assoc. reflexivity.
Qed.

Lemma frame_loop_code_sends (env : Env) (episode_idx : Z)
    (names : list string) (row : list Q) (rest : list (list Q))
    (frame_idx : nat) (w : World) :
  quiet w ->
  (List.length names <= List.length row)%nat ->
  exists ms,
    Threads.sends_of
      (Threads.frame_loop_code env episode_idx names (row :: rest) frame_idx w)
    = Frame episode_idx frame_idx :: ms.
Proof.
  intros Hq Hlen.
  destruct (frame_loop_first_send env episode_idx names row rest frame_idx w
              Hq Hlen) as (a & res & new & T).
  unfold Threads.frame_loop_code, Threads.code, Threads.added. cbn beta.
  rewrite T, skipn_length_app, sends_of_code. cbn. eexists. reflexivity.
Qed.

(** The handler of the reset command sends the home position, once. *)
Lemma reset_code_sends (env : Env) (w : World) :
  Threads.sends_of (Threads.reset_code env w) = [Home].
Proof.
  unfold Threads.reset_code, Threads.code, Threads.added. rewrite sends_of_code.
  cbn [handle_item]. change (command "r") with "r".
  unfold handle_command, RealRobot.on_reset.
  change (is_cmd "r" "q" "quit") with false.
  change (is_cmd "r" "p" "pause") with false.
  change (is_cmd "r" "n" "next") with false.
  change (is_cmd "r" "s" "skip") with false.
  change (is_cmd "r" "h" "help") with false.
  change (is_cmd "r" "r" "reset") with true.
  cbv iota beta.
  unfold RealRobot.reset_robot.
  change (sleep 2) with (log (ESleep 2)).
  unfold try_except, bind, print, log, modify, send_action.
  cbn [emit trace fst snd].
  destruct (send_result env _ RealRobot.home_action);
    cbn [emit trace fst snd];
    rewrite <- !app_assoc, skipn_length_app; reflexivity.
Qed.

Lemma calls_of_sends (t : Threads.thread) (c : list Threads.op) :
  Threads.calls t c
  = flat_map (fun src => [Threads.Call t src; Threads.Return t src])
      (Threads.sends_of c).
Proof.
  induction c as [|o c IH]; [reflexivity|].
  destruct o; cbn; rewrite ?IH; reflexivity.
Qed.

(** The reset as the record of a run has it, between two operations of the
    frame loop, is one of the executions, and in it no two calls overlap. *)
Lemma reset_between_two_operations (env : Env) (episode_idx : Z)
    (names : list string) (rows : list (list Q)) (frame_idx : nat)
    (w wi : World) (before after : list Threads.op) :
  Threads.frame_loop_code env episode_idx names rows frame_idx w
    = before ++ after ->
  exists sched,
    let h :=
      Threads.run sched
        (Threads.start
           (Threads.frame_loop_code env episode_idx names rows frame_idx w)
           (Threads.reset_code env wi)) in
    h = Threads.calls Threads.MainThread before
        ++ [Threads.Call Threads.InputThread Home;
            Threads.Return Threads.InputThread Home]
        ++ Threads.calls Threads.MainThread after /\
    Threads.exclusive h = true.
Proof.
  intros E.
  pose proof (code_lock_free
                (fun w0 => snd (RealRobot.frame_loop env episode_idx names
                                  rows frame_idx w0)) w) as F.
  fold (Threads.frame_loop_code env episode_idx names rows frame_idx w) in F.
  rewrite E in *. unfold Threads.lock_free in F. rewrite forallb_app in F.
  apply andb_prop in F. destruct F as [Fb Fa].
  destruct (handler_between_two_operations before after
              (Threads.reset_code env wi) Fb Fa (code_lock_free _ wi))
    as (sched & H1 & H2).
  exists sched. cbv zeta. rewrite H2. split; [|reflexivity].
  rewrite H1, (calls_of_sends Threads.InputThread), reset_code_sends.
  reflexivity.
Qed.

(** C8, as the code has it.  Nothing serialises the calls of
    [send_action].  The code of the frame loop and the code of the handler
    of the reset command take no lock.  In every execution the calls of one
    thread follow one another without overlap; but whenever the frame loop
    is at a frame, with no stop requested and the replay not paused, some
    execution has the reset's send of the home position entered while the
    send of that frame is in flight. *)
Theorem sends_are_not_serialized (env : Env) (episode_idx : Z)
    (names : list string) (row : list Q) (rest : list (list Q))
    (frame_idx : nat) (w wi : World) :
  quiet w ->
  (List.length names <= List.length row)%nat ->
  let main :=
    Threads.frame_loop_code env episode_idx names (row :: rest) frame_idx w in
  let input := Threads.reset_code env wi in
  Threads.lock_free main = true /\
  Threads.lock_free input = true /\
  (forall sched,
     Threads.exclusive
       (Threads.of_thread Threads.MainThread
          (Threads.run sched (Threads.start main input))) = true /\
     Threads.exclusive
       (Threads.of_thread Threads.InputThread
          (Threads.run sched (Threads.start main input))) = true) /\
  exists sched,
    Threads.run sched (Threads.start main input)
      = [Threads.Call Threads.MainThread (Frame episode_idx frame_idx);
         Threads.Call Threads.InputThread Home] /\
    Threads.exclusive (Threads.run sched (Threads.start main input)) = false.
Proof.
  intros Hq Hlen main input.
  assert (Fm : Threads.lock_free main = true) by apply code_lock_free.
  assert (Fi : Threads.lock_free input = true) by apply code_lock_free.
  split; [exact Fm|]. split; [exact Fi|]. split.
  - intros sched. unfold Threads.exclusive.
    pose proof (thread_exclusive Threads.MainThread sched (Threads.start main input))
      as H1.
    pose proof (thread_exclusive Threads.InputThread sched (Threads.start main input))
      as H2.
    cbn [Threads.call_of Threads.start Threads.main_call Threads.input_call Threads.pending]
      in H1, H2.
    rewrite H1, H2. split; reflexivity.
  - destruct (frame_loop_code_sends env episode_idx names row rest frame_idx
                w Hq Hlen) as [ms Sm].
    destruct (unlocked_sends_can_overlap main input
                (Frame episode_idx frame_idx) Home ms [] Fm Fi Sm
                (reset_code_sends env wi)) as [sched H].
    exists sched. rewrite H. split; reflexivity.
Qed.

Lemma sends_are_not_serialized_witness :
  let names := map fst RealRobot.home_action in
  let row := map snd RealRobot.home_action in
  let main :=
    Threads.frame_loop_code Scenario.env_C_bimanual 0 names [row; row] 0
      (init_world 0 []) in
  let input := Threads.reset_code Scenario.env_C_bimanual (init_world 0 []) in
  exists sched,
    Threads.run sched (Threads.start main input)
      = [Threads.Call Threads.MainThread (Frame 0 0);
         Threads.Call Threads.InputThread Home] /\
    Threads.exclusive (Threads.run sched (Threads.start main input)) = false.
Proof.
  intros names row main input.
  refine (proj2 (proj2 (proj2
            (sends_are_not_serialized Scenario.env_C_bimanual 0 names row
               [row] 0 (init_world 0 []) (init_world 0 []) _ _)))).
  - repeat split.
  - cbn. lia.
Defined.

(** C8 as stated fails.  The main thread reads the flags for frame 0 and
    enters [send_action] with the frame's action; the input thread, on the
    reset command, prints its two messages and enters [send_action] with the
    home position before the main thread's call has returned. *)
Lemma reset_send_can_overlap_frame_send :
  ~ (forall (env : Env) (episode_idx : Z) (names : list string)
       (rows : list (list Q)) (frame_idx : nat) (w wi : World)
       (sched : list Threads.thread),
       stdin w = [] ->
       Threads.exclusive
         (Threads.run sched
            (Threads.start
               (Threads.frame_loop_code env episode_idx names rows frame_idx w)
               (Threads.reset_code env wi))) = true).
Proof.
  intros H.
  specialize (H Scenario.env_C_bimanual 0%Z
                (map fst RealRobot.home_action)
                [map snd RealRobot.home_action;
                 map snd RealRobot.home_action] 0%nat
                (init_world 0 []) (init_world 0 [])
                [Threads.MainThread; Threads.MainThread; Threads.MainThread;
                 Threads.MainThread; Threads.InputThread; Threads.InputThread;
                 Threads.InputThread]
                eq_refl).
  vm_compute in H. discriminate H.
Qed.

(** ** The demo *)

(** The demo of demo_episode_replay.py on a mock dataset of 3 episodes of 5
    frames, without operator input: the same 15 sends, completion, one
    disconnection; every pause between frames is [sleep_time]. *)
Lemma demo_three_by_five :
  let r := Demo.demo (Demo.new_MockDataset 3 5) (fun _ _ => (1 # 100)%Q) [] in
  fst r = Ok tt /\
  sends (trace (snd r)) =
    [ Frame 0 0; Frame 0 1; Frame 0 2; Frame 0 3; Frame 0 4;
      Frame 1 0; Frame 1 1; Frame 1 2; Frame 1 3; Frame 1 4;
      Frame 2 0; Frame 2 1; Frame 2 2; Frame 2 3; Frame 2 4 ] /\
  outcome_of r = Completed /\
  disconnects (trace (snd r)) = 1%nat /\
  In (ESleep (sleep_time 30 (1 # 100))) (trace (snd r)).
Proof.
  vm_compute. repeat split. repeat (first [left; reflexivity | right]).
Qed.

(** ** Hanging

    A polling loop is reported to hang only when the operator's input is
    exhausted while the loop's condition holds: the flags can no longer
    change, so the loop of the script would poll for ever. *)

Lemma stdin_after_read_should_stop (cp : checkpoint) (w : World) :
  stdin (snd (read_should_stop None cp w)) = tl (stdin w).
Proof.
  destruct (read_should_stop None cp w) as [[s| |] w1] eqn:E;
    try (unfold read_should_stop in E; discriminate E).
  apply read_should_stop_inv in E. apply E.
Qed.

Lemma stdin_after_read_is_paused (w : World) :
  stdin (snd (read_is_paused None w)) = tl (stdin w).
Proof.
  destruct (read_is_paused None w) as [[s| |] w1] eqn:E;
    try (unfold read_is_paused in E; discriminate E).
  apply read_is_paused_inv in E. apply E.
Qed.

Lemma pause_loop_hangs_only_when_frozen (budget : nat) :
  forall w w',
    (List.length (stdin w) <= budget)%nat ->
    pause_loop None budget w = (Hang, w') ->
    stdin w' = [] /\ is_paused w' = true /\ should_stop w' = false.
Proof.
  induction budget as [|k IH]; intros w w' Hlen; cbn [pause_loop];
    unfold bind at 1;
    pose proof (stdin_after_read_is_paused w) as Hin1;
    destruct (read_is_paused None w) as [[p| |] w1] eqn:E1;
    try discriminate; cbn [snd] in Hin1;
    (destruct p; [|discriminate]);
    unfold bind at 1;
    pose proof (stdin_after_read_should_stop PausePoll w1) as Hin2;
    destruct (read_should_stop None PausePoll w1) as [[s| |] w2] eqn:E2;
    try discriminate; cbn [snd] in Hin2;
    (destruct s; [discriminate|]);
    change (sleep (1 # 10)) with (log (ESleep (1 # 10)));
    unfold bind at 1, log, modify.
  - intros H. inversion H; subst; clear H.
    assert (E : stdin w = [])
      by (destruct (stdin w); [reflexivity|cbn in Hlen; lia]).
    unfold read_is_paused in E1. rewrite (deliver_quiet None w E) in E1.
    inversion E1; subst; clear E1.
    unfold read_should_stop in E2.
    rewrite (deliver_quiet None (emit (EReadPaused (is_paused w)) w) E) in E2.
    inversion E2; subst; clear E2.
    cbn. repeat split; congruence.
  - intros H. apply (IH _ _ ) in H; [exact H|].
    cbn [emit stdin]. rewrite Hin2, Hin1.
    destruct (stdin w) as [|b1 [|b2 rest]]; cbn in *; lia.
Qed.

Lemma wait_loop_hangs_only_when_frozen (budget : nat) :
  forall w w',
    (List.length (stdin w) <= budget)%nat ->
    wait_loop None budget w = (Hang, w') ->
    stdin w' = [] /\ is_paused w' = true /\ should_stop w' = false.
Proof.
  induction budget as [|k IH]; intros w w' Hlen; cbn [wait_loop];
    unfold bind at 1;
    pose proof (stdin_after_read_should_stop WaitPoll w) as Hin1;
    destruct (read_should_stop None WaitPoll w) as [[s| |] w1] eqn:E1;
    try discriminate; cbn [snd] in Hin1;
    (destruct s; [discriminate|]);
    change (sleep (1 # 10)) with (log (ESleep (1 # 10)));
    unfold bind at 1, log, modify; cbn [fst snd];
    unfold bind at 1;
    pose proof (stdin_after_read_is_paused (emit (ESleep (1 # 10)) w1))
      as Hin2;
    destruct (read_is_paused None (emit (ESleep (1 # 10)) w1))
      as [[p| |] w2] eqn:E2;
    try discriminate; cbn [snd] in Hin2;
    (destruct p; [|discriminate]); cbn [negb].
  - intros H. inversion H; subst; clear H.
    assert (E : stdin w = [])
      by (destruct (stdin w); [reflexivity|cbn in Hlen; lia]).
    unfold read_should_stop in E1. rewrite (deliver_quiet None w E) in E1.
    inversion E1; subst; clear E1.
    unfold read_is_paused in E2.
    rewrite (deliver_quiet None
               (emit (ESleep (1 # 10)) (emit (EReadStop WaitPoll (should_stop w)) w))
               E) in E2.
    inversion E2; subst; clear E2.
    cbn. repeat split; congruence.
  - intros H. apply (IH _ _ ) in H; [exact H|].
    rewrite Hin2. cbn [emit stdin]. rewrite Hin1.
    destruct (stdin w) as [|b1 [|b2 rest]]; cbn in *; lia.
Qed.

(** * Further properties of the scripts *)

(** ** The listener over its input *)

Lemma input_listener_not_listening (on_reset : option (World -> World))
    (items : list input_item) (w : World) :
  input_thread w <> Listening -> input_listener on_reset items w = w.
Proof.
  intros H. destruct items; cbn [input_listener];
    destruct (input_thread w); try reflexivity; destruct (H eq_refl).
Qed.

Lemma input_listener_stopped (on_reset : option (World -> World))
    (items : list input_item) (w : World) :
  input_thread w = Listening -> should_stop w = true ->
  input_listener on_reset items w = set_input_thread Exited w.
Proof.
  intros H1 H2. destruct items; cbn [input_listener]; rewrite H1, H2;
    reflexivity.
Qed.

Lemma input_listener_cons (on_reset : option (World -> World))
    (item : input_item) (rest : list input_item) (w : World) :
  input_thread w = Listening -> should_stop w = false ->
  input_listener on_reset (item :: rest) w
    = input_listener on_reset rest (handle_item on_reset item w).
Proof. intros H1 H2. cbn [input_listener]. rewrite H1, H2. reflexivity. Qed.

(** After end of input, an interrupt, quit or skip, nothing that is typed
    has any effect. *)
Theorem nothing_is_handled_after_the_listener_ends
    (on_reset : option (World -> World)) (item : input_item)
    (rest : list input_item) (w : World) :
  ends_listener item = true ->
  input_listener on_reset (item :: rest) w
    = input_listener on_reset [item] w.
Proof.
  intros He.
  destruct (input_thread w) eqn:Et;
    try (rewrite !input_listener_not_listening by congruence; reflexivity).
  destruct (should_stop w) eqn:Es;
    [rewrite !input_listener_stopped by assumption; reflexivity|].
  rewrite !(input_listener_cons on_reset item _ w Et Es).
  set (w1 := handle_item on_reset item w).
  assert (H : input_thread w1 = Exited \/
              (input_thread w1 = Listening /\ should_stop w1 = true)).
  { subst w1. destruct item as [s| |]; cbn [handle_item ends_listener] in *.
    - unfold handle_command. apply orb_prop in He. destruct He as [Hq|Hs].
      + rewrite Hq. right. cbn. split; [exact Et|reflexivity].
      + unfold is_cmd in Hs. apply orb_prop in Hs.
        destruct Hs as [Hs|Hs]; apply String.eqb_eq in Hs; rewrite Hs; cbn;
          left; reflexivity.
    - left. reflexivity.
    - left. reflexivity. }
  destruct H as [H|[H1 H2]].
  - rewrite !input_listener_not_listening by (rewrite H; discriminate).
    reflexivity.
  - rewrite !input_listener_stopped by assumption. reflexivity.
Qed.

Lemma nothing_is_handled_after_the_listener_ends_witness :
  input_listener None [Line " Quit"; Line "p"; Line "n"]
    (set_input_thread Listening (init_world 0 []))
  = input_listener None [Line " Quit"]
      (set_input_thread Listening (init_world 0 [])).
Proof.
  apply (nothing_is_handled_after_the_listener_ends None (Line " Quit")).
  reflexivity.
Defined.

(** [k] pause commands in a row: the replay is paused afterwards exactly
    when [k] is odd and it was not paused, or [k] is even and it was; the
    stop flag and the listener are left alone. *)
Theorem pause_commands_toggle (on_reset : option (World -> World))
    (k : nat) :
  forall w,
    input_thread w = Listening -> should_stop w = false ->
    let w' := input_listener on_reset (repeat (Line "p") k) w in
    is_paused w' = (if Nat.even k then is_paused w else negb (is_paused w)) /\
    should_stop w' = false /\ input_thread w' = Listening /\
    robot w' = robot w.
Proof.
  induction k as [|k IH]; intros w Ht Hs.
  - cbn. rewrite Ht, Hs. repeat split; assumption.
  - cbn [repeat input_listener]. rewrite Ht, Hs.
    change (handle_item on_reset (Line "p") w)
      with (emit (EPrint (if negb (is_paused w) then MsgPaused else MsgResumed))
              (set_is_paused (negb (is_paused w)) w)).
    match goal with
    | |- context [input_listener _ _ ?x] =>
        destruct (IH x Ht Hs) as (I1 & I2 & I3 & I4)
    end.
    cbv zeta in *. rewrite I1, I2, I3, I4. cbn [is_paused emit set_is_paused robot].
    rewrite Nat.even_succ, <- Nat.negb_even.
    destruct (Nat.even k), (is_paused w); repeat split.
Qed.

Lemma pause_commands_toggle_witness :
  is_paused (input_listener None (repeat (Line "p") 3)
               (set_input_thread Listening (init_world 0 []))) = true.
Proof.
  apply (pause_commands_toggle None 3
           (set_input_thread Listening (init_world 0 [])) eq_refl eq_refl).
Defined.

(** ** Building the action of a frame *)

Lemma build_action_none (names : list string) (row : list Q) :
  forall (i : nat) (acc : action),
    (i <= List.length row)%nat ->
    (List.length row < i + List.length names)%nat ->
    build_action names i row acc = None.
Proof.
  induction names as [|name names IH]; intros i acc Hi Hlen; cbn in *; [lia|].
  destruct (nth_error row i) as [v|] eqn:Hnth; [|reflexivity].
  assert (i < List.length row)%nat by (apply nth_error_Some; congruence).
  apply IH; lia.
Qed.

(** The action of a frame cannot be built ([IndexError]) exactly when the
    row of the dataset has fewer values than there are joint names; values
    beyond the names are ignored. *)
Theorem make_action_raises_iff_row_is_short (names : list string)
    (row : list Q) (w : World) :
  snd (make_action names row w) = w /\
  (fst (make_action names row w) = Raise IndexError <->
     (List.length row < List.length names)%nat) /\
  ((exists a, fst (make_action names row w) = Ok a) <->
     (List.length names <= List.length row)%nat).
Proof.
  unfold make_action.
  destruct (Nat.le_gt_cases (List.length names) (List.length row)) as [H|H].
  - destruct (build_action_some names row 0 [] H) as [a Ha]. rewrite Ha.
    cbn. repeat split; try discriminate; try lia; eauto.
  - rewrite (build_action_none names row 0 [] (Nat.le_0_l _) H).
    cbn. repeat split; try lia; auto. intros [a C]. discriminate C.
Qed.

Lemma dict_get_set_same {V : Type} (k : string) (v : V) (d : Py.dict V) :
  Py.dict_get k (Py.dict_set k v d) = Some v.
Proof.
  induction d as [|[k' v'] d IH]; cbn.
  - rewrite String.eqb_refl. reflexivity.
  - destruct (String.eqb k k') eqn:E; cbn.
    + rewrite String.eqb_refl. reflexivity.
    + rewrite E. exact IH.
Qed.

Lemma dict_get_set_other {V : Type} (k k' : string) (v : V) (d : Py.dict V) :
  k <> k' -> Py.dict_get k (Py.dict_set k' v d) = Py.dict_get k d.
Proof.
  intros Hne. apply String.eqb_neq in Hne.
  induction d as [|[k2 v2] d IH]; cbn.
  - rewrite Hne. reflexivity.
  - destruct (String.eqb k' k2) eqn:E; cbn.
    + apply String.eqb_eq in E. subst k2. rewrite Hne. reflexivity.
    + rewrite IH. reflexivity.
Qed.

Lemma build_action_other (row : list Q) (k : string) (names : list string) :
  forall (i : nat) (acc a : action),
    build_action names i row acc = Some a ->
    ~ In k names ->
    Py.dict_get k a = Py.dict_get k acc.
Proof.
  induction names as [|name names IH]; intros i acc a H Hn; cbn in H.
  - inversion H. reflexivity.
  - destruct (nth_error row i) as [v|]; [|discriminate H].
    rewrite (IH _ _ _ H); [|intros C; apply Hn; right; exact C].
    apply dict_get_set_other. intros C. apply Hn. left. symmetry. exact C.
Qed.

Lemma build_action_last (row : list Q) (k : string) (names : list string) :
  forall (i j : nat) (acc a : action),
    build_action names i row acc = Some a ->
    nth_error names j = Some k ->
    ~ In k (skipn (S j) names) ->
    Py.dict_get k a = nth_error row (i + j) /\
    (i + j < List.length row)%nat.
Proof.
  induction names as [|name names IH]; intros i j acc a H Hj Hlast;
    [destruct j; discriminate Hj|].
  cbn in H. destruct (nth_error row i) as [v|] eqn:Hv; [|discriminate H].
  destruct j as [|j].
  - cbn in Hj. inversion Hj; subst name. cbn in Hlast.
    rewrite (build_action_other row k names _ _ _ H Hlast).
    rewrite dict_get_set_same, Nat.add_0_r, Hv. split; [reflexivity|].
    apply nth_error_Some. congruence.
  - cbn in Hj, Hlast. replace (i + S j)%nat with (S i + j)%nat by lia.
    apply (IH _ _ _ _ H Hj Hlast).
Qed.

(** The action sent for a frame gives each joint the value that the row has
    at the joint's position among the names; where a name occurs more than
    once its last position counts. *)
Theorem action_holds_the_value_at_the_joint_s_last_position
    (names : list string) (row : list Q) (w w' : World) (a : action)
    (j : nat) (k : string) :
  make_action names row w = (Ok a, w') ->
  nth_error names j = Some k ->
  ~ In k (skipn (S j) names) ->
  exists v, nth_error row j = Some v /\ Py.dict_get k a = Some v.
Proof.
  unfold make_action. intros H Hj Hlast.
  destruct (build_action names 0 row []) as [a'|] eqn:E; [|discriminate H].
  inversion H; subst a' w'; clear H.
  destruct (build_action_last row k names 0 j [] a E Hj Hlast) as [Hg Hlt].
  cbn in Hg, Hlt. destruct (nth_error row j) as [v|] eqn:Hv.
  - exists v. split; [reflexivity|exact Hg].
  - apply nth_error_None in Hv. lia.
Qed.

Lemma action_holds_the_value_at_the_joint_s_last_position_witness :
  exists v, nth_error [1; 2; 3]%Q 2 = Some v /\
            Py.dict_get "a" [("a", 3%Q); ("b", 2%Q)] = Some v.
Proof.
  apply (action_holds_the_value_at_the_joint_s_last_position
           ["a"; "b"; "a"] [1; 2; 3]%Q (init_world 0 []) (init_world 0 [])
           [("a", 3%Q); ("b", 2%Q)] 2 "a").
  - reflexivity.
  - reflexivity.
  - cbn. intros [].
Defined.

(** ** The mock dataset of the demo *)

(** [MockDataset(n, frames).get_episode(i)]: episode [i] for [0 <= i < n],
    episode [n + i] for [-n <= i < 0] (Python's indexing from the end), and
    [IndexError] otherwise; every episode has [frames] actions, the action
    of frame [f] being [MockAction] of the episode and [f]. *)
Theorem mock_episode_lookup (n frames : nat) (i : Z) (w : World) :
  Demo.get_episode (Demo.new_MockDataset n frames) i w =
    if ((0 <=? i) && (i <? Z.of_nat n))%Z then
      (Ok (map (Demo.MockAction (Z.to_nat i)) (seq 0 frames)), w)
    else if ((- Z.of_nat n <=? i) && (i <? 0))%Z then
      (Ok (map (Demo.MockAction (Z.to_nat (Z.of_nat n + i))) (seq 0 frames)), w)
    else (Raise IndexError, w).
Proof.
  unfold Demo.get_episode, Demo.new_MockDataset, Py.getitem.
  cbn [Demo.episodes]. rewrite length_map, length_seq.
  assert (Hnth : forall k, (k < n)%nat ->
            nth_error (map (fun ep_idx => map (Demo.MockAction ep_idx)
                                            (seq 0 frames)) (seq 0 n)) k
            = Some (map (Demo.MockAction k) (seq 0 frames))).
  { intros k Hk. rewrite nth_error_map, nth_error_seq.
    destruct (Nat.ltb_spec k n); [reflexivity|lia]. }
  assert (Hout : forall k, (n <= k)%nat ->
            nth_error (map (fun ep_idx => map (Demo.MockAction ep_idx)
                                            (seq 0 frames)) (seq 0 n)) k
            = None).
  { intros k Hk. apply nth_error_None. rewrite length_map, length_seq. exact Hk. }
  destruct (Z.ltb_spec i 0) as [Hneg|Hpos].
  - replace (0 <=? i)%Z with false by (symmetry; apply Z.leb_gt; lia).
    cbn [andb]. rewrite andb_true_r.
    destruct (Z.ltb_spec (Z.of_nat n + i) 0) as [H1|H1].
    + replace (- Z.of_nat n <=? i)%Z with false
        by (symmetry; apply Z.leb_gt; lia).
      reflexivity.
    + replace (- Z.of_nat n <=? i)%Z with true
        by (symmetry; apply Z.leb_le; lia).
      rewrite Hnth by lia. reflexivity.
  - replace (0 <=? i)%Z with true by (symmetry; apply Z.leb_le; lia).
    cbn [andb]. rewrite andb_false_r.
    destruct (Z.ltb_spec i (Z.of_nat n)) as [H1|H1].
    + rewrite Hnth by lia. reflexivity.
    + rewrite Hout by lia. reflexivity.
Qed.

(** ** Composing what the playing code does with its frames *)

Lemma unremarkable_facts (l : list event) :
  forallb unremarkable l = true ->
  plain l /\ sends l = [] /\ saw_stop l = false /\
  forallb delivered l = true.
Proof.
  induction l as [|e l IH]; intros H.
  - repeat split.
  - cbn [forallb] in H. apply andb_prop in H. destruct H as [He Hl].
    destruct (IH Hl) as ((D & V) & S & W & G).
    destruct e as [| | | | | | | | | | |m]; try discriminate He;
      try (repeat split; cbn; auto; fail).
    destruct m; try discriminate He; repeat split; cbn; auto.
Qed.

Lemma sends_nil_prefix (l rest : list sender) : [] = l ++ rest -> l = [].
Proof. destruct l; [reflexivity|discriminate]. Qed.

Section Playing.

Variable causes : exn -> Prop.

(** A piece that always returns and adds unremarkable entries only. *)
Lemma Plays_unremarkable {A : Type} (a : A) (w w' : World)
    (new : list event) :
  trace w' = trace w ++ new ->
  forallb unremarkable new = true ->
  robot w' = robot w ->
  dataset w' = dataset w ->
  (should_stop w = true -> should_stop w' = true) ->
  Plays causes [] (fun _ : A => true) w (Ok a) w' new.
Proof.
  intros Ht Hu Hr Hd Hm.
  destruct (unremarkable_facts new Hu) as (Hp & Hs & Hw & Hg).
  constructor; auto; try discriminate.
  - intros _. split; [exact Hs|exists a; reflexivity].
  - rewrite Hw. discriminate.
  - exists []. rewrite Hs. reflexivity.
Qed.

Lemma silent_ret {A : Type} (a : A) (w : World) : silent causes (ret a) w.
Proof.
  exists []. apply Plays_unremarkable; auto. cbn. symmetry. apply app_nil_r.
Qed.

Lemma silent_get {A : Type} (f : World -> A) (w : World) :
  silent causes (get f) w.
Proof.
  exists []. apply Plays_unremarkable; auto. cbn. symmetry. apply app_nil_r.
Qed.

Lemma silent_log (e : event) (w : World) :
  unremarkable e = true -> silent causes (log e) w.
Proof.
  intros H. exists [e]. apply Plays_unremarkable; auto.
  cbn. rewrite H. reflexivity.
Qed.

Lemma silent_optional (b : bool) (m : M unit) (w : World) :
  silent causes m w -> silent causes (if b then m else ret tt) w.
Proof. intros H. destruct b; [exact H|apply silent_ret]. Qed.

(** Raising and hanging, where no stop is requested. *)
Lemma silent_raise {A : Type} (c : exn) (w : World) :
  should_stop w = false -> causes c -> silent causes (@raise A c) w.
Proof.
  intros Hs Hc. exists []. constructor; cbn; try discriminate; auto.
  - symmetry. apply app_nil_r.
  - apply plain_nil.
  - intros C. congruence.
  - exists []. reflexivity.
  - intros c' H. inversion H; subst. exact Hc.
Qed.

Lemma silent_hang {A : Type} (w : World) :
  frozen w -> silent causes (@hang A) w.
Proof.
  intros Hf. exists []. constructor; cbn; try discriminate; auto.
  - symmetry. apply app_nil_r.
  - apply plain_nil.
  - intros C. destruct Hf as (_ & _ & Hf). congruence.
  - exists []. reflexivity.
Qed.

(** Once a stop is requested, a silent piece plays any plan. *)
Lemma plays_stopped {A : Type} (planned : list sender) (good : A -> bool)
    (m : M A) (w : World) :
  should_stop w = true -> silent causes m w -> plays causes planned good m w.
Proof.
  intros Hs [new H]. exists new.
  destruct H as [T P R D M S W [rest X] C G F E].
  apply sends_nil_prefix in X.
  constructor; auto.
  - exists planned. rewrite X. reflexivity.
  - intros a Ha Hn. rewrite (M Hs) in Hn. discriminate Hn.
Qed.

Lemma plays_bind {A B : Type} (p1 p2 : list sender) (good1 : A -> bool)
    (good2 : B -> bool) (m : M A) (f : A -> M B) (w : World) :
  plays causes p1 good1 m w ->
  (forall a w1, m w = (Ok a, w1) -> dataset w1 = dataset w ->
     (should_stop w1 = false -> good1 a = true) ->
     plays causes p2 good2 (f a) w1) ->
  plays causes (p1 ++ p2) good2 (bind m f) w.
Proof.
  intros [n1 H1] Hf. unfold plays, bind.
  destruct (m w) as [[a|c|] w1] eqn:E; cbn [fst snd] in *.
  - destruct H1 as [T1 P1 R1 D1 M1 S1 W1 [rest1 X1] C1 G1 F1 E1].
    destruct (Hf a w1 eq_refl D1) as [n2 H2].
    { intros Hs. apply (C1 a eq_refl Hs). }
    destruct H2 as [T2 P2 R2 D2 M2 S2 W2 [rest2 X2] C2 G2 F2 E2].
    exists (n1 ++ n2). constructor.
    + rewrite T2, T1, app_assoc. reflexivity.
    + apply plain_app; assumption.
    + congruence.
    + congruence.
    + auto.
    + intros Hs. destruct (S1 Hs) as [Y1 _].
      destruct (S2 (M1 Hs)) as [Y2 Z2].
      rewrite sends_app, Y1, Y2. split; [reflexivity|exact Z2].
    + rewrite saw_stop_app. intros Hw. apply orb_prop in Hw.
      destruct Hw as [Hw|Hw].
      * destruct (W1 Hw) as [Hs1 _]. split; [apply M2, Hs1|].
        apply (S2 Hs1).
      * apply (W2 Hw).
    + rewrite sends_app. destruct (should_stop w1) eqn:Es.
      * destruct (S2 eq_refl) as [Y2 _]. rewrite Y2, app_nil_r.
        exists (rest1 ++ p2). rewrite X1, app_assoc. reflexivity.
      * destruct (C1 a eq_refl eq_refl) as [Y1 _]. rewrite Y1.
        exists rest2. rewrite X2, app_assoc. reflexivity.
    + intros b Hb Hs. destruct (should_stop w1) eqn:Es;
        [rewrite (M2 eq_refl) in Hs; discriminate Hs|].
      destruct (C1 a eq_refl eq_refl) as [Y1 _].
      destruct (C2 b Hb Hs) as [Y2 Z2].
      rewrite sends_app, Y1, Y2. split; [reflexivity|exact Z2].
    + intros b Hb. rewrite forallb_app, (G1 a eq_refl), (G2 b Hb). reflexivity.
    + exact F2.
    + exact E2.
  - destruct H1 as [T1 P1 R1 D1 M1 S1 W1 [rest1 X1] C1 G1 F1 E1].
    exists n1. constructor; auto; try discriminate.
    + intros Hs. destruct (S1 Hs) as [_ [a C]]. discriminate C.
    + intros Hw. destruct (W1 Hw) as [_ [a C]]. discriminate C.
    + exists (rest1 ++ p2). rewrite X1, app_assoc. reflexivity.
    + intros c' H. inversion H; subst. apply E1. reflexivity.
  - destruct H1 as [T1 P1 R1 D1 M1 S1 W1 [rest1 X1] C1 G1 F1 E1].
    exists n1. constructor; auto; try discriminate.
    + intros Hs. destruct (S1 Hs) as [_ [a C]]. discriminate C.
    + intros Hw. destruct (W1 Hw) as [_ [a C]]. discriminate C.
    + exists (rest1 ++ p2). rewrite X1, app_assoc. reflexivity.
Qed.

(** A silent piece first. *)
Lemma plays_after {A B : Type} (planned : list sender) (good : B -> bool)
    (m : M A) (f : A -> M B) (w : World) :
  silent causes m w ->
  (forall a w1, m w = (Ok a, w1) -> dataset w1 = dataset w ->
     plays causes planned good (f a) w1) ->
  plays causes planned good (bind m f) w.
Proof.
  intros Hm Hf.
  apply (plays_bind [] planned (fun _ => true) good m f w Hm).
  intros a w1 E D _. apply (Hf a w1 E D).
Qed.

(** A silent piece last. *)
Lemma plays_before {A B : Type} (planned : list sender) (good1 : A -> bool)
    (good2 : B -> bool) (m : M A) (f : A -> M B) (w : World) :
  plays causes planned good1 m w ->
  (forall a w1, m w = (Ok a, w1) -> dataset w1 = dataset w ->
     (should_stop w1 = false -> good1 a = true) ->
     plays causes [] good2 (f a) w1) ->
  plays causes planned good2 (bind m f) w.
Proof.
  intros Hm Hf. rewrite <- (app_nil_r planned).
  apply (plays_bind planned [] good1 good2 m f w Hm Hf).
Qed.

Lemma silent_bind {A B : Type} (m : M A) (f : A -> M B) (w : World) :
  silent causes m w ->
  (forall a w1, m w = (Ok a, w1) -> dataset w1 = dataset w ->
     silent causes (f a) w1) ->
  silent causes (bind m f) w.
Proof. apply plays_after. Qed.

End Playing.

(** ** The listener says nothing remarkable *)

Lemma handle_item_unremarkable (item : input_item) (w : World) :
  exists new,
    trace (handle_item None item w) = trace w ++ new /\
    forallb unremarkable new = true.
Proof.
  destruct item as [s| |]; cbn [handle_item];
    try (exists []; cbn; rewrite app_nil_r; split; reflexivity).
  unfold handle_command.
  repeat match goal with
         | |- context [if ?c then _ else _] => destruct c
         end;
    eexists [_]; cbn; split; reflexivity.
Qed.

Lemma input_listener_unremarkable (items : list input_item) :
  forall w, exists new,
    trace (input_listener None items w) = trace w ++ new /\
    forallb unremarkable new = true.
Proof.
  induction items as [|item items IH]; intros w; cbn [input_listener];
    destruct (input_thread w);
    try (exists []; cbn; rewrite app_nil_r; split; reflexivity);
    destruct (should_stop w);
    try (exists []; cbn; rewrite app_nil_r; split; reflexivity).
  destruct (handle_item_unremarkable item w) as (n1 & T1 & U1).
  destruct (IH (handle_item None item w)) as (n2 & T2 & U2).
  exists (n1 ++ n2). rewrite T2, T1, app_assoc, forallb_app, U1, U2.
  split; reflexivity.
Qed.

Lemma deliver_unremarkable (w : World) :
  exists new,
    trace (deliver None w) = trace w ++ new /\
    forallb unremarkable new = true /\
    robot (deliver None w) = robot w /\
    dataset (deliver None w) = dataset w /\
    (should_stop w = true -> should_stop (deliver None w) = true).
Proof.
  destruct (deliver_heard w) as (n & Ht & _ & Hr & Hd & _ & _ & _ & Hm & _).
  unfold deliver in *. destruct (stdin w) as [|batch rest].
  - exists []. rewrite app_nil_r. repeat split; auto.
  - destruct (input_listener_unremarkable batch (set_stdin rest w))
      as (new & T & U).
    exists new. repeat split; assumption.
Qed.

Section Pieces.

Variable causes : exn -> Prop.

Lemma silent_read_is_paused (w : World) :
  silent causes (read_is_paused None) w.
Proof.
  destruct (deliver_unremarkable w) as (n & Ht & Hu & Hr & Hd & Hm).
  exists (n ++ [EReadPaused (is_paused (deliver None w))]).
  unfold read_is_paused. cbn [fst snd].
  apply Plays_unremarkable; cbn [emit trace robot dataset should_stop]; auto.
  - rewrite Ht, app_assoc. reflexivity.
  - rewrite forallb_app, Hu. reflexivity.
Qed.

Lemma silent_read_should_stop (cp : checkpoint) (w : World) :
  silent causes (read_should_stop None cp) w.
Proof.
  destruct (deliver_unremarkable w) as (n & Ht & Hu & Hr & Hd & Hm).
  destruct (unremarkable_facts n Hu) as ((D & V) & S & W & G).
  exists (n ++ [EReadStop cp (should_stop (deliver None w))]).
  unfold read_should_stop. cbn [fst snd].
  constructor; cbn [emit trace robot dataset should_stop]; auto;
    try discriminate.
  - rewrite Ht, app_assoc. reflexivity.
  - apply plain_app; [split; assumption|]. split; [reflexivity|].
    intros acc. reflexivity.
  - intros Hs. rewrite sends_app, S. split; [reflexivity|eauto].
  - rewrite saw_stop_app, W. cbn. rewrite orb_false_r.
    intros Hs. split; [|eauto].
    destruct (should_stop (deliver None w)); [reflexivity|discriminate Hs].
  - exists []. rewrite sends_app, S. reflexivity.
  - intros a _ _. rewrite sends_app, S. split; reflexivity.
  - intros a _. rewrite forallb_app, G. reflexivity.
Qed.

(** A sleep adds its entry to the record, or raises when its argument is
    negative. *)
Lemma silent_sleep (secs : Q) (w : World) :
  (Qle_bool 0 secs = false ->
   should_stop w = false /\ causes (ValueError NegativeSleep)) ->
  silent causes (sleep secs) w.
Proof.
  intros H. unfold sleep. destruct (Qle_bool 0 secs).
  - apply silent_log. reflexivity.
  - destruct (H eq_refl) as [Hs Hc]. apply silent_raise; assumption.
Qed.

Lemma silent_print (m : message) (w : World) :
  unremarkable (EPrint m) = true -> silent causes (print m) w.
Proof. apply silent_log. Qed.

Lemma read_is_paused_frozen (w w1 : World) (p : bool) :
  stdin w = [] ->
  read_is_paused None w = (Ok p, w1) ->
  p = is_paused w /\ w1 = emit (EReadPaused p) w.
Proof.
  intros E H. unfold read_is_paused in H.
  rewrite (deliver_quiet None w E) in H. inversion H. split; reflexivity.
Qed.

Lemma read_should_stop_frozen (cp : checkpoint) (w w1 : World) (s : bool) :
  stdin w = [] ->
  read_should_stop None cp w = (Ok s, w1) ->
  s = should_stop w /\ w1 = emit (EReadStop cp s) w.
Proof.
  intros E H. unfold read_should_stop in H.
  rewrite (deliver_quiet None w E) in H. inversion H. split; reflexivity.
Qed.

Lemma budget_step (w w1 w2 : World) (k : nat) :
  (List.length (stdin w) <= S k)%nat ->
  stdin w1 = tl (stdin w) -> stdin w2 = tl (stdin w1) ->
  (List.length (stdin w2) <= k)%nat.
Proof.
  intros H E1 E2. rewrite E2, E1.
  destruct (stdin w) as [|b1 [|b2 rest]]; cbn in *; lia.
Qed.

Lemma silent_pause_loop (budget : nat) :
  forall w, (List.length (stdin w) <= budget)%nat ->
            silent causes (pause_loop None budget) w.
Proof.
  induction budget as [|k IH]; intros w Hlen; cbn [pause_loop];
    (apply silent_bind; [apply silent_read_is_paused|]);
    intros p w1 E1 _; (destruct p; [|apply silent_ret]);
    (apply silent_bind; [apply silent_read_should_stop|]);
    intros s w2 E2 _; (destruct s; [apply silent_ret|]);
    (apply silent_bind; [apply silent_sleep; discriminate|]);
    intros u w3 E3 _; apply log_inv in E3; subst w3.
  - assert (E : stdin w = [])
      by (destruct (stdin w); [reflexivity|cbn in Hlen; lia]).
    apply (read_is_paused_frozen _ _ _ E) in E1. destruct E1 as [Hp ->].
    apply read_should_stop_frozen in E2; [|exact E]. destruct E2 as [Hs ->].
    apply silent_hang. unfold frozen, add_events. cbn in *.
    repeat split; congruence.
  - apply IH. apply read_is_paused_inv in E1. apply read_should_stop_inv in E2.
    cbn. apply (budget_step w w1 w2 k Hlen); [apply E1|apply E2].
Qed.

Lemma silent_wait_loop (budget : nat) :
  forall w, (List.length (stdin w) <= budget)%nat ->
            silent causes (wait_loop None budget) w.
Proof.
  induction budget as [|k IH]; intros w Hlen; cbn [wait_loop];
    (apply silent_bind; [apply silent_read_should_stop|]);
    intros s w1 E1 _; (destruct s; [apply silent_ret|]);
    (apply silent_bind; [apply silent_sleep; discriminate|]);
    intros u w2 E2 _; apply log_inv in E2; subst w2;
    (apply silent_bind; [apply silent_read_is_paused|]);
    intros p w3 E3 _; (destruct p; [|apply silent_ret]); cbn [negb].
  - assert (E : stdin w = [])
      by (destruct (stdin w); [reflexivity|cbn in Hlen; lia]).
    apply (read_should_stop_frozen _ _ _ _ E) in E1. destruct E1 as [Hs ->].
    apply read_is_paused_frozen in E3; [|exact E]. destruct E3 as [Hp ->].
    apply silent_hang. unfold frozen, add_events. cbn in *.
    repeat split; congruence.
  - apply IH. apply read_should_stop_inv in E1. apply read_is_paused_inv in E3.
    apply (budget_step w w1 w3 k Hlen); [apply E1|].
    destruct E3 as (_ & E3 & _). exact E3.
Qed.

Lemma silent_poll_budget (w : World) : silent causes poll_budget w.
Proof. apply silent_get. Qed.

End Pieces.

(** ** The playing code of replay_all_episodes.py, frame by frame *)

Lemma send_action_inv (env : Env) (src : sender) (a : action) (w w1 : World)
    (u : unit) :
  send_action env src a w = (Ok u, w1) ->
  w1 = add_events [ESendAction src a None] w.
Proof.
  unfold send_action. destruct (send_result env (trace w) a); intros H;
    inversion H. reflexivity.
Qed.

Lemma frame_budget_inv (fps_ : Z) (dt_s secs : Q) (w w1 : World) :
  frame_budget fps_ dt_s w = (Ok secs, w1) -> w1 = w.
Proof.
  unfold frame_budget. destruct (fps_ =? 0)%Z; intros H; inversion H.
  reflexivity.
Qed.

Lemma LeRobotDataset_episode_inv (env : Env) (episode_idx : Z)
    (d : EpisodeData) (w w1 : World) :
  LeRobotDataset_episode env episode_idx w = (Ok d, w1) ->
  open_episode env episode_idx = inr d /\
  w1 = add_events [ELoadDataset (Some episode_idx)] w.
Proof.
  unfold LeRobotDataset_episode, bind, log, modify. cbn.
  destruct (open_episode env episode_idx); intros H; inversion H.
  split; reflexivity.
Qed.

Section ReplayAllPlays.

Variable env : Env.
Variable cfg : ReplayAllConfig.
Variable meta : DatasetMeta.
Variable causes : exn -> Prop.

Hypothesis send_cause :
  forall history a c, send_result env history a = Some c -> causes c.
Hypothesis open_cause :
  forall i c, open_episode env i = inl c -> causes c.
Hypothesis index_cause :
  forall i d row, open_episode env i = inr d -> In row (actions d) ->
    (List.length row < List.length (action_names d))%nat -> causes IndexError.
Hypothesis zero_cause : fps meta = 0%Z -> causes ZeroDivisionError.
Hypothesis delay_cause :
  auto_advance cfg = true -> (episode_delay cfg < 0)%Q ->
  causes (ValueError NegativeSleep).

Lemma plays_ret {A : Type} (good : A -> bool) (a : A) (w : World) :
  good a = true -> plays causes [] good (ret a) w.
Proof.
  intros Hg. exists []. constructor; cbn; auto; try discriminate.
  - symmetry. apply app_nil_r.
  - apply plain_nil.
  - intros _. split; [reflexivity|eauto].
  - exists []. reflexivity.
  - intros b H _. inversion H; subst. split; [reflexivity|exact Hg].
Qed.

Lemma plays_send_action (src : sender) (a : action) (w : World) :
  should_stop w = false ->
  plays causes [src] (fun _ : unit => true) (send_action env src a) w.
Proof.
  intros Hs. unfold plays, send_action.
  exists [ESendAction src a (send_result env (trace w) a)].
  destruct (send_result env (trace w) a) as [c|] eqn:E; cbn [fst snd];
    constructor; cbn; auto; try discriminate; try congruence;
    try (split; [reflexivity|intros acc; reflexivity]);
    try (exists []; reflexivity).
  intros c' H. inversion H; subst. apply (send_cause _ _ _ E).
Qed.

Lemma silent_make_action (names : list string) (row : list Q) (w : World) :
  should_stop w = false ->
  ((List.length row < List.length names)%nat -> causes IndexError) ->
  silent causes (make_action names row) w.
Proof.
  intros Hs Hc. unfold make_action.
  destruct (build_action names 0 row []) eqn:E;
    [apply silent_ret|apply silent_raise; [exact Hs|]].
  apply Hc.
  destruct (Nat.le_gt_cases (List.length names) (List.length row)) as [H|H];
    [|exact H].
  destruct (build_action_some names row 0 [] H) as [a Ha]. congruence.
Qed.

Lemma silent_dataset_fps (w : World) :
  dataset w = Some meta -> silent causes dataset_fps w.
Proof.
  intros H. unfold dataset_fps. apply silent_bind; [apply silent_get|].
  intros d w1 E _. apply get_inv in E. destruct E as [-> ->]. rewrite H.
  apply silent_ret.
Qed.

Lemma silent_frame_budget (dt_s : Q) (w : World) :
  should_stop w = false -> silent causes (frame_budget (fps meta) dt_s) w.
Proof.
  intros Hs. unfold frame_budget.
  destruct (Z.eqb_spec (fps meta) 0);
    [apply silent_raise; auto|apply silent_ret].
Qed.

Lemma silent_LeRobotDataset_episode (episode_idx : Z) (w : World) :
  should_stop w = false ->
  silent causes (LeRobotDataset_episode env episode_idx) w.
Proof.
  intros Hs. unfold LeRobotDataset_episode.
  apply silent_bind; [apply silent_log; reflexivity|].
  intros u w1 E _. apply log_inv in E. subst w1.
  destruct (open_episode env episode_idx) as [c|d] eqn:Ho;
    [apply silent_raise; [exact Hs|apply (open_cause _ _ Ho)]
    |apply silent_ret].
Qed.

Lemma plays_frame_loop (episode_idx : Z) (names : list string)
    (rows : list (list Q)) :
  (forall row, In row rows ->
     (List.length row < List.length names)%nat -> causes IndexError) ->
  forall frame_idx w,
    dataset w = Some meta ->
    plays causes (map (Frame episode_idx) (seq frame_idx (List.length rows)))
      (fun ok : bool => ok)
      (ReplayAll.frame_loop env episode_idx names rows frame_idx) w.
Proof.
  induction rows as [|row rows IH]; intros Hrows frame_idx w Hd;
    cbn [ReplayAll.frame_loop List.length seq map].
  - apply plays_after; [apply silent_print; reflexivity|].
    intros u1 w1 _ _. apply plays_ret. reflexivity.
  - apply plays_after; [apply silent_read_should_stop|].
    intros s w1 E1 D1. apply read_should_stop_inv in E1.
    destruct E1 as (Es1 & _). destruct s.
    { apply plays_stopped; [congruence|].
      apply silent_bind; [apply silent_print; reflexivity|].
      intros u2 w2 _ _. apply silent_ret. }
    apply plays_after; [apply silent_poll_budget|].
    intros budget w2 E2 D2. apply get_inv in E2. destruct E2 as [-> ->].
    apply plays_after; [apply silent_pause_loop; lia|].
    intros u3 w3 _ D3.
    apply plays_after; [apply silent_read_should_stop|].
    intros s w4 E4 D4. apply read_should_stop_inv in E4.
    destruct E4 as (Es4 & _). destruct s.
    { apply plays_stopped; [congruence|apply silent_ret]. }
    apply plays_after.
    { apply silent_make_action; [congruence|].
      apply Hrows. left. reflexivity. }
    intros a w5 E5 D5. apply make_action_inv in E5. subst w5.
    change (Frame episode_idx frame_idx
              :: map (Frame episode_idx) (seq (S frame_idx) (List.length rows)))
      with ([Frame episode_idx frame_idx]
              ++ map (Frame episode_idx) (seq (S frame_idx) (List.length rows))).
    apply (plays_bind causes _ _ (fun _ : unit => true));
      [apply plays_send_action; congruence|].
    intros u w6 E6 D6 _. apply send_action_inv in E6. subst w6.
    assert (Hd6 : dataset (add_events [ESendAction (Frame episode_idx frame_idx) a None] w4)
                  = Some meta) by (cbn; congruence).
    apply plays_after; [apply silent_dataset_fps; exact Hd6|].
    intros fps_ w7 E7 D7. rewrite (dataset_fps_eq meta _ Hd6) in E7.
    inversion E7; subst fps_ w7; clear E7.
    apply plays_after; [apply silent_frame_budget; cbn; congruence|].
    intros secs w8 E8 D8. apply frame_budget_inv in E8. subst w8.
    apply plays_after; [apply silent_log; reflexivity|].
    intros u9 w9 E9 D9. apply log_inv in E9. subst w9.
    apply plays_after;
      [apply silent_optional; apply silent_print; reflexivity|].
    intros u10 w10 _ D10.
    apply IH.
    + intros r Hin. apply Hrows. right. exact Hin.
    + rewrite D10. cbn. exact Hd6.
Qed.

Lemma plays_replay_single_episode (episode_idx : Z) (w : World) :
  should_stop w = false ->
  dataset w = Some meta ->
  plays causes (episode_sends env episode_idx) (fun ok : bool => ok)
    (ReplayAll.replay_single_episode env cfg episode_idx) w.
Proof.
  intros Hs Hd. unfold ReplayAll.replay_single_episode.
  apply plays_after; [apply silent_print; reflexivity|].
  intros u1 w1 E1 D1. apply log_inv in E1. subst w1.
  apply plays_after; [apply silent_LeRobotDataset_episode; exact Hs|].
  intros d w2 E2 D2. apply LeRobotDataset_episode_inv in E2.
  destruct E2 as [Ho ->].
  apply plays_after; [apply silent_print; reflexivity|].
  intros u3 w3 E3 D3.
  apply plays_after;
    [apply silent_optional; apply silent_log; reflexivity|].
  intros u4 w4 E4 D4.
  unfold episode_sends. rewrite Ho. unfold num_frames.
  apply plays_frame_loop.
  - intros row Hin. apply (index_cause episode_idx d row Ho Hin).
  - rewrite D4, D3. exact Hd.
Qed.

Lemma silent_between_episodes (episode_idx : Z) (w : World) :
  silent causes (ReplayAll.between_episodes cfg episode_idx) w.
Proof.
  unfold ReplayAll.between_episodes.
  apply silent_bind; [apply silent_get|]. intros end_ep w1 _ _.
  destruct (episode_idx <? end_ep)%Z; [|apply silent_ret].
  apply silent_bind; [apply silent_read_should_stop|]. intros s w2 E2 _.
  apply read_should_stop_inv in E2. destruct E2 as (Es2 & _).
  destruct s; cbn [negb]; [apply silent_ret|].
  destruct (auto_advance cfg) eqn:Ea.
  - apply silent_bind; [apply silent_print; reflexivity|]. intros u3 w3 E3 _.
    apply log_inv in E3. subst w3.
    apply silent_sleep. intros Hneg. split; [cbn; congruence|].
    apply delay_cause; [reflexivity|apply Qle_bool_false, Hneg].
  - apply silent_bind; [apply silent_print; reflexivity|]. intros u3 w3 _ _.
    apply silent_bind; [apply silent_poll_budget|]. intros budget w4 E4 _.
    apply get_inv in E4. destruct E4 as [-> ->].
    apply silent_wait_loop. lia.
Qed.

Lemma plays_episode_loop (episodes : list Z) :
  forall w,
    dataset w = Some meta ->
    plays causes (flat_map (episode_sends env) episodes) (fun _ : unit => true)
      (ReplayAll.episode_loop env cfg episodes) w.
Proof.
  induction episodes as [|e episodes IH]; intros w Hd;
    cbn [ReplayAll.episode_loop flat_map]; [apply silent_ret|].
  apply plays_after; [apply silent_read_should_stop|].
  intros s w1 E1 D1. apply read_should_stop_inv in E1.
  destruct E1 as (Es1 & _). destruct s.
  { apply plays_stopped; [congruence|apply silent_ret]. }
  apply plays_after; [apply silent_print; reflexivity|].
  intros u2 w2 E2 D2. apply log_inv in E2. subst w2.
  apply (plays_bind causes _ _ (fun ok : bool => ok)).
  { apply plays_replay_single_episode; cbn; congruence. }
  intros ok w3 E3 D3 Hg. destruct ok; cbn [negb].
  - apply plays_after; [apply silent_between_episodes|].
    intros u4 w4 _ D4. apply IH. rewrite D4, D3. cbn. congruence.
  - destruct (should_stop w3) eqn:Es3; [|discriminate (Hg eq_refl)].
    apply plays_stopped; [exact Es3|apply silent_ret].
Qed.

End ReplayAllPlays.

(** ** A whole run of replay_all_episodes.py *)

Lemma setup_outcome (env : Env) (cfg : ReplayAllConfig) (w : World) :
  let r := ReplayAll.setup_robot_and_dataset env cfg w in
  exists S,
    trace (snd r) = trace w ++ S /\
    forallb unremarkable S = true /\
    should_stop (snd r) = should_stop w /\
    fst r <> Hang /\
    (forall u, fst r = Ok u ->
       robot (snd r) = Some true /\
       exists meta,
         open_dataset env = inr meta /\ dataset (snd r) = Some meta /\
         requested env cfg =
           flat_map (episode_sends env)
             (Py.range (current_episode (snd r)) (end_episode (snd r) + 1))) /\
    (forall c, fst r = Raise c ->
       setup_causes env cfg c /\ requested env cfg = []).
Proof.
  unfold requested, setup_causes, ReplayAll.setup_robot_and_dataset,
    make_robot_from_config, connect, is_connected, LeRobotDataset, bind, log,
    modify, get, print, raise, ret.
  destruct (make_robot_raises env) as [em|], (connect_raises env) as [ec|],
    (connected_after_connect env), (open_dataset env) as [ed|meta];
    cbn;
    try destruct (episode_range _ _ _) as [e'|[s e']] eqn:Er; cbn;
    eexists; (split; [rewrite <- ?app_assoc; reflexivity|]);
    cbn; repeat split; try discriminate; eauto;
    match goal with
    | H : Raise _ = Raise _ |- _ => inversion H; subst; eauto 9
    end.
Qed.

Lemma play_unfold (env : Env) (cfg : ReplayAllConfig) (w : World) :
  ReplayAll.play env cfg w =
    bind (ReplayAll.episode_loop env cfg
            (Py.range (current_episode w) (end_episode w + 1)))
      (fun _ =>
         s <- read_should_stop None Final ;;
         if negb s then print MsgAllCompleted else print MsgStoppedByUser)
      (add_events [EPrint MsgStarting] w).
Proof. reflexivity. Qed.

(** The lines after the episode loop: one read of [should_stop] and the
    verdict. *)
Lemma verdict_anatomy (causes : exn -> Prop) (planned : list sender)
    (loop : M unit) (w : World) :
  plays causes planned (fun _ : unit => true) loop w ->
  let r :=
    bind loop
      (fun _ =>
         s <- read_should_stop None Final ;;
         if negb s then print MsgAllCompleted else print MsgStoppedByUser) w in
  exists P v,
    trace (snd r) = trace w ++ P ++ v /\
    plain P /\
    robot (snd r) = robot w /\
    (exists rest, planned = sends P ++ rest) /\
    (fst r = Hang -> v = [] /\ frozen (snd r)) /\
    (forall c, fst r = Raise c -> v = [] /\ causes c) /\
    (forall u, fst r = Ok u ->
       (v = [EPrint MsgAllCompleted] /\ should_stop (snd r) = false /\
        saw_stop P = false /\ sends P = planned /\
        forallb delivered P = true) \/
       (v = [EPrint MsgStoppedByUser] /\ should_stop (snd r) = true /\
        saw_stop P = true)) /\
    (saw_stop P = true -> exists u, fst r = Ok u).
Proof.
  intros [n H]. unfold bind.
  destruct (loop w) as [[u|c|] w2] eqn:E; cbn [fst snd] in *;
    destruct H as [T Pl R D M S W [rest X] C G F Ex].
  - destruct (deliver_unremarkable w2) as (nd & Td & Ud & Rd & Dd & Md).
    destruct (unremarkable_facts nd Ud) as ((Dn & Vn) & Sn & Wn & Gn).
    unfold read_should_stop. cbn [fst snd].
    assert (Hs3 : should_stop (deliver None w2) = false ->
                  should_stop w2 = false).
    { intros Hf. destruct (should_stop w2); [|reflexivity].
      rewrite (Md eq_refl) in Hf. discriminate Hf. }
    remember (should_stop (deliver None w2)) as s eqn:Es.
    exists (n ++ nd ++ [EReadStop Final s]).
    assert (HP : plain (n ++ nd ++ [EReadStop Final s])).
    { apply plain_app; [exact Pl|].
      apply plain_app; [split; assumption|].
      split; [reflexivity|intros acc; reflexivity]. }
    assert (HS : sends (n ++ nd ++ [EReadStop Final s]) = sends n).
    { rewrite !sends_app, Sn. cbn. apply app_nil_r. }
    assert (HW : saw_stop (n ++ nd ++ [EReadStop Final s]) = saw_stop n || s).
    { rewrite !saw_stop_app, Wn. cbn. destruct s; reflexivity. }
    assert (HG : forallb delivered (n ++ nd ++ [EReadStop Final s]) = true).
    { rewrite !forallb_app, (G u eq_refl), Gn. reflexivity. }
    destruct s; cbn [negb].
    + exists [EPrint MsgStoppedByUser].
      unfold print, log, modify. cbn [fst snd emit trace robot should_stop].
      rewrite Td, T, Rd, R, HS, HW, <- Es, orb_true_r.
      rewrite <- !app_assoc.
      split; [|split; [|split; [|split; [|split; [|split; [|split]]]]]].
      * reflexivity.
      * exact HP.
      * reflexivity.
      * exists rest. exact X.
      * discriminate.
      * discriminate.
      * intros _ _. right. repeat split.
      * intros _. exists tt. reflexivity.
    + exists [EPrint MsgAllCompleted].
      specialize (Hs3 eq_refl).
      assert (Wf : saw_stop n = false).
      { destruct (saw_stop n); [|reflexivity].
        destruct (W eq_refl) as [C1 _]. congruence. }
      destruct (C u eq_refl Hs3) as [Cs _].
      unfold print, log, modify. cbn [fst snd emit trace robot should_stop].
      rewrite Td, T, Rd, R, HS, HW, <- Es, Wf, Cs.
      rewrite <- !app_assoc.
      split; [|split; [|split; [|split; [|split; [|split; [|split]]]]]].
      * reflexivity.
      * exact HP.
      * reflexivity.
      * exists []. symmetry. apply app_nil_r.
      * discriminate.
      * discriminate.
      * intros _ _. left. repeat split. exact HG.
      * discriminate.
  - exists n, []. rewrite T, app_nil_r.
    split; [|split; [|split; [|split; [|split; [|split; [|split]]]]]].
    + reflexivity.
    + exact Pl.
    + exact R.
    + exists rest. exact X.
    + discriminate.
    + intros c' H. inversion H; subst. split; [reflexivity|]. apply Ex. reflexivity.
    + discriminate.
    + intros Hw. destruct (W Hw) as [_ [a Ca]]. discriminate Ca.
  - exists n, []. rewrite T, app_nil_r.
    split; [|split; [|split; [|split; [|split; [|split; [|split]]]]]].
    + reflexivity.
    + exact Pl.
    + exact R.
    + exists rest. exact X.
    + intros _. split; [reflexivity|]. apply F. reflexivity.
    + discriminate.
    + discriminate.
    + intros Hw. destruct (W Hw) as [_ [a Ca]]. discriminate Ca.
Qed.

Section ReplayAllRun.

Variable env : Env.
Variable cfg : ReplayAllConfig.

Lemma plays_replay_all_loop (meta : DatasetMeta) (episodes : list Z)
    (w : World) :
  dataset w = Some meta ->
  plays (play_causes env cfg meta) (flat_map (episode_sends env) episodes)
    (fun _ : unit => true) (ReplayAll.episode_loop env cfg episodes) w.
Proof.
  intros Hd.
  apply (plays_episode_loop env cfg meta (play_causes env cfg meta)).
  - intros h a c H. right. right. right. left. exists h, a. exact H.
  - intros i c H. right. right. left. exists i. exact H.
  - intros i d row H1 H2 H3. left. split; [reflexivity|].
    exists i, d, row. repeat split; assumption.
  - intros H. right. left. split; [reflexivity|exact H].
  - intros Ha Hn. right. right. right. right. repeat split; assumption.
  - exact Hd.
Qed.

Lemma replay_all_facts (schedule : list (list input_item)) :
  let r := ReplayAll.replay_all_episodes env cfg schedule in
  let tr := trace (snd r) in
  (exists rest, requested env cfg = sends tr ++ rest) /\
  (outcome_of r = Completed ->
     sends tr = requested env cfg /\ forallb delivered tr = true /\
     saw_stop tr = false /\ should_stop (snd r) = false /\
     disconnects tr = 1%nat) /\
  (outcome_of r = StoppedByUser <-> saw_stop tr = true) /\
  (fst r = Hang ->
     frozen (snd r) /\ robot (snd r) = Some true /\ disconnects tr = 0%nat) /\
  (forall c, outcome_of r = Failed c ->
     setup_causes env cfg c \/
     exists meta, open_dataset env = inr meta /\ play_causes env cfg meta c) /\
  (fst r <> Hang ->
     fst r = Ok tt /\ robot (snd r) <> Some true /\ outcome_of r <> Silent /\
     (disconnects tr <= 1)%nat).
Proof.
  unfold ReplayAll.replay_all_episodes, outcome_of.
  set (w0 := init_world (start_episode (dataset_cfg cfg)) schedule).
  rewrite run_unfold.
  destruct (setup_outcome env cfg w0) as (S & TS & US & FS & HS & OkS & RaS).
  destruct (unremarkable_facts S US) as ((DS & VS) & SS & WS & GS).
  cbn [trace w0 init_world app] in TS.
  destruct (ReplayAll.setup_robot_and_dataset env cfg w0) as [[u|c|] w1] eqn:E;
    cbn [fst snd] in *.
  - destruct (OkS u eq_refl) as (Rb & meta & Ho & Hd & Hreq).
    rewrite play_unfold.
    destruct (verdict_anatomy _ _ _ _
                (plays_replay_all_loop meta
                   (Py.range (current_episode (set_input_thread Listening w1))
                      (end_episode (set_input_thread Listening w1) + 1))
                   (add_events [EPrint MsgStarting]
                      (set_input_thread Listening w1)) Hd))
      as (P & v & TP & (DP & VP) & RP & [rest XP] & HP & RaP & OkP & WP).
    cbn [trace robot set_input_thread current_episode end_episode add_events]
      in *.
    rewrite <- Hreq in *.
    match goal with
    | |- context [match ?x with (_, _) => _ end] =>
        destruct x as [[u'|c|] w2] eqn:EP
    end; cbn [fst snd] in *.
    + unfold ReplayAll.cleanup, bind, get. rewrite RP, Rb.
      unfold disconnect, print, log, modify, bind.
      cbn [fst snd emit trace robot should_stop set_robot stdin is_paused].
      rewrite TP, TS.
      destruct (OkP u' eq_refl) as [(-> & H1 & H2 & H3 & H4)|(-> & H1 & H2)].
      * rewrite !sends_app, !saw_stop_app, !last_verdict_app, !forallb_app,
          !disconnects_app, SS, WS, GS, DS, DP, VS, VP, H2, H3, H4, H1.
        cbn. rewrite ?app_nil_r.
        repeat split; try discriminate; try congruence; try lia;
          try (exists []; symmetry; apply app_nil_r).
      * rewrite !sends_app, !saw_stop_app, !last_verdict_app,
          !disconnects_app, SS, WS, DS, DP, VS, VP, H2.
        cbn. rewrite ?app_nil_r.
        repeat split; try discriminate; try congruence; try lia.
        exists rest. exact XP.
    + unfold ReplayAll.cleanup, bind, get. cbn [emit robot]. rewrite RP, Rb.
      unfold disconnect, print, log, modify, bind.
      cbn [fst snd emit trace robot should_stop set_robot stdin is_paused].
      rewrite TP, TS.
      destruct (RaP c eq_refl) as [-> Hc].
      assert (Wf : saw_stop P = false).
      { destruct (saw_stop P); [|reflexivity].
        destruct (WP eq_refl) as [a Ca]. discriminate Ca. }
      rewrite !sends_app, !saw_stop_app, !last_verdict_app,
        !disconnects_app, SS, WS, DS, DP, VS, VP, Wf.
      cbn. rewrite ?app_nil_r.
      repeat split; try discriminate; try congruence; try lia.
      * exists rest. exact XP.
      * intros c' H. inversion H; subst. right. exists meta. split; assumption.
    + destruct (HP eq_refl) as [-> Hf].
      assert (Wf : saw_stop P = false).
      { destruct (saw_stop P); [|reflexivity].
        destruct (WP eq_refl) as [a Ca]. discriminate Ca. }
      rewrite TP, TS, app_nil_r, !sends_app, !saw_stop_app, !disconnects_app,
        SS, WS, DS, DP, Wf, RP.
      cbn.
      repeat split; try discriminate; try congruence; try lia;
        try apply Hf; try (exists rest; exact XP);
        try match goal with C : Hang <> Hang |- _ => destruct (C eq_refl) end.
  - destruct (RaS c eq_refl) as [Hc Hreq]. rewrite Hreq.
    unfold ReplayAll.cleanup, bind, get. cbn [emit robot].
    destruct (robot w1) as [[|]|] eqn:Rb;
      unfold disconnect, print, log, modify, bind, ret;
      cbn [fst snd emit trace robot should_stop set_robot stdin is_paused];
      rewrite TS;
      rewrite ?sends_app, ?saw_stop_app, ?last_verdict_app,
        ?disconnects_app, SS, WS, DS, ?VS;
      cbn;
      repeat split; try discriminate; try congruence; try lia;
      try (exists []; reflexivity);
      try (intros c' H; inversion H; subst; left; exact Hc).
  - destruct (HS eq_refl).
Qed.

End ReplayAllRun.

(** ** What every run of replay_all_episodes.py does *)

(** Whatever the operator types and whatever fails, the frames sent by a
    run are an initial part of the frames asked for: each frame at most
    once, the frames of an episode in order, the episodes in order, and
    nothing that was not asked for. *)
Theorem frames_are_sent_once_and_in_order (env : Env) (cfg : ReplayAllConfig)
    (schedule : list (list input_item)) :
  exists rest,
    requested env cfg =
      sends (trace (snd (ReplayAll.replay_all_episodes env cfg schedule)))
        ++ rest.
Proof. apply (replay_all_facts env cfg schedule). Qed.

(** A run reports completion only when every frame asked for has been
    sent, every send has succeeded, no stop was ever requested, and the
    robot has been disconnected. *)
Theorem completion_means_every_frame_was_sent (env : Env)
    (cfg : ReplayAllConfig) (schedule : list (list input_item)) :
  let r := ReplayAll.replay_all_episodes env cfg schedule in
  outcome_of r = Completed ->
  sends (trace (snd r)) = requested env cfg /\
  forallb delivered (trace (snd r)) = true /\
  saw_stop (trace (snd r)) = false /\
  should_stop (snd r) = false /\
  disconnects (trace (snd r)) = 1%nat.
Proof. apply (replay_all_facts env cfg schedule). Qed.

Lemma completion_means_every_frame_was_sent_witness :
  sends (trace (snd (ReplayAll.replay_all_episodes Scenario.env_A
                       Scenario.cfg_A [[Line "p"]; [Line "p"]])))
    = requested Scenario.env_A Scenario.cfg_A.
Proof.
  pose proof (completion_means_every_frame_was_sent Scenario.env_A
                Scenario.cfg_A [[Line "p"]; [Line "p"]]) as H.
  destruct H as [H _]; [vm_compute; reflexivity|exact H].
Defined.

(** A run reports that it was stopped by the user exactly when one of the
    main thread's reads of [should_stop] returned [True]. *)
Theorem stop_is_reported_iff_it_was_observed (env : Env)
    (cfg : ReplayAllConfig) (schedule : list (list input_item)) :
  let r := ReplayAll.replay_all_episodes env cfg schedule in
  outcome_of r = StoppedByUser <-> saw_stop (trace (snd r)) = true.
Proof. apply (replay_all_facts env cfg schedule). Qed.





(** A run that returns has reported a verdict and has not left the robot
    connected; it never disconnects twice. *)
Theorem returned_run_leaves_the_robot_disconnected (env : Env)
    (cfg : ReplayAllConfig) (schedule : list (list input_item)) :
  let r := ReplayAll.replay_all_episodes env cfg schedule in
  fst r <> Hang ->
  fst r = Ok tt /\ robot (snd r) <> Some true /\ outcome_of r <> Silent /\
  (disconnects (trace (snd r)) <= 1)%nat.
Proof. apply (replay_all_facts env cfg schedule). Qed.

Lemma returned_run_leaves_the_robot_disconnected_witness :
  robot (snd (ReplayAll.replay_all_episodes Scenario.env_C Scenario.cfg_A
                Scenario.quit_early)) <> Some true.
Proof.
  pose proof (returned_run_leaves_the_robot_disconnected Scenario.env_C
                Scenario.cfg_A Scenario.quit_early) as H.
  destruct H as (_ & H & _); [vm_compute; discriminate|exact H].
Defined.



(** ** The demo, for every operator *)

Lemma get_episode_in_range (n frames : nat) (e : Z) (w : World) :
  (0 <= e < Z.of_nat n)%Z ->
  Demo.get_episode (Demo.new_MockDataset n frames) e w =
    (Ok (map (Demo.MockAction (Z.to_nat e)) (seq 0 frames)), w).
Proof.
  intros He. unfold Demo.get_episode, Demo.new_MockDataset, Py.getitem.
  cbn [Demo.episodes].
  destruct (Z.ltb_spec e 0) as [C|_]; [lia|].
  rewrite nth_error_map, nth_error_seq.
  destruct (Nat.ltb_spec (Z.to_nat e) n); [reflexivity|lia].
Qed.

Section DemoPlays.

Variable n frames : nat.
Variable clock : Z -> nat -> Q.

Lemma plays_demo_frame_loop (episode_idx : Z) (rows : list action) :
  forall frame_idx w,
    plays (fun _ => False)
      (map (Frame episode_idx) (seq frame_idx (List.length rows)))
      (fun ok : bool => ok)
      (Demo.frame_loop (Demo.new_MockDataset n frames) clock episode_idx rows
         frame_idx) w.
Proof.
  induction rows as [|a rows IH]; intros frame_idx w;
    cbn [Demo.frame_loop List.length seq map].
  - apply plays_after; [apply silent_print; reflexivity|].
    intros u1 w1 _ _. apply plays_ret. reflexivity.
  - apply plays_after; [apply silent_read_should_stop|].
    intros s w1 E1 _. apply read_should_stop_inv in E1.
    destruct E1 as (Es1 & _). destruct s.
    { apply plays_stopped; [congruence|].
      apply silent_bind; [apply silent_print; reflexivity|].
      intros u2 w2 _ _. apply silent_ret. }
    apply plays_after; [apply silent_poll_budget|].
    intros budget w2 E2 _. apply get_inv in E2. destruct E2 as [-> ->].
    apply plays_after; [apply silent_pause_loop; lia|].
    intros u3 w3 _ _.
    apply plays_after; [apply silent_read_should_stop|].
    intros s w4 E4 _. apply read_should_stop_inv in E4.
    destruct E4 as (Es4 & _). destruct s.
    { apply plays_stopped; [congruence|apply silent_ret]. }
    change (Frame episode_idx frame_idx
              :: map (Frame episode_idx) (seq (S frame_idx) (List.length rows)))
      with ([Frame episode_idx frame_idx]
              ++ map (Frame episode_idx) (seq (S frame_idx) (List.length rows))).
    apply (plays_bind _ _ _ (fun _ : unit => true)).
    { apply plays_send_action; [|congruence].
      intros h a0 c H. discriminate H. }
    intros u5 w5 _ _ _.
    apply plays_after;
      [apply silent_optional; apply silent_print; reflexivity|].
    intros u6 w6 _ _.
    apply plays_after; [apply silent_ret|].
    intros u7 w7 _ _.
    apply plays_after.
    { apply silent_sleep. intros C.
      rewrite sleep_time_nonneg in C. discriminate C. }
    intros u8 w8 _ _. apply IH.
Qed.

Lemma plays_demo_replay_single_episode (episode_idx : Z) (w : World) :
  (0 <= episode_idx < Z.of_nat n)%Z ->
  plays (fun _ => False) (map (Frame episode_idx) (seq 0 frames))
    (fun ok : bool => ok)
    (Demo.replay_single_episode (Demo.new_MockDataset n frames) clock
       episode_idx) w.
Proof.
  intros He. unfold Demo.replay_single_episode.
  apply plays_after; [apply silent_print; reflexivity|].
  intros u1 w1 _ _.
  apply plays_after.
  { exists []. rewrite (get_episode_in_range n frames episode_idx w1 He).
    apply Plays_unremarkable; auto. symmetry. apply app_nil_r. }
  intros acts w2 E2 _. rewrite (get_episode_in_range n frames _ _ He) in E2.
  inversion E2; subst acts w2; clear E2.
  apply plays_after; [apply silent_print; reflexivity|].
  intros u3 w3 _ _.
  pose proof (plays_demo_frame_loop episode_idx
                (map (Demo.MockAction (Z.to_nat episode_idx)) (seq 0 frames))
                0 w3) as H.
  rewrite length_map, length_seq in H. exact H.
Qed.

Lemma plays_demo_episode_loop (episodes : list Z) :
  (forall e, In e episodes -> (0 <= e < Z.of_nat n)%Z) ->
  forall w,
    plays (fun _ => False)
      (flat_map (fun e => map (Frame e) (seq 0 frames)) episodes)
      (fun _ : unit => true)
      (Demo.episode_loop (Demo.new_MockDataset n frames) clock episodes) w.
Proof.
  induction episodes as [|e episodes IH]; intros Hin w;
    cbn [Demo.episode_loop flat_map]; [apply silent_ret|].
  apply plays_after; [apply silent_read_should_stop|].
  intros s w1 E1 _. apply read_should_stop_inv in E1.
  destruct E1 as (Es1 & _). destruct s.
  { apply plays_stopped; [congruence|apply silent_ret]. }
  apply plays_after; [apply silent_print; reflexivity|].
  intros u2 w2 _ _.
  apply (plays_bind _ _ _ (fun ok : bool => ok)).
  { apply plays_demo_replay_single_episode. apply Hin. left. reflexivity. }
  intros ok w3 E3 _ Hg. destruct ok; cbn [negb].
  - apply plays_after.
    { destruct (e <? _)%Z; [|apply silent_ret].
      apply silent_bind; [apply silent_read_should_stop|]. intros s w4 _ _.
      destruct s; cbn [negb]; [apply silent_ret|].
      apply silent_bind; [apply silent_print; reflexivity|]. intros u5 w5 _ _.
      apply silent_sleep. discriminate. }
    intros u4 w4 _ _. apply IH. intros e' H. apply Hin. right. exact H.
  - destruct (should_stop w3) eqn:Es3; [|discriminate (Hg eq_refl)].
    apply plays_stopped; [exact Es3|apply silent_ret].
Qed.

Lemma demo_run_body_unfold (w : World) :
  robot w = Some false ->
  Demo.run_body (Demo.new_MockDataset n frames) clock w =
    bind (Demo.episode_loop (Demo.new_MockDataset n frames) clock
            (Py.range 0 (Z.of_nat n)))
      (fun _ =>
         s <- read_should_stop None Final ;;
         if negb s then print MsgAllCompleted else print MsgStoppedByUser)
      (add_events [EPrint MsgStarting]
         (set_input_thread Listening
            (set_robot (Some true) (add_events [EConnect] w)))).
Proof. intros _. reflexivity. Qed.

Lemma demo_facts (schedule : list (list input_item)) :
  let r := Demo.demo (Demo.new_MockDataset n frames) clock schedule in
  let tr := trace (snd r) in
  (exists rest, demo_requested n frames = sends tr ++ rest) /\
  (outcome_of r = Completed \/ outcome_of r = StoppedByUser \/
   outcome_of r = Hung) /\
  (outcome_of r = Completed ->
     sends tr = demo_requested n frames /\ saw_stop tr = false) /\
  (outcome_of r = StoppedByUser <-> saw_stop tr = true) /\
  (fst r <> Hang ->
     fst r = Ok tt /\ disconnects tr = 1%nat /\ robot (snd r) = Some false) /\
  (fst r = Hang -> frozen (snd r)).
Proof.
  unfold Demo.demo, Demo.run, try_finally, try_except, outcome_of.
  rewrite (demo_run_body_unfold
             (set_robot (Some false) (init_world 0 schedule)) eq_refl).
  assert (Hloop : forall w,
            plays (fun _ => False) (demo_requested n frames)
              (fun _ : unit => true)
              (Demo.episode_loop (Demo.new_MockDataset n frames) clock
                 (Py.range 0 (Z.of_nat n))) w).
  { intros w. apply plays_demo_episode_loop. intros e He.
    apply in_range in He. lia. }
  destruct (verdict_anatomy _ _ _ _
              (Hloop (add_events [EPrint MsgStarting]
                        (set_input_thread Listening
                           (set_robot (Some true)
                              (add_events [EConnect]
                                 (set_robot (Some false)
                                    (init_world 0 schedule))))))))
    as (P & v & TP & (DP & VP) & RP & [rest XP] & HP & RaP & OkP & WP).
  match goal with
  | |- context [bind (Demo.episode_loop ?a ?b ?c) ?f ?w] =>
      remember (bind (Demo.episode_loop a b c) f w) as res eqn:EP in *
  end;
    destruct res as [[[]|c|] w2];
    cbn [fst snd trace robot set_input_thread set_robot add_events init_world]
      in *.
  - unfold Demo.cleanup, is_connected, bind, get. rewrite RP.
    unfold disconnect, print, log, modify, bind, ret.
    cbn [fst snd emit trace robot should_stop set_robot stdin is_paused].
    rewrite TP.
    destruct (OkP tt eq_refl) as [(-> & H1 & H2 & H3 & H4)|(-> & H1 & H2)].
    + rewrite !sends_app, !saw_stop_app, !last_verdict_app,
        !disconnects_app, DP, VP, H2, H3.
      cbn. rewrite ?app_nil_r.
      repeat split; try discriminate; try congruence; try lia; auto;
        try (exists []; symmetry; apply app_nil_r).
    + rewrite !sends_app, !saw_stop_app, !last_verdict_app,
        !disconnects_app, DP, VP, H2.
      cbn. rewrite ?app_nil_r.
      repeat split; try discriminate; try congruence; try lia; auto.
      exists rest. exact XP.
  - destruct (RaP c eq_refl) as [_ []].
  - destruct (HP eq_refl) as [-> Hf].
    assert (Wf : saw_stop P = false).
    { destruct (saw_stop P); [|reflexivity].
      destruct (WP eq_refl) as [a Ca]. discriminate Ca. }
    rewrite TP, app_nil_r, !sends_app, !saw_stop_app, Wf.
    cbn.
    repeat split; try discriminate; try congruence; try lia; auto;
      try apply Hf; try (exists rest; exact XP);
      try match goal with C : Hang <> Hang |- _ => destruct (C eq_refl) end.
Qed.

End DemoPlays.

(** The demo never reports a failure, whatever the operator types: it
    completes, is stopped by the user, or is left paused; what it sends is
    an initial part of the frames of the mock dataset, in order; and it
    reports that it was stopped exactly when a read of [should_stop]
    returned [True]. *)
Theorem demo_never_fails (n frames : nat) (clock : Z -> nat -> Q)
    (schedule : list (list input_item)) :
  let r := Demo.demo (Demo.new_MockDataset n frames) clock schedule in
  (exists rest, demo_requested n frames = sends (trace (snd r)) ++ rest) /\
  (outcome_of r = Completed \/ outcome_of r = StoppedByUser \/
   outcome_of r = Hung) /\
  (outcome_of r = StoppedByUser <-> saw_stop (trace (snd r)) = true).
Proof.
  destruct (demo_facts n frames clock schedule) as (H1 & H2 & _ & H4 & _).
  repeat split; try assumption; apply H4.
Qed.

(** A demo that returns has disconnected the mock robot exactly once; when
    it reports completion it has sent every frame of every episode, that is
    [n * frames] actions. *)
Theorem returned_demo_has_disconnected (n frames : nat)
    (clock : Z -> nat -> Q) (schedule : list (list input_item)) :
  let r := Demo.demo (Demo.new_MockDataset n frames) clock schedule in
  fst r <> Hang ->
  fst r = Ok tt /\
  disconnects (trace (snd r)) = 1%nat /\
  robot (snd r) = Some false /\
  (outcome_of r = Completed ->
     sends (trace (snd r)) = demo_requested n frames /\
     List.length (sends (trace (snd r))) = (n * frames)%nat).
Proof.
  intros r Hn.
  destruct (demo_facts n frames clock schedule) as (_ & _ & H3 & _ & H5 & _).
  fold r in H3, H5. destruct (H5 Hn) as (A & B & C).
  repeat split; try assumption.
  - apply H3. assumption.
  - destruct (H3 H) as [-> _]. unfold demo_requested.
    assert (G : forall l : list Z,
              List.length (flat_map (fun e => map (Frame e) (seq 0 frames)) l)
              = (List.length l * frames)%nat).
    { induction l as [|e l IH]; [reflexivity|].
      cbn [flat_map]. rewrite length_app, IH, length_map, length_seq.
      reflexivity. }
    rewrite G. unfold Py.range. rewrite length_map, length_seq.
    f_equal. lia.
Qed.

Lemma returned_demo_has_disconnected_witness :
  disconnects
    (trace (snd (Demo.demo (Demo.new_MockDataset 2 3) (fun _ _ => (1 # 100)%Q)
                   [[]; [Line "p"]; [Line "next"]]))) = 1%nat.
Proof.
  pose proof (returned_demo_has_disconnected 2 3 (fun _ _ => (1 # 100)%Q)
                [[]; [Line "p"]; [Line "next"]]) as H.
  destruct H as (_ & H & _); [vm_compute; discriminate|exact H].
Defined.

(** ** Edges of replay_with_real_robot.py *)


(** When the dataset cannot be opened, or the robot cannot be made or
    connected, the run returns without a verdict: no episode is opened and
    no frame is sent. *)
Theorem real_run_without_dataset_or_robot_is_silent (env : Env)
    (start_ep : Z) (end_arg : option Z) (auto : bool) (delay : Q)
    (schedule : list (list input_item)) :
  (exists e, open_dataset env = inl e) \/
  (exists e, make_robot_raises env = Some e) \/
  (exists e, connect_raises env = Some e) \/
  connected_after_connect env = false ->
  let r := RealRobot.replay env start_ep end_arg auto delay schedule in
  fst r = Ok tt /\
  outcome_of r = Silent /\
  no_frames (trace (snd r)) = true /\
  (forall e, ~ In (ELoadDataset (Some e)) (trace (snd r))) /\
  stdin (snd r) = schedule /\
  ((exists e, open_dataset env = inl e) -> robot (snd r) = None).
Proof.
  intros H r. subst r.
  unfold RealRobot.replay, RealRobot.run, try_finally, try_except,
    RealRobot.run_body, RealRobot.load_dataset, RealRobot.connect_robot,
    RealRobot.cleanup, RealRobot.reset_robot, try_except,
    make_robot_from_config, connect, is_connected, disconnect, send_action,
    LeRobotDataset, outcome_of, bind, sleep, print, log, modify, get, raise,
    ret.
  destruct (open_dataset env) as [ed|meta]; cbn.
  - repeat split; try reflexivity.
    intros e C. cbn in C.
    repeat (destruct C as [C|C]; [discriminate C|]). exact C.
  - destruct H as [[e H]|H]; [discriminate H|].
    destruct (make_robot_raises env) as [em|]; cbn.
    + repeat split; try reflexivity.
      intros e C. cbn in C.
      repeat (destruct C as [C|C]; [discriminate C|]). exact C.
    + destruct (connect_raises env) as [ec|],
        (connected_after_connect env) eqn:Ec; cbn;
        try (destruct H as [[e H]|[[e H]|H]]; discriminate H);
        try destruct (send_result env _ RealRobot.home_action); cbn;
        repeat split; try reflexivity;
        try match goal with
            | C : exists _, inr _ = inl _ |- _ =>
                destruct C as [? C]; discriminate C
            end;
        try match goal with
            | C : In _ _ |- _ =>
                cbn in C;
                repeat (destruct C as [C|C]; [discriminate C|]); exact C
            end;
        try (intros [? C]; discriminate C);
        intros ? C;
        repeat (destruct C as [C|C]; [discriminate C|]); exact C.
Qed.

Lemma real_run_without_dataset_or_robot_is_silent_witness :
  outcome_of (RealRobot.replay Scenario.env_no_dataset 0 (Some 2%Z) true 3 [])
    = Silent.
Proof.
  apply (real_run_without_dataset_or_robot_is_silent Scenario.env_no_dataset
           0 (Some 2%Z) true 3 []).
  left. eexists. reflexivity.
Defined.

Lemma range_cons (lo hi : Z) :
  (lo < hi)%Z -> Py.range lo hi = lo :: Py.range (lo + 1) hi.
Proof.
  intros H. unfold Py.range.
  replace (Z.to_nat (hi - lo)) with (S (Z.to_nat (hi - (lo + 1)))) by lia.
  cbn [seq map]. f_equal; [lia|].
  rewrite <- seq_shift, map_map. apply map_ext. intros i. lia.
Qed.

Section RealRobotEdges.

Variable env : Env.
Variable meta : DatasetMeta.
Variable d : EpisodeData.
Variable start_ep : Z.
Variable end_arg : option Z.
Variable auto : bool.
Variable delay : Q.

Hypothesis dataset_opens : open_dataset env = inr meta.
Hypothesis robot_is_made : make_robot_raises env = None.
Hypothesis robot_connects : connect_raises env = None.
Hypothesis robot_is_connected : connected_after_connect env = true.
Hypothesis episode_opens : open_episode env start_ep = inr d.

(** The state in which the episode loop of [run] starts. *)
Lemma real_run_body_unfold (schedule : list (list input_item)) :
  RealRobot.run_body env start_ep end_arg auto delay (init_world 0 schedule)
  = RealRobot.play env start_ep end_arg auto delay (num_episodes meta)
      (mkWorld 0 0 0 false false (Some true) (Some meta) NotStarted schedule
         [ELoadDataset None; EPrint MsgDatasetLoaded; EMakeRobot; EConnect;
          EPrint MsgRobotConnected]).
Proof.
  unfold RealRobot.run_body, RealRobot.load_dataset, RealRobot.connect_robot,
    try_except, make_robot_from_config, connect, is_connected, LeRobotDataset,
    dataset_num_episodes.
  unfold bind at 1 2 3 4 5. unfold log, modify, print, log, modify, get, ret.
  rewrite dataset_opens. cbn.
  unfold bind, log, modify, get, ret. cbn.
  rewrite robot_is_made, robot_connects, robot_is_connected. reflexivity.
Qed.

(** The [finally] of [run] with the robot connected. *)
Lemma real_cleanup_connected (w : World) :
  robot w = Some true ->
  exists w1 T,
    RealRobot.cleanup env w = (Ok tt, w1) /\
    trace w1 = trace w ++ T /\
    sends T = [Home] /\
    disconnects T = 1%nat /\
    (forall acc, last_verdict T acc = acc) /\
    robot w1 = Some false.
Proof.
  intros Hr. unfold RealRobot.cleanup, bind, get. rewrite Hr.
  unfold RealRobot.reset_robot, try_except, print, log, modify, bind,
    send_action, sleep, disconnect, log, modify, bind.
  cbn [emit trace fst snd].
  destruct (send_result env _ RealRobot.home_action); cbn;
    do 2 eexists; (split; [reflexivity|]); cbn;
    (split; [rewrite <- ?app_assoc; reflexivity|]); repeat split.
Qed.

(** The first episode up to the answer to the safety prompt, when the
    answer is not a line. *)
Lemma episode_loop_at_the_prompt (end_ep : Z) (rest : list Z) (w : World) :
  quiet w ->
  (forall s, prompt_answer env start_ep <> Line s) ->
  exists new,
    RealRobot.episode_loop env auto delay end_ep (start_ep :: rest) w
      = (match prompt_answer env start_ep with
         | EOF => Raise EOFError
         | _ => Ok tt
         end, add_events new w) /\
    sends new = [] /\ plain new.
Proof.
  intros Hq Hp. cbn [RealRobot.episode_loop].
  step_with (apply read_should_stop_quiet; exact Hq).
  step_with (apply print_eq).
  unfold RealRobot.replay_single_episode.
  unfold bind at 1.
  erewrite bind_ok by apply print_eq.
  erewrite bind_ok by (apply LeRobotDataset_episode_eq; exact episode_opens).
  erewrite bind_ok by apply print_eq.
  unfold RealRobot.safety_prompt.
  unfold bind at 1.
  erewrite bind_ok by apply print_eq.
  erewrite bind_ok by apply log_eq.
  rewrite !add_events_app. cbn [app].
  destruct (prompt_answer env start_ep) as [s| |] eqn:Ea.
  - destruct (Hp s eq_refl).
  - eexists. split; [reflexivity|]. split; [reflexivity|plain_list].
  - erewrite bind_ok by apply print_eq. unfold ret. cbn [negb].
    rewrite !add_events_app. cbn [app].
    eexists. split; [reflexivity|]. split; [reflexivity|plain_list].
Qed.

(** When the operator answers the safety prompt of the first episode with
    Ctrl+C, no frame is sent: the cleanup sends the home position and
    disconnects, and the run reports completion, because only [should_stop]
    is tested after the loop.  At end of input the prompt raises [EOFError],
    which is reported as the error of the run. *)
Theorem cancelling_at_the_safety_prompt :
  (start_ep <= match end_arg with
               | None => num_episodes meta - 1
               | Some e => Py.min e (num_episodes meta - 1)
               end)%Z ->
  (forall s, prompt_answer env start_ep <> Line s) ->
  let r := RealRobot.replay env start_ep end_arg auto delay [] in
  fst r = Ok tt /\
  sends (trace (snd r)) = [Home] /\
  disconnects (trace (snd r)) = 1%nat /\
  robot (snd r) = Some false /\
  outcome_of r = match prompt_answer env start_ep with
                 | EOF => Failed EOFError
                 | _ => Completed
                 end.
Proof.
  intros Hrange Hp r. subst r.
  unfold RealRobot.replay, RealRobot.run, try_finally, try_except, outcome_of.
  rewrite real_run_body_unfold. unfold RealRobot.play. cbv zeta.
  rewrite range_cons by lia.
  erewrite bind_ok by reflexivity.
  erewrite bind_ok by apply print_eq.
  match goal with
  | |- context [bind (RealRobot.episode_loop _ _ _ ?e (_ :: ?l)) _ ?w] =>
      destruct (episode_loop_at_the_prompt e l w) as (new & E & S & (D & V));
        [repeat split|exact Hp|]
  end.
  destruct (prompt_answer env start_ep) as [s| |] eqn:Ea.
  - destruct (Hp s eq_refl).
  - rewrite (bind_raise _ _ _ _ _ E). cbv beta iota.
    rewrite print_eq. cbv beta iota.
    match goal with
    | |- context [RealRobot.cleanup env ?w] =>
        destruct (real_cleanup_connected w eq_refl)
          as (w1 & T & Ec & Tc & Sc & Dc & Vc & Rc)
    end.
    rewrite Ec. cbn [fst snd].
    rewrite Tc, Rc. cbn [trace emit add_events set_input_thread].
    rewrite !sends_app, !disconnects_app, !last_verdict_app, S, D, Sc, Dc,
      Vc, V.
    repeat split.
  - rewrite (bind_ok _ _ _ _ _ E).
    erewrite bind_ok by (apply read_should_stop_quiet; repeat split).
    cbn [negb]. rewrite print_eq. cbv beta iota.
    match goal with
    | |- context [RealRobot.cleanup env ?w] =>
        destruct (real_cleanup_connected w eq_refl)
          as (w1 & T & Ec & Tc & Sc & Dc & Vc & Rc)
    end.
    rewrite Ec. cbn [fst snd].
    rewrite Tc, Rc. cbn [trace emit add_events set_input_thread].
    rewrite !sends_app, !disconnects_app, !last_verdict_app, S, D, Sc, Dc,
      Vc, V.
    repeat split.
Qed.

Lemma has_key_dict_set (name k : string) (v : Q) (acc : action) :
  RealRobot.has_key (Py.dict_set name v acc) k
    = RealRobot.has_key acc k || String.eqb name k.
Proof.
  unfold RealRobot.has_key. induction acc as [|[k' v'] acc IH]; cbn.
  - apply orb_false_r.
  - destruct (String.eqb name k') eqn:En; cbn.
    + apply String.eqb_eq in En. subst k'.
      destruct (String.eqb name k); cbn; [reflexivity|].
      rewrite orb_false_r. reflexivity.
    + rewrite IH. rewrite orb_assoc. reflexivity.
Qed.

Lemma build_action_keys (row : list Q) (k : string) (names : list string) :
  forall (i : nat) (acc a : action),
    build_action names i row acc = Some a ->
    RealRobot.has_key a k
      = RealRobot.has_key acc k || existsb (fun name => String.eqb name k) names.
Proof.
  induction names as [|name names IH]; intros i acc a H; cbn in H.
  - inversion H. cbn. rewrite orb_false_r. reflexivity.
  - destruct (nth_error row i) as [v|]; [|discriminate H].
    rewrite (IH _ _ _ H), has_key_dict_set. cbn [existsb].
    rewrite orb_assoc. reflexivity.
Qed.

Lemma lookup_all_missing (a : action) (k : string) (keys : list string) :
  In k keys -> RealRobot.has_key a k = false ->
  exists k',
    In k' keys /\ RealRobot.has_key a k' = false /\
    forall w, RealRobot.lookup_all a keys w = (Raise (KeyError k'), w).
Proof.
  induction keys as [|k0 keys IH]; intros Hin Hk; [destruct Hin|].
  cbn [RealRobot.lookup_all].
  destruct (RealRobot.has_key a k0) eqn:E0.
  - destruct Hin as [->|Hin]; [congruence|].
    destruct (IH Hin Hk) as (k' & H1 & H2 & H3).
    exists k'. repeat split; [right; exact H1|exact H2|exact H3].
  - exists k0. repeat split; [left; reflexivity|exact E0].
Qed.

(** The first episode up to the progress line of its first frame, when the
    action lacks a joint that the line displays. *)
Lemma episode_loop_at_the_progress_line (end_ep : Z) (rest : list Z)
    (w : World) (s : string) (row : list Q) (rows : list (list Q))
    (a : action) (k : string) :
  quiet w ->
  sends_succeed env ->
  prompt_answer env start_ep = Line s ->
  actions d = row :: rows ->
  build_action (action_names d) 0 row [] = Some a ->
  (forall w', RealRobot.lookup_all a RealRobot.progress_keys w'
              = (Raise (KeyError k), w')) ->
  exists new,
    RealRobot.episode_loop env auto delay end_ep (start_ep :: rest) w
      = (Raise (KeyError k), add_events new w) /\
    sends new = [Frame start_ep 0] /\ plain new.
Proof.
  intros Hq Hsend Hp Hrows Hbuild Hlookup. cbn [RealRobot.episode_loop].
  step_with (apply read_should_stop_quiet; exact Hq).
  step_with (apply print_eq).
  unfold RealRobot.replay_single_episode.
  unfold bind at 1.
  erewrite bind_ok by apply print_eq.
  erewrite bind_ok by (apply LeRobotDataset_episode_eq; exact episode_opens).
  erewrite bind_ok by apply print_eq.
  unfold RealRobot.safety_prompt.
  unfold bind at 1.
  erewrite bind_ok by apply print_eq.
  erewrite bind_ok by apply log_eq.
  rewrite Hp. unfold ret at 1. cbn [negb].
  rewrite Hrows. cbn [RealRobot.frame_loop].
  step_with (apply read_should_stop_quiet; exact Hq).
  step_with reflexivity.
  step_with (apply pause_loop_quiet; exact Hq).
  step_with (apply read_should_stop_quiet; exact Hq).
  step_with (unfold make_action; rewrite Hbuild; reflexivity).
  step_with (unfold try_except;
             erewrite bind_ok by (apply send_action_ok; exact Hsend);
             reflexivity).
  cbn [negb].
  change ((0 mod 10 =? 0)%nat) with true. cbv iota.
  erewrite bind_raise by (erewrite bind_raise by apply Hlookup; reflexivity).
  rewrite !add_events_app. cbn [app].
  eexists. split; [reflexivity|]. split; [reflexivity|plain_list].
Qed.

(** On a dataset whose joint names lack one of the six joints that the
    progress line displays (a single-arm dataset, for one), the first frame
    is sent to the robot, then the progress line raises [KeyError]: the run
    reports the error, sends the home position and disconnects. *)
Theorem missing_displayed_joint_fails_after_the_first_send
    (s : string) (row : list Q) (rows : list (list Q)) (k : string) :
  (start_ep <= match end_arg with
               | None => num_episodes meta - 1
               | Some e => Py.min e (num_episodes meta - 1)
               end)%Z ->
  prompt_answer env start_ep = Line s ->
  sends_succeed env ->
  actions d = row :: rows ->
  (List.length (action_names d) <= List.length row)%nat ->
  In k RealRobot.progress_keys ->
  ~ In k (action_names d) ->
  let r := RealRobot.replay env start_ep end_arg auto delay [] in
  exists k',
    In k' RealRobot.progress_keys /\ ~ In k' (action_names d) /\
    outcome_of r = Failed (KeyError k') /\
    sends (trace (snd r)) = [Frame start_ep 0; Home] /\
    disconnects (trace (snd r)) = 1%nat /\
    fst r = Ok tt.
Proof.
  intros Hrange Hp Hsend Hrows Hlen Hk Hmiss r. subst r.
  destruct (build_action_some (action_names d) row 0 [] Hlen) as [a Ha].
  assert (Hkeys : forall k0, RealRobot.has_key a k0 = false <->
                             ~ In k0 (action_names d)).
  { intros k0. rewrite (build_action_keys row k0 _ _ _ _ Ha). cbn [orb].
    unfold RealRobot.has_key. cbn [existsb]. split.
    - intros Hf Hin. apply not_true_iff_false in Hf. apply Hf.
      apply existsb_exists. exists k0. split; [exact Hin|apply String.eqb_refl].
    - intros Hn. apply not_true_iff_false. intros Ht.
      apply existsb_exists in Ht. destruct Ht as (x & Hx & Ex).
      apply String.eqb_eq in Ex. subst x. exact (Hn Hx). }
  destruct (lookup_all_missing a k RealRobot.progress_keys Hk
              (proj2 (Hkeys k) Hmiss)) as (k' & Hin' & Hk' & Hlookup).
  exists k'. split; [exact Hin'|]. split; [apply Hkeys; exact Hk'|].
  unfold RealRobot.replay, RealRobot.run, try_finally, try_except, outcome_of.
  rewrite real_run_body_unfold. unfold RealRobot.play. cbv zeta.
  rewrite range_cons by lia.
  erewrite bind_ok by reflexivity.
  erewrite bind_ok by apply print_eq.
  match goal with
  | |- context [bind (RealRobot.episode_loop _ _ _ ?e (_ :: ?l)) _ ?w] =>
      destruct (episode_loop_at_the_progress_line e l w s row rows a k')
        as (new & E & S & (D & V)); try assumption; [repeat split|]
  end.
  rewrite (bind_raise _ _ _ _ _ E). cbv beta iota.
  rewrite print_eq. cbv beta iota.
  match goal with
  | |- context [RealRobot.cleanup env ?w] =>
      destruct (real_cleanup_connected w eq_refl)
        as (w1 & T & Ec & Tc & Sc & Dc & Vc & Rc)
  end.
  rewrite Ec. cbn [fst snd].
  rewrite Tc. cbn [trace emit add_events set_input_thread].
  rewrite !sends_app, !disconnects_app, !last_verdict_app, S, D, Sc, Dc,
    Vc, V.
  repeat split.
Qed.

End RealRobotEdges.

Lemma cancelling_at_the_safety_prompt_witness :
  outcome_of (RealRobot.replay Scenario.env_cancelled 0 (Some 2%Z) true 3 [])
    = Completed.
Proof.
  pose proof (cancelling_at_the_safety_prompt Scenario.env_cancelled
                (mkDatasetMeta 3 10) (Scenario.bimanual_episode 5) 0
                (Some 2%Z) true 3 eq_refl eq_refl eq_refl eq_refl eq_refl)
    as H.
  destruct H as (_ & _ & _ & _ & H).
  - vm_compute. discriminate.
  - intros s. discriminate.
  - exact H.
Defined.

Lemma missing_displayed_joint_fails_after_the_first_send_witness :
  exists k',
    In k' RealRobot.progress_keys /\
    ~ In k' (action_names (Scenario.episode 5)) /\
    outcome_of (RealRobot.replay Scenario.env_A 0 (Some 2%Z) true 3 [])
      = Failed (KeyError k') /\
    sends (trace (snd (RealRobot.replay Scenario.env_A 0 (Some 2%Z) true 3 [])))
      = [Frame 0 0; Home] /\
    disconnects
      (trace (snd (RealRobot.replay Scenario.env_A 0 (Some 2%Z) true 3 [])))
      = 1%nat /\
    fst (RealRobot.replay Scenario.env_A 0 (Some 2%Z) true 3 []) = Ok tt.
Proof.
  apply (missing_displayed_joint_fails_after_the_first_send Scenario.env_A
           (mkDatasetMeta 3 10) (Scenario.episode 5) 0 (Some 2%Z) true 3
           eq_refl eq_refl eq_refl eq_refl eq_refl
           "" Scenario.row (repeat Scenario.row 4) "left_shoulder_pan.pos").
  - vm_compute. discriminate.
  - reflexivity.
  - intros h a. reflexivity.
  - reflexivity.
  - cbn. lia.
  - left. reflexivity.
  - cbn. intros C.
    repeat (destruct C as [C|C]; [discriminate C|]). exact C.
Defined.

(** ** replay_moving_tape_dataset.py *)

Lemma missing_key_is_not_named (names : list string) (row : list Q)
    (a : action) (k : string) :
  build_action names 0 row [] = Some a ->
  RealRobot.has_key a k = false -> ~ In k names.
Proof.
  intros Ha Hk Hin. rewrite (build_action_keys row k _ _ _ _ Ha) in Hk.
  cbn [RealRobot.has_key existsb orb] in Hk.
  apply not_true_iff_false in Hk. apply Hk.
  apply existsb_exists. exists k. split; [exact Hin|apply String.eqb_refl].
Qed.

Lemma make_action_built (names : list string) (row : list Q) (w w1 : World)
    (a : action) :
  make_action names row w = (Ok a, w1) ->
  build_action names 0 row [] = Some a /\ w1 = w.
Proof.
  unfold make_action. destruct (build_action names 0 row []); intros H;
    inversion H. split; reflexivity.
Qed.

Section TapePlays.

Variable env : Env.
Variable meta : DatasetMeta.
Variable causes : exn -> Prop.
Variable start_ep : Z.
Variable end_arg : option Z.
Variable auto : bool.
Variable delay : Q.

Hypothesis open_cause :
  forall i c, open_episode env i = inl c -> causes c.
Hypothesis index_cause :
  forall i d row, open_episode env i = inr d -> In row (actions d) ->
    (List.length row < List.length (action_names d))%nat -> causes IndexError.
Hypothesis zero_cause : fps meta = 0%Z -> causes ZeroDivisionError.
Hypothesis key_cause :
  forall k i d, In k RealRobot.progress_keys -> open_episode env i = inr d ->
    ~ In k (action_names d) -> causes (KeyError k).
Hypothesis delay_cause :
  auto = true -> (delay < 0)%Q -> causes (ValueError NegativeSleep).

Lemma silent_lookup_all (a : action) (keys : list string) (w : World) :
  should_stop w = false ->
  (forall k, In k keys -> RealRobot.has_key a k = false ->
     causes (KeyError k)) ->
  silent causes (RealRobot.lookup_all a keys) w.
Proof.
  intros Hs. induction keys as [|k keys IH]; intros Hc;
    cbn [RealRobot.lookup_all]; [apply silent_ret|].
  destruct (RealRobot.has_key a k) eqn:E.
  - apply IH. intros k' Hin. apply Hc. right. exact Hin.
  - apply silent_raise; [exact Hs|]. apply Hc; [left; reflexivity|exact E].
Qed.

Lemma silent_tape_frame_loop (episode_idx : Z) (d : EpisodeData)
    (rows : list (list Q)) :
  open_episode env episode_idx = inr d ->
  (forall row, In row rows -> In row (actions d)) ->
  forall frame_idx w,
    dataset w = Some meta ->
    plays causes [] (fun ok : bool => ok)
      (MovingTape.frame_loop env episode_idx (action_names d) rows frame_idx)
      w.
Proof.
  intros Ho. induction rows as [|row rows IH]; intros Hrows frame_idx w Hd;
    cbn [MovingTape.frame_loop].
  - apply plays_after; [apply silent_print; reflexivity|].
    intros u1 w1 _ _. apply plays_ret. reflexivity.
  - apply plays_after; [apply silent_read_should_stop|].
    intros s w1 E1 D1. apply read_should_stop_inv in E1.
    destruct E1 as (Es1 & _). destruct s.
    { apply plays_stopped; [congruence|].
      apply silent_bind; [apply silent_print; reflexivity|].
      intros u2 w2 _ _. apply silent_ret. }
    apply plays_after; [apply silent_poll_budget|].
    intros budget w2 E2 D2. apply get_inv in E2. destruct E2 as [-> ->].
    apply plays_after; [apply silent_pause_loop; lia|].
    intros u3 w3 _ D3.
    apply plays_after; [apply silent_read_should_stop|].
    intros s w4 E4 D4. apply read_should_stop_inv in E4.
    destruct E4 as (Es4 & _). destruct s.
    { apply plays_stopped; [congruence|apply silent_ret]. }
    assert (Hd4 : dataset w4 = Some meta) by congruence.
    apply plays_after.
    { apply silent_make_action; [congruence|].
      apply (index_cause episode_idx d row Ho). apply Hrows. left. reflexivity. }
    intros a w5 E5 D5. apply make_action_built in E5. destruct E5 as [Ha ->].
    apply plays_after.
    { destruct (frame_idx mod 10 =? 0)%nat; [|apply silent_ret].
      apply silent_bind.
      - apply silent_lookup_all; [congruence|].
        intros k Hin Hk. apply (key_cause k episode_idx d Hin Ho).
        apply (missing_key_is_not_named _ row a k Ha Hk).
      - intros u6 w6 _ _. apply silent_print. reflexivity. }
    intros u7 w7 E7 D7.
    assert (Hs7 : should_stop w7 = false).
    { destruct (frame_idx mod 10 =? 0)%nat.
      - unfold bind in E7.
        destruct (RealRobot.lookup_all a RealRobot.progress_keys w4)
          as [[u|c|] w6] eqn:E6; try discriminate E7.
        assert (w6 = w4).
        { revert E6. clear. generalize RealRobot.progress_keys.
          intros keys. induction keys as [|k keys IH];
            cbn [RealRobot.lookup_all]; intros H.
          - inversion H. reflexivity.
          - destruct (RealRobot.has_key a k); [apply IH; exact H|].
            discriminate H. }
        subst w6. apply log_inv in E7. subst w7. cbn. congruence.
      - inversion E7; subst. congruence. }
    assert (Hd7 : dataset w7 = Some meta) by congruence.
    apply plays_after; [apply (silent_dataset_fps meta); exact Hd7|].
    intros fps_ w8 E8 D8. rewrite (dataset_fps_eq meta _ Hd7) in E8.
    inversion E8; subst fps_ w8; clear E8.
    apply plays_after.
    { destruct (Z.eqb_spec (fps meta) 0);
        [apply silent_raise; auto|apply silent_ret]. }
    intros u9 w9 _ D9.
    apply plays_after.
    { apply silent_sleep. intros C.
      rewrite sleep_time_nonneg in C. discriminate C. }
    intros u10 w10 _ D10.
    apply IH.
    + intros r Hin. apply Hrows. right. exact Hin.
    + congruence.
Qed.

Lemma silent_tape_replay_single_episode (episode_idx : Z) (w : World) :
  should_stop w = false ->
  dataset w = Some meta ->
  plays causes [] (fun ok : bool => ok)
    (MovingTape.replay_single_episode env episode_idx) w.
Proof.
  intros Hs Hd. unfold MovingTape.replay_single_episode.
  apply plays_after; [apply silent_print; reflexivity|].
  intros u1 w1 E1 D1. apply log_inv in E1. subst w1.
  apply plays_after; [apply silent_LeRobotDataset_episode; assumption|].
  intros d w2 E2 D2. apply LeRobotDataset_episode_inv in E2.
  destruct E2 as [Ho ->].
  apply plays_after; [apply silent_print; reflexivity|].
  intros u3 w3 E3 D3.
  apply (silent_tape_frame_loop episode_idx d (actions d) Ho).
  - auto.
  - rewrite D3. exact Hd.
Qed.

Lemma silent_tape_between_episodes (episode_idx end_ep : Z) (w : World) :
  silent causes (MovingTape.between_episodes auto delay episode_idx end_ep) w.
Proof.
  unfold MovingTape.between_episodes.
  destruct (episode_idx <? end_ep)%Z; [|apply silent_ret].
  apply silent_bind; [apply silent_read_should_stop|]. intros s w2 E2 _.
  apply read_should_stop_inv in E2. destruct E2 as (Es2 & _).
  destruct s; cbn [negb]; [apply silent_ret|].
  destruct auto eqn:Ea.
  - apply silent_bind; [apply silent_print; reflexivity|]. intros u3 w3 E3 _.
    apply log_inv in E3. subst w3.
    apply silent_sleep. intros Hneg. split; [cbn; congruence|].
    apply delay_cause; [reflexivity|apply Qle_bool_false, Hneg].
  - apply silent_bind; [apply silent_print; reflexivity|]. intros u3 w3 _ _.
    apply silent_bind; [apply silent_poll_budget|]. intros budget w4 E4 _.
    apply get_inv in E4. destruct E4 as [-> ->].
    apply silent_wait_loop. lia.
Qed.

Lemma silent_tape_episode_loop (end_ep : Z) (episodes : list Z) :
  forall w,
    dataset w = Some meta ->
    silent causes (MovingTape.episode_loop env auto delay end_ep episodes) w.
Proof.
  induction episodes as [|e episodes IH]; intros w Hd;
    cbn [MovingTape.episode_loop]; [apply silent_ret|].
  apply silent_bind; [apply silent_read_should_stop|].
  intros s w1 E1 D1. apply read_should_stop_inv in E1.
  destruct E1 as (Es1 & _). destruct s; [apply silent_ret|].
  apply silent_bind; [apply silent_print; reflexivity|].
  intros u2 w2 E2 D2. apply log_inv in E2. subst w2.
  apply (plays_bind causes [] [] (fun ok : bool => ok)).
  { apply silent_tape_replay_single_episode; cbn; congruence. }
  intros ok w3 E3 D3 Hg. destruct ok; cbn [negb]; [|apply silent_ret].
  apply silent_bind; [apply silent_tape_between_episodes|].
  intros u4 w4 _ D4. apply IH. rewrite D4, D3. cbn. congruence.
Qed.

End TapePlays.

Section TapeRun.

Variable env : Env.
Variable start_ep : Z.
Variable end_arg : option Z.
Variable auto : bool.
Variable delay : Q.

Lemma tape_run_body_unfold (meta : DatasetMeta)
    (schedule : list (list input_item)) :
  open_dataset env = inr meta ->
  MovingTape.run_body env start_ep end_arg auto delay (init_world 0 schedule)
  = bind
      (MovingTape.episode_loop env auto delay
         match end_arg with
         | None => (num_episodes meta - 1)%Z
         | Some e => Py.min e (num_episodes meta - 1)
         end
         (Py.range start_ep
            (match end_arg with
             | None => (num_episodes meta - 1)%Z
             | Some e => Py.min e (num_episodes meta - 1)
             end + 1)))
      (fun _ =>
         s <- read_should_stop None Final ;;
         if negb s then print MsgAllCompleted else print MsgStoppedByUser)
      (add_events [EPrint MsgStarting]
         (set_input_thread Listening
            (mkWorld 0 0 0 false false None (Some meta) NotStarted schedule
               [ELoadDataset None; EPrint MsgDatasetLoaded]))).
Proof.
  intros Ho.
  unfold MovingTape.run_body, MovingTape.load_dataset, try_except,
    LeRobotDataset, dataset_num_episodes.
  unfold bind at 1 2 3 4. unfold log, modify, print, log, modify, get, ret.
  rewrite Ho. reflexivity.
Qed.

Lemma tape_run_body_no_dataset (e : exn) (schedule : list (list input_item)) :
  open_dataset env = inl e ->
  MovingTape.run_body env start_ep end_arg auto delay (init_world 0 schedule)
  = (Ok tt,
     mkWorld 0 0 0 false false None None NotStarted schedule
       [ELoadDataset None; EPrint (MsgDatasetError e)]).
Proof.
  intros Ho.
  unfold MovingTape.run_body, MovingTape.load_dataset, try_except,
    LeRobotDataset.
  unfold bind at 1 2 3 4. unfold log, modify, print, log, modify, get, ret.
  rewrite Ho. reflexivity.
Qed.

Lemma silent_tape_loop (meta : DatasetMeta) (end_ep : Z) (episodes : list Z)
    (w : World) :
  dataset w = Some meta ->
  silent (tape_causes env auto delay meta)
    (MovingTape.episode_loop env auto delay end_ep episodes) w.
Proof.
  intros Hd.
  apply (silent_tape_episode_loop env meta (tape_causes env auto delay meta)).
  - intros i c H. right. right. left. exists i. exact H.
  - intros i d row H1 H2 H3. left. split; [reflexivity|].
    exists i, d, row. repeat split; assumption.
  - intros H. right. left. split; [reflexivity|exact H].
  - intros k i d H1 H2 H3. right. right. right. left. exists k, i, d.
    repeat split; assumption.
  - intros Ha Hn. right. right. right. right. repeat split; assumption.
  - exact Hd.
Qed.

Lemma tape_facts (schedule : list (list input_item)) :
  let r := MovingTape.replay env start_ep end_arg auto delay schedule in
  let tr := trace (snd r) in
  sends tr = [] /\
  disconnects tr = 0%nat /\
  robot (snd r) = None /\
  (fst r = Hang -> frozen (snd r)) /\
  (fst r <> Hang -> fst r = Ok tt) /\
  (outcome_of r = StoppedByUser <-> saw_stop tr = true) /\
  (outcome_of r = Completed -> should_stop (snd r) = false) /\
  (outcome_of r = Silent <-> exists e, open_dataset env = inl e) /\
  (forall c, outcome_of r = Failed c ->
     exists meta, open_dataset env = inr meta /\
                  tape_causes env auto delay meta c).
Proof.
  unfold MovingTape.replay, MovingTape.run, try_except, outcome_of.
  destruct (open_dataset env) as [e|meta] eqn:Ho.
  - rewrite (tape_run_body_no_dataset e schedule Ho). cbn.
    repeat split; try discriminate; try congruence; eauto.
  - rewrite (tape_run_body_unfold meta schedule Ho).
    match goal with
    | |- context [bind (MovingTape.episode_loop _ _ _ ?e ?l) _ ?w] =>
        destruct (verdict_anatomy _ _ _ _
                    (silent_tape_loop meta e l w eq_refl))
          as (P & v & TP & (DP & VP) & RP & [rest XP] & HP & RaP & OkP & WP);
        remember (bind (MovingTape.episode_loop env auto delay e l)
                    (fun _ =>
                       s <- read_should_stop None Final ;;
                       if negb s then print MsgAllCompleted
                       else print MsgStoppedByUser) w) as res eqn:EP in *
    end.
    apply sends_nil_prefix in XP.
    destruct res as [[[]|c|] w2];
      cbn [fst snd trace robot set_input_thread add_events] in *.
    + rewrite TP.
      destruct (OkP tt eq_refl) as [(-> & H1 & H2 & H3 & H4)|(-> & H1 & H2)];
        rewrite !sends_app, !saw_stop_app, !last_verdict_app,
          !disconnects_app, DP, VP, XP, H2;
        cbn;
        repeat split; try discriminate; try congruence; auto;
        intros [e' C]; discriminate C.
    + destruct (RaP c eq_refl) as [-> Hc].
      assert (Wf : saw_stop P = false).
      { destruct (saw_stop P); [|reflexivity].
        destruct (WP eq_refl) as [a Ca]. discriminate Ca. }
      unfold print, log, modify.
      cbn [fst snd trace robot emit].
      rewrite TP.
      rewrite !sends_app, !saw_stop_app, !last_verdict_app,
        !disconnects_app, DP, VP, XP, Wf.
      cbn.
      repeat split; try discriminate; try congruence; auto.
      * intros [e' C]. discriminate C.
      * intros c' H. inversion H; subst. exists meta. split; [reflexivity|exact Hc].
    + destruct (HP eq_refl) as [-> Hf].
      assert (Wf : saw_stop P = false).
      { destruct (saw_stop P); [|reflexivity].
        destruct (WP eq_refl) as [a Ca]. discriminate Ca. }
      rewrite TP, app_nil_r, !sends_app, !saw_stop_app, !disconnects_app,
        DP, XP, Wf.
      cbn.
      repeat split; try discriminate; try congruence; auto;
        try match goal with C : Hang <> Hang |- _ => destruct (C eq_refl) end;
        try (intros [e' C]; discriminate C); apply Hf.
Qed.

End TapeRun.

(** replay_moving_tape_dataset.py never touches a robot: whatever the
    dataset and the operator's input, a run sends nothing, makes no robot
    and disconnects nothing.  It fails to return only when it is left
    paused; it reports a stop exactly when a read of [should_stop] returned
    [True]; and it returns without any verdict exactly when the dataset
    cannot be opened. *)
Theorem tape_replay_has_no_robot (env : Env) (start_ep : Z)
    (end_arg : option Z) (auto : bool) (delay : Q)
    (schedule : list (list input_item)) :
  let r := MovingTape.replay env start_ep end_arg auto delay schedule in
  sends (trace (snd r)) = [] /\
  disconnects (trace (snd r)) = 0%nat /\
  robot (snd r) = None /\
  (fst r = Hang -> frozen (snd r)) /\
  (outcome_of r = StoppedByUser <-> saw_stop (trace (snd r)) = true) /\
  (outcome_of r = Silent <-> exists e, open_dataset env = inl e).
Proof.
  destruct (tape_facts env start_ep end_arg auto delay schedule)
    as (H1 & H2 & H3 & H4 & _ & H6 & _ & H8 & _).
  split; [exact H1|]. split; [exact H2|]. split; [exact H3|].
  split; [exact H4|]. split; [exact H6|exact H8].
Qed.



(** ** What is sent for a frame, and what follows *)

Section Orderly.

Variable rule : Z -> nat -> action -> option exn -> list event -> Prop.

Hypothesis rule_ext :
  forall e f a res l l', rule e f a res l -> rule e f a res (l ++ l').

Lemma follows_silent (l : list event) : sends l = [] -> follows rule l.
Proof.
  intros H l1 e f a res l2 E. exfalso.
  apply (proj1 (sends_nil_iff l) H (Frame e f) a res).
  rewrite E. apply in_elt.
Qed.

Lemma follows_app (l l' : list event) :
  follows rule l -> follows rule l' -> follows rule (l ++ l').
Proof.
  intros H H' l1 e f a res l2 E.
  apply app_eq_app in E. destruct E as [k [[Ha Hb]|[Ha Hb]]].
  - destruct k as [|y k]; cbn in Hb.
    + apply (H' [] e f a res l2). symmetry. exact Hb.
    + inversion Hb; subst. apply rule_ext. apply (H l1 e f a res k).
      reflexivity.
  - apply (H' k e f a res l2). exact Hb.
Qed.

Lemma follows_send (e : Z) (f : nat) (a : action) (res : option exn)
    (l : list event) :
  rule e f a res l -> follows rule l ->
  follows rule (ESendAction (Frame e f) a res :: l).
Proof.
  intros Hr Hl l1 e' f' a' res' l2 E. destruct l1 as [|y l1]; cbn in E.
  - inversion E; subst. exact Hr.
  - inversion E; subst. apply (Hl l1 e' f' a' res' l2). reflexivity.
Qed.

Lemma orderly_still {A : Type} (m : M A) (w : World) :
  snd (m w) = w -> orderly rule m w.
Proof.
  intros H. exists []. rewrite H, app_nil_r. split; [reflexivity|].
  apply follows_silent. reflexivity.
Qed.

Lemma orderly_ret {A : Type} (a : A) (w : World) : orderly rule (ret a) w.
Proof. apply orderly_still. reflexivity. Qed.

Lemma orderly_log (e : event) (w : World) :
  is_send e = false -> orderly rule (log e) w.
Proof.
  intros H. exists [e]. split; [reflexivity|]. apply follows_silent.
  destruct e; try reflexivity. discriminate H.
Qed.

Lemma orderly_of_silent {A : Type} (m : M A) (w : World) :
  silent (fun _ => True) m w -> orderly rule m w.
Proof.
  intros [new H]. destruct H as [T _ _ _ _ _ _ [rest X] _ _ _ _].
  exists new. split; [exact T|]. apply follows_silent.
  apply (sends_nil_prefix _ _ X).
Qed.

Lemma orderly_bind {A B : Type} (m : M A) (f : A -> M B) (w : World) :
  orderly rule m w ->
  (forall a w1, m w = (Ok a, w1) -> orderly rule (f a) w1) ->
  orderly rule (bind m f) w.
Proof.
  intros (n1 & T1 & F1) Hf. unfold orderly, bind.
  destruct (m w) as [[a|c|] w1] eqn:E; cbn [fst snd] in *;
    try (exists n1; split; assumption).
  destruct (Hf a w1 eq_refl) as (n2 & T2 & F2).
  exists (n1 ++ n2). split.
  - rewrite T2, T1, app_assoc. reflexivity.
  - apply follows_app; assumption.
Qed.

Lemma orderly_optional (b : bool) (m : M unit) (w : World) :
  orderly rule m w -> orderly rule (if b then m else ret tt) w.
Proof. intros H. destruct b; [exact H|apply orderly_ret]. Qed.

Lemma orderly_read_should_stop (cp : checkpoint) (w : World) :
  orderly rule (read_should_stop None cp) w.
Proof. apply orderly_of_silent, silent_read_should_stop. Qed.

Lemma orderly_pause_loop (budget : nat) (w : World) :
  (List.length (stdin w) <= budget)%nat ->
  orderly rule (pause_loop None budget) w.
Proof. intros H. apply orderly_of_silent, silent_pause_loop, H. Qed.

Lemma orderly_wait_loop (budget : nat) (w : World) :
  (List.length (stdin w) <= budget)%nat ->
  orderly rule (wait_loop None budget) w.
Proof. intros H. apply orderly_of_silent, silent_wait_loop, H. Qed.

End Orderly.

Lemma silent_keeps_dataset {A : Type} (m : M A) (w w1 : World) (a : A) :
  silent (fun _ => True) m w -> m w = (Ok a, w1) -> dataset w1 = dataset w.
Proof.
  intros [new H] E. rewrite E in H.
  destruct H as [_ _ _ D _ _ _ _ _ _ _ _]. exact D.
Qed.

Lemma replay_frame_rule_ext (env : Env) (meta : DatasetMeta) (e : Z) (f : nat)
    (a : action) (res : option exn) (l l' : list event) :
  replay_frame_rule env meta e f a res l ->
  replay_frame_rule env meta e f a res (l ++ l').
Proof.
  intros [H1 H2]. split; [exact H1|].
  intros Hr Hf. destruct (H2 Hr Hf) as [l3 ->]. exists (l3 ++ l').
  reflexivity.
Qed.

Section ReplayAllOrderly.

Variable env : Env.
Variable cfg : ReplayAllConfig.
Variable meta : DatasetMeta.

Let rule := replay_frame_rule env meta.

Lemma replay_orderly_bind {A B : Type} (m : M A) (f : A -> M B) (w : World) :
  orderly rule m w ->
  (forall a w1, m w = (Ok a, w1) -> orderly rule (f a) w1) ->
  orderly rule (bind m f) w.
Proof. apply orderly_bind. apply replay_frame_rule_ext. Qed.

Lemma orderly_replay_frame_loop (episode_idx : Z) (d : EpisodeData)
    (rows : list (list Q)) :
  open_episode env episode_idx = inr d ->
  forall frame_idx w,
    dataset w = Some meta ->
    (forall j, nth_error rows j = nth_error (actions d) (frame_idx + j)) ->
    orderly rule
      (ReplayAll.frame_loop env episode_idx (action_names d) rows frame_idx) w.
Proof.
  intros Ho. induction rows as [|row rows IH]; intros frame_idx w Hd Hrows;
    cbn [ReplayAll.frame_loop].
  - apply replay_orderly_bind; [apply orderly_log; reflexivity|].
    intros u1 w1 _. apply orderly_ret.
  - apply replay_orderly_bind; [apply orderly_read_should_stop|].
    intros s w1 E1.
    assert (Hd1 : dataset w1 = Some meta).
    { rewrite (silent_keeps_dataset _ _ _ _
                 (silent_read_should_stop _ FrameTop w) E1). exact Hd. }
    destruct s.
    { apply replay_orderly_bind; [apply orderly_log; reflexivity|].
      intros u2 w2 _. apply orderly_ret. }
    apply replay_orderly_bind; [apply orderly_still; reflexivity|].
    intros budget w2 E2. apply get_inv in E2. destruct E2 as [-> ->].
    apply replay_orderly_bind; [apply orderly_pause_loop; lia|].
    intros u3 w3 E3.
    assert (Hd3 : dataset w3 = Some meta).
    { rewrite (silent_keeps_dataset _ _ _ _
                 (silent_pause_loop _ _ w1 (Nat.le_refl _)) E3). exact Hd1. }
    apply replay_orderly_bind; [apply orderly_read_should_stop|].
    intros s w4 E4.
    assert (Hd4 : dataset w4 = Some meta).
    { rewrite (silent_keeps_dataset _ _ _ _
                 (silent_read_should_stop _ AfterPause w3) E4). exact Hd3. }
    destruct s; [apply orderly_ret|].
    apply replay_orderly_bind.
    { apply orderly_still. unfold make_action.
      destruct (build_action _ _ _ _); reflexivity. }
    intros a w5 E5. apply make_action_built in E5. destruct E5 as [Ha ->].
    assert (Hrule : forall res l,
              (res = None -> fps meta <> 0%Z ->
               exists l3, l = EBusyWait (target_period (fps meta)
                                         - elapsed env episode_idx frame_idx)
                                :: l3) ->
              rule episode_idx frame_idx a res l).
    { intros res l H. split; [|exact H].
      exists d, row. split; [exact Ho|]. split; [|exact Ha].
      pose proof (Hrows 0%nat) as H0. rewrite Nat.add_0_r in H0.
      symmetry. exact H0. }
    unfold orderly, bind at 1, send_action.
    destruct (send_result env (trace w4) a) as [c|]; cbn [fst snd].
    { eexists [_]. split; [reflexivity|].
      apply follows_send; [|apply follows_silent; reflexivity].
      apply Hrule. intros C. discriminate C. }
    erewrite bind_ok by (apply (dataset_fps_eq meta); cbn; exact Hd4).
    unfold frame_budget. destruct (Z.eqb_spec (fps meta) 0) as [Hz|Hz].
    { unfold bind, raise. cbn [fst snd emit trace].
      eexists [_]. split; [reflexivity|].
      apply follows_send; [|apply follows_silent; reflexivity].
      apply Hrule. intros _ C. contradiction. }
    erewrite bind_ok by reflexivity.
    erewrite bind_ok by apply busy_wait_eq.
    erewrite bind_ok by (apply optional_eq; apply print_eq).
    match goal with
    | |- context [ReplayAll.frame_loop _ _ _ _ _ ?w'] =>
        destruct (IH (S frame_idx) w') as (n' & T' & F');
          [cbn; exact Hd4
          |intros j; pose proof (Hrows (S j)) as Hj; cbn [nth_error] in Hj;
           rewrite Hj; f_equal; lia|]
    end.
    rewrite T'. cbn [trace add_events emit].
    exists (ESendAction (Frame episode_idx frame_idx) a None
              :: (EBusyWait (target_period (fps meta)
                             - elapsed env episode_idx frame_idx)
                    :: (if (frame_idx mod 10 =? 0)%nat
                        then [EPrint (MsgProgress frame_idx)] else []))
                   ++ n').
    split.
    + rewrite <- (app_assoc (trace w4)), <- (app_assoc (trace w4)),
        <- (app_assoc (trace w4)).
      reflexivity.
    + apply follows_send.
      * apply Hrule. intros _ _. eexists. reflexivity.
      * apply follows_app; [apply replay_frame_rule_ext| |exact F'].
        apply follows_silent.
        destruct (frame_idx mod 10 =? 0)%nat; reflexivity.
Qed.

End ReplayAllOrderly.

Lemma sound_keeps_dataset {A : Type} (m : M A) (w : World) :
  sound m w -> dataset (snd (m w)) = dataset w.
Proof. intros [new H]. apply (snd_dataset _ _ _ _ H). Qed.

Lemma cleanup_sends_nothing (w : World) :
  exists T,
    trace (snd (ReplayAll.cleanup w)) = trace w ++ T /\ sends T = [].
Proof.
  unfold ReplayAll.cleanup, bind, get.
  destruct (robot w) as [[|]|]; cbn.
  - eexists [_; _]. rewrite <- app_assoc. split; reflexivity.
  - exists []. rewrite app_nil_r. split; reflexivity.
  - exists []. rewrite app_nil_r. split; reflexivity.
Qed.

Section ReplayAllOrderlyRun.

Variable env : Env.
Variable cfg : ReplayAllConfig.
Variable meta : DatasetMeta.

Let rule := replay_frame_rule env meta.

Lemma orderly_replay_single_episode (episode_idx : Z) (w : World) :
  dataset w = Some meta ->
  orderly rule (ReplayAll.replay_single_episode env cfg episode_idx) w.
Proof.
  intros Hd. unfold ReplayAll.replay_single_episode.
  apply (replay_orderly_bind env meta); [apply orderly_log; reflexivity|].
  intros u1 w1 E1. apply log_inv in E1. subst w1.
  apply (replay_orderly_bind env meta).
  { unfold LeRobotDataset_episode.
    apply (replay_orderly_bind env meta); [apply orderly_log; reflexivity|].
    intros u w' _. apply orderly_still.
    destruct (open_episode env episode_idx); reflexivity. }
  intros d w2 E2. apply LeRobotDataset_episode_inv in E2.
  destruct E2 as [Ho ->].
  apply (replay_orderly_bind env meta); [apply orderly_log; reflexivity|].
  intros u3 w3 E3. apply log_inv in E3. subst w3.
  apply (replay_orderly_bind env meta);
    [apply orderly_optional; apply orderly_log; reflexivity|].
  intros u4 w4 E4.
  apply (orderly_replay_frame_loop env meta episode_idx d (actions d) Ho).
  - destruct (play_sounds cfg).
    + apply log_inv in E4. subst w4. cbn. exact Hd.
    + inversion E4; subst. cbn. exact Hd.
  - intros j. reflexivity.
Qed.

Lemma orderly_episode_loop (episodes : list Z) :
  forall w,
    dataset w = Some meta ->
    orderly rule (ReplayAll.episode_loop env cfg episodes) w.
Proof.
  induction episodes as [|e episodes IH]; intros w Hd;
    cbn [ReplayAll.episode_loop]; [apply orderly_ret|].
  apply (replay_orderly_bind env meta); [apply orderly_read_should_stop|].
  intros s w1 E1.
  assert (Hd1 : dataset w1 = Some meta).
  { rewrite (silent_keeps_dataset _ _ _ _
               (silent_read_should_stop _ EpisodeTop w) E1). exact Hd. }
  destruct s; [apply orderly_ret|].
  apply (replay_orderly_bind env meta); [apply orderly_log; reflexivity|].
  intros u2 w2 E2. apply log_inv in E2. subst w2.
  apply (replay_orderly_bind env meta).
  { apply orderly_replay_single_episode. cbn. exact Hd1. }
  intros ok w3 E3.
  assert (Hd3 : dataset w3 = Some meta).
  { pose proof (sound_keeps_dataset _ _
                  (sound_replay_single_episode env cfg e
                     (add_events [EPrint (MsgEpisode e)] w1))) as H.
    rewrite E3 in H. cbn in H. congruence. }
  destruct ok; cbn [negb]; [|apply orderly_ret].
  apply (replay_orderly_bind env meta).
  { apply orderly_of_silent. apply silent_between_episodes.
    intros _ _. exact I. }
  intros u4 w4 E4. apply IH.
  pose proof (sound_keeps_dataset _ _ (sound_between_episodes cfg e w3)) as H.
  rewrite E4 in H. cbn in H. congruence.
Qed.

Lemma orderly_play (w : World) :
  dataset w = Some meta -> orderly rule (ReplayAll.play env cfg) w.
Proof.
  intros Hd. unfold ReplayAll.play.
  apply (replay_orderly_bind env meta); [apply orderly_log; reflexivity|].
  intros u1 w1 E1. apply log_inv in E1. subst w1.
  apply (replay_orderly_bind env meta); [apply orderly_still; reflexivity|].
  intros first_ep w2 E2. apply get_inv in E2. destruct E2 as [_ ->].
  apply (replay_orderly_bind env meta); [apply orderly_still; reflexivity|].
  intros end_ep w3 E3. apply get_inv in E3. destruct E3 as [_ ->].
  apply (replay_orderly_bind env meta);
    [apply orderly_episode_loop; cbn; exact Hd|].
  intros u4 w4 _.
  apply (replay_orderly_bind env meta); [apply orderly_read_should_stop|].
  intros s w5 _. destruct s; apply orderly_log; reflexivity.
Qed.

End ReplayAllOrderlyRun.

(** In every run of replay_all_episodes.py, whatever the operator types,
    the action sent for frame [f] of episode [e] is the one built from row
    [f] of that episode of the dataset, and a send that succeeds is followed
    at once by [busy_wait(1 / fps - dt_s)] for that frame (with no clamping
    at zero), before any other entry of the record. *)
Theorem sent_frame_is_its_row_and_is_followed_by_the_wait (env : Env)
    (cfg : ReplayAllConfig) (schedule : list (list input_item))
    (meta : DatasetMeta) (l1 l2 : list event) (e : Z) (f : nat) (a : action)
    (res : option exn) :
  open_dataset env = inr meta ->
  trace (snd (ReplayAll.replay_all_episodes env cfg schedule))
    = l1 ++ ESendAction (Frame e f) a res :: l2 ->
  (exists d row,
     open_episode env e = inr d /\ nth_error (actions d) f = Some row /\
     build_action (action_names d) 0 row [] = Some a) /\
  (res = None -> fps meta <> 0%Z ->
   exists l3, l2 = EBusyWait (target_period (fps meta) - elapsed env e f) :: l3).
Proof.
  intros Ho Htrace.
  change (replay_frame_rule env meta e f a res l2).
  assert (Hall : follows (replay_frame_rule env meta)
                   (trace (snd (ReplayAll.replay_all_episodes env cfg
                                  schedule)))).
  { clear Htrace. unfold ReplayAll.replay_all_episodes.
    set (w0 := init_world (start_episode (dataset_cfg cfg)) schedule).
    rewrite run_unfold.
    destruct (setup_outcome env cfg w0) as (S & TS & US & _ & HS & OkS & _).
    destruct (unremarkable_facts S US) as (_ & SS & _).
    cbn [trace w0 init_world app] in TS.
    destruct (ReplayAll.setup_robot_and_dataset env cfg w0)
      as [[u|c|] w1] eqn:E; cbn [fst snd] in *.
    - destruct (OkS u eq_refl) as (_ & meta' & Ho' & Hd & _).
      assert (meta' = meta) by congruence. subst meta'.
      destruct (orderly_play env cfg meta (set_input_thread Listening w1) Hd)
        as (n & Tn & Fn).
      cbn [trace set_input_thread] in Tn.
      destruct (ReplayAll.play env cfg (set_input_thread Listening w1))
        as [[u'|c|] w2] eqn:EP; cbn [fst snd] in *.
      + destruct (cleanup_sends_nothing w2) as (T & TT & ST).
        destruct (ReplayAll.cleanup w2) as [r3 w3]. cbn [fst snd] in *.
        rewrite TT, Tn, TS, <- app_assoc.
        apply follows_app; [apply replay_frame_rule_ext
                           |apply follows_silent; exact SS|].
        apply follows_app; [apply replay_frame_rule_ext|exact Fn|].
        apply follows_silent. exact ST.
      + destruct (cleanup_sends_nothing (emit (EPrint (MsgError c)) w2))
          as (T & TT & ST).
        destruct (ReplayAll.cleanup (emit (EPrint (MsgError c)) w2))
          as [r3 w3]. cbn [fst snd trace emit] in *.
        rewrite TT, Tn, TS, <- !app_assoc.
        apply follows_app; [apply replay_frame_rule_ext
                           |apply follows_silent; exact SS|].
        apply follows_app; [apply replay_frame_rule_ext|exact Fn|].
        apply follows_silent. rewrite sends_app, ST. reflexivity.
      + rewrite Tn, TS.
        apply follows_app; [apply replay_frame_rule_ext
                           |apply follows_silent; exact SS|exact Fn].
    - destruct (cleanup_sends_nothing (emit (EPrint (MsgError c)) w1))
        as (T & TT & ST).
      destruct (ReplayAll.cleanup (emit (EPrint (MsgError c)) w1))
        as [r3 w3]. cbn [fst snd trace emit] in *.
      rewrite TT, TS. apply follows_silent.
      rewrite !sends_app, SS, ST. reflexivity.
    - destruct (HS eq_refl). }
  apply (Hall l1 e f a res l2 Htrace).
Qed.

Lemma sent_frame_is_its_row_and_is_followed_by_the_wait_witness :
  exists l3,
    skipn 14 (trace (snd (ReplayAll.replay_all_episodes Scenario.env_A
                            Scenario.cfg_A [])))
    = EBusyWait (target_period 10 - (1 # 100)) :: l3.
Proof.
  destruct (sent_frame_is_its_row_and_is_followed_by_the_wait Scenario.env_A
              Scenario.cfg_A [] (mkDatasetMeta 3 10)
              (firstn 13 (trace (snd (ReplayAll.replay_all_episodes
                                        Scenario.env_A Scenario.cfg_A []))))
              (skipn 14 (trace (snd (ReplayAll.replay_all_episodes
                                       Scenario.env_A Scenario.cfg_A []))))
              0 0%nat Scenario.frame_action None eq_refl) as [_ H].
  - vm_compute. reflexivity.
  - apply H; [reflexivity|discriminate].
Defined.

Lemma demo_frame_rule_ext (clock : Z -> nat -> Q) (e : Z) (f : nat)
    (a : action) (res : option exn) (l l' : list event) :
  demo_frame_rule clock e f a res l ->
  demo_frame_rule clock e f a res (l ++ l').
Proof.
  intros (H1 & H2 & l3 & ->). split; [exact H1|]. split; [exact H2|].
  exists (l3 ++ l'). rewrite <- app_assoc. reflexivity.
Qed.

Section DemoOrderly.

Variable n frames : nat.
Variable clock : Z -> nat -> Q.

Let rule := demo_frame_rule clock.

Lemma demo_orderly_bind {A B : Type} (m : M A) (f : A -> M B) (w : World) :
  orderly rule m w ->
  (forall a w1, m w = (Ok a, w1) -> orderly rule (f a) w1) ->
  orderly rule (bind m f) w.
Proof. apply orderly_bind. apply demo_frame_rule_ext. Qed.

Lemma orderly_demo_frame_loop (episode_idx : Z) (rows : list action) :
  forall frame_idx w,
    (forall j a, nth_error rows j = Some a ->
                 a = Demo.MockAction (Z.to_nat episode_idx) (frame_idx + j)) ->
    orderly rule
      (Demo.frame_loop (Demo.new_MockDataset n frames) clock episode_idx rows
         frame_idx) w.
Proof.
  induction rows as [|a rows IH]; intros frame_idx w Hrows;
    cbn [Demo.frame_loop].
  - apply demo_orderly_bind; [apply orderly_log; reflexivity|].
    intros u1 w1 _. apply orderly_ret.
  - apply demo_orderly_bind; [apply orderly_read_should_stop|].
    intros s w1 _. destruct s.
    { apply demo_orderly_bind; [apply orderly_log; reflexivity|].
      intros u2 w2 _. apply orderly_ret. }
    apply demo_orderly_bind; [apply orderly_still; reflexivity|].
    intros budget w2 E2. apply get_inv in E2. destruct E2 as [-> ->].
    apply demo_orderly_bind; [apply orderly_pause_loop; lia|].
    intros u3 w3 _.
    apply demo_orderly_bind; [apply orderly_read_should_stop|].
    intros s w4 _. destruct s; [apply orderly_ret|].
    assert (Ha : a = Demo.MockAction (Z.to_nat episode_idx) frame_idx).
    { rewrite (Hrows 0%nat a eq_refl), Nat.add_0_r. reflexivity. }
    unfold orderly.
    erewrite bind_ok by reflexivity.
    erewrite bind_ok by (apply optional_eq; apply print_eq).
    erewrite bind_ok by reflexivity.
    erewrite bind_ok by (apply sleep_eq, sleep_time_nonneg).
    match goal with
    | |- context [Demo.frame_loop _ _ _ _ _ ?w'] =>
        destruct (IH (S frame_idx) w') as (n' & T' & F');
          [intros j b Hj; rewrite (Hrows (S j) b Hj); f_equal; lia|]
    end.
    rewrite T'.
    cbn [trace add_events emit].
    exists (ESendAction (Frame episode_idx frame_idx) a None
              :: ((if (frame_idx mod 10 =? 0)%nat
                   then [EPrint (MsgProgress frame_idx)] else [])
                  ++ [ESleep (sleep_time 30 (clock episode_idx frame_idx))])
                 ++ n').
    split.
    + rewrite <- (app_assoc (trace w4)), <- (app_assoc (trace w4)).
      cbn [app]. rewrite <- app_assoc. reflexivity.
    + apply follows_send.
      * split; [exact Ha|]. split; [reflexivity|].
        exists n'. rewrite <- app_assoc. reflexivity.
      * apply follows_app; [apply demo_frame_rule_ext| |exact F'].
        apply follows_silent.
        destruct (frame_idx mod 10 =? 0)%nat; reflexivity.
Qed.

Lemma orderly_demo_replay_single_episode (episode_idx : Z) (w : World) :
  (0 <= episode_idx < Z.of_nat n)%Z ->
  orderly rule
    (Demo.replay_single_episode (Demo.new_MockDataset n frames) clock
       episode_idx) w.
Proof.
  intros He. unfold Demo.replay_single_episode.
  apply demo_orderly_bind; [apply orderly_log; reflexivity|].
  intros u1 w1 _.
  apply demo_orderly_bind.
  { apply orderly_still. rewrite (get_episode_in_range n frames _ _ He).
    reflexivity. }
  intros acts w2 E2. rewrite (get_episode_in_range n frames _ _ He) in E2.
  inversion E2; subst acts w2; clear E2.
  apply demo_orderly_bind; [apply orderly_log; reflexivity|].
  intros u3 w3 _.
  apply orderly_demo_frame_loop.
  intros j a Hj. rewrite nth_error_map, nth_error_seq in Hj.
  destruct (Nat.ltb_spec j frames); inversion Hj. reflexivity.
Qed.

Lemma orderly_demo_episode_loop (episodes : list Z) :
  (forall e, In e episodes -> (0 <= e < Z.of_nat n)%Z) ->
  forall w,
    orderly rule
      (Demo.episode_loop (Demo.new_MockDataset n frames) clock episodes) w.
Proof.
  induction episodes as [|e episodes IH]; intros Hin w;
    cbn [Demo.episode_loop]; [apply orderly_ret|].
  apply demo_orderly_bind; [apply orderly_read_should_stop|].
  intros s w1 _. destruct s; [apply orderly_ret|].
  apply demo_orderly_bind; [apply orderly_log; reflexivity|].
  intros u2 w2 _.
  apply demo_orderly_bind.
  { apply orderly_demo_replay_single_episode. apply Hin. left. reflexivity. }
  intros ok w3 _. destruct ok; cbn [negb]; [|apply orderly_ret].
  apply demo_orderly_bind.
  { destruct (e <? _)%Z; [|apply orderly_ret].
    apply demo_orderly_bind; [apply orderly_read_should_stop|].
    intros s w4 _. destruct s; cbn [negb]; [apply orderly_ret|].
    apply demo_orderly_bind; [apply orderly_log; reflexivity|].
    intros u5 w5 _. apply orderly_log. reflexivity. }
  intros u4 w4 _. apply IH. intros e' H. apply Hin. right. exact H.
Qed.

End DemoOrderly.

(** In every run of the demo, whatever the operator types, the action sent
    for frame [f] of episode [e] is the mock action of that frame, the send
    succeeds, and it is followed (after the progress line of every tenth
    frame) by a sleep of [sleep_time] for the time the frame took, before
    anything else happens. *)
Theorem demo_frame_is_followed_by_its_sleep (n frames : nat)
    (clock : Z -> nat -> Q) (schedule : list (list input_item))
    (l1 l2 : list event) (e : Z) (f : nat) (a : action) (res : option exn) :
  trace (snd (Demo.demo (Demo.new_MockDataset n frames) clock schedule))
    = l1 ++ ESendAction (Frame e f) a res :: l2 ->
  a = Demo.MockAction (Z.to_nat e) f /\ res = None /\
  exists l3,
    l2 = (if (f mod 10 =? 0)%nat then [EPrint (MsgProgress f)] else [])
           ++ ESleep (sleep_time 30 (clock e f)) :: l3.
Proof.
  intros Htrace.
  change (demo_frame_rule clock e f a res l2).
  assert (Hall : follows (demo_frame_rule clock)
                   (trace (snd (Demo.demo (Demo.new_MockDataset n frames)
                                  clock schedule)))).
  { clear Htrace.
    unfold Demo.demo, Demo.run, try_finally, try_except.
    rewrite (demo_run_body_unfold n frames clock
               (set_robot (Some false) (init_world 0 schedule)) eq_refl).
    assert (Hplay : forall w,
              orderly (demo_frame_rule clock)
                (bind (Demo.episode_loop (Demo.new_MockDataset n frames) clock
                         (Py.range 0 (Z.of_nat n)))
                   (fun _ =>
                      s <- read_should_stop None Final ;;
                      if negb s then print MsgAllCompleted
                      else print MsgStoppedByUser)) w).
    { intros w. apply demo_orderly_bind.
      - apply orderly_demo_episode_loop. intros e0 He. apply in_range in He.
        lia.
      - intros u w1 _. apply demo_orderly_bind;
          [apply orderly_read_should_stop|].
        intros s w2 _. destruct s; apply orderly_log; reflexivity. }
    match goal with
    | |- context [bind (Demo.episode_loop ?x ?y ?z) ?k ?w] =>
        destruct (Hplay w) as (new & Tn & Fn);
        remember (bind (Demo.episode_loop x y z) k w) as res0 eqn:EP in *
    end.
    cbn [trace set_input_thread set_robot add_events init_world] in Tn.
    destruct res0 as [[[]|c|] w2]; cbn [fst snd] in *.
    - unfold Demo.cleanup, is_connected, bind, get, disconnect, log, modify,
        bind, ret, raise.
      destruct (robot w2) as [[|]|]; cbn [fst snd trace emit set_robot];
        rewrite ?Tn;
        repeat (apply follows_app; [apply demo_frame_rule_ext| |]);
        try exact Fn; apply follows_silent; reflexivity.
    - unfold print, log, modify. cbn [fst snd].
      unfold Demo.cleanup, is_connected, bind, get, disconnect, log, modify,
        bind, ret, raise. cbn [robot emit].
      destruct (robot w2) as [[|]|]; cbn [fst snd trace emit set_robot];
        rewrite ?Tn;
        repeat (apply follows_app; [apply demo_frame_rule_ext| |]);
        try exact Fn; apply follows_silent; reflexivity.
    - rewrite Tn.
      repeat (apply follows_app; [apply demo_frame_rule_ext| |]);
        try exact Fn; apply follows_silent; reflexivity. }
  apply (Hall l1 e f a res l2 Htrace).
Qed.

Lemma demo_frame_is_followed_by_its_sleep_witness :
  exists l3,
    skipn 10 (trace (snd (Demo.demo (Demo.new_MockDataset 3 5)
                           (fun _ _ => (1 # 100)%Q) [])))
    = [EPrint (MsgProgress 0)] ++ ESleep (sleep_time 30 (1 # 100)) :: l3.
Proof.
  destruct (demo_frame_is_followed_by_its_sleep 3 5 (fun _ _ => (1 # 100)%Q)
              []
              (firstn 9 (trace (snd (Demo.demo (Demo.new_MockDataset 3 5)
                                       (fun _ _ => (1 # 100)%Q) []))))
              (skipn 10 (trace (snd (Demo.demo (Demo.new_MockDataset 3 5)
                                      (fun _ _ => (1 # 100)%Q) []))))
              0 0%nat (Demo.MockAction 0 0) None) as (_ & _ & H).
  - vm_compute. reflexivity.
  - exact H.
Defined.
